(** * The batched JSON-RPC client of [scripts/fetch_from_manifest.py]

    A shallow embedding of [RPCClient] (batching, block-hash cache, opaque
    metadata decoding, retrying fetcher) and of the aggregation done by
    [fetch_blocks_parallel] and [main], followed by the properties proved
    about them.

    Conventions.
    - Python values that flow through the client are JSON values; Python's
      [None] is [JNull].
    - A Python [str] is a Rocq [string]; every character is a code point
      below 256.
    - The remote endpoint is an oracle: the value returned by [_raw_call]
      is a function of everything the client did so far and of the payload.
    - Code that can raise returns an [outcome]; stateful code lives in the
      state-and-exception monad [M]. *)

From Stdlib Require Import ZArith QArith String Ascii List Lia Bool.
From stdpp Require Import base option list gmap strings sorting.

Set Warnings "-register-all".

Local Open Scope string_scope.
Local Open Scope list_scope.
Local Open Scope Z_scope.

(** ** Python values *)

(** A Python [float] as [json.loads] can produce it: a finite value (every
    double is a rational), an infinity or a NaN. *)
Inductive pyfloat : Type :=
| FNaN
| FInf (negative : bool)
| FFin (q : Q).

Inductive json : Type :=
| JNull
| JBool (b : bool)
| JInt (z : Z)
| JFloat (f : pyfloat)
| JStr (s : string)
| JArr (items : list json)
| JObj (members : list (string * json)).

Inductive exn : Type :=
| TypeError
| KeyError
| AttributeError
| ValueError
| IndexError.

Inductive outcome (A : Type) : Type :=
| Ok (a : A)
| Raise (e : exn).
Arguments Ok {A} a.
Arguments Raise {A} e.

Definition obind {A B} (o : outcome A) (k : A -> outcome B) : outcome B :=
  match o with
  | Ok a => k a
  | Raise e => Raise e
  end.

(** [for x in xs: acc = body(acc, x)], where the body may raise. *)
Fixpoint ofold {A B} (body : A -> B -> outcome A) (acc : A) (xs : list B)
  : outcome A :=
  match xs with
  | [] => Ok acc
  | x :: xs' => obind (body acc x) (fun acc' => ofold body acc' xs')
  end.

(** [bool(v)]. *)
Definition py_truthy (v : json) : bool :=
  match v with
  | JNull => false
  | JBool b => b
  | JInt z => negb (z =? 0)
  | JFloat FNaN => true
  | JFloat (FInf _) => true
  | JFloat (FFin q) => negb (Qeq_bool q 0)
  | JStr s => negb (String.eqb s "")
  | JArr items => match items with [] => false | _ => true end
  | JObj members => match members with [] => false | _ => true end
  end.

(** [d.get(key)] on the members of a dict: [None] when the key is missing. *)
Fixpoint dict_lookup (members : list (string * json)) (key : string)
  : option json :=
  match members with
  | [] => None
  | (k, v) :: rest => if String.eqb k key then Some v else dict_lookup rest key
  end.

Definition dict_get (members : list (string * json)) (key : string)
    (dflt : json) : json :=
  match dict_lookup members key with
  | Some v => v
  | None => dflt
  end.

(** [needle in haystack] for two strings. *)
Fixpoint is_prefix (p s : string) : bool :=
  match p, s with
  | EmptyString, _ => true
  | String a p', String b s' => Ascii.eqb a b && is_prefix p' s'
  | String _ _, EmptyString => false
  end.

Fixpoint is_substring (needle hay : string) : bool :=
  is_prefix needle hay ||
  match hay with
  | EmptyString => false
  | String _ hay' => is_substring needle hay'
  end.

(** [key in v] for a string [key]. *)
Definition py_contains (key : string) (v : json) : outcome bool :=
  match v with
  | JObj members =>
      Ok (match dict_lookup members key with Some _ => true | None => false end)
  | JArr items =>
      Ok (existsb (fun x => match x with JStr s => String.eqb s key | _ => false end)
            items)
  | JStr s => Ok (is_substring key s)
  | _ => Raise TypeError
  end.

(** [v[key]] for a string [key]. *)
Definition py_getitem (v : json) (key : string) : outcome json :=
  match v with
  | JObj members =>
      match dict_lookup members key with
      | Some x => Ok x
      | None => Raise KeyError
      end
  | _ => Raise TypeError
  end.

(** The items a [for] loop over [v] visits. *)
Definition py_iter (v : json) : outcome (list json) :=
  match v with
  | JArr items => Ok items
  | JStr s => Ok (map (fun c => JStr (String c EmptyString)) (list_ascii_of_string s))
  | JObj members => Ok (map (fun kv => JStr (fst kv)) members)
  | _ => Raise TypeError
  end.

(** [lo <= v], with an integer on the left. *)
Definition py_int_le (lo : Z) (v : json) : outcome bool :=
  match v with
  | JInt z => Ok (lo <=? z)
  | JBool b => Ok (lo <=? Z.b2z b)
  | JFloat FNaN => Ok false
  | JFloat (FInf negative) => Ok (negb negative)
  | JFloat (FFin q) => Ok (Qle_bool (inject_Z lo) q)
  | _ => Raise TypeError
  end.

(** [v < hi], with an integer on the right. *)
Definition py_lt_int (v : json) (hi : Z) : outcome bool :=
  match v with
  | JInt z => Ok (z <? hi)
  | JBool b => Ok (Z.b2z b <? hi)
  | JFloat FNaN => Ok false
  | JFloat (FInf negative) => Ok negative
  | JFloat (FFin q) => Ok (negb (Qle_bool (inject_Z hi) q))
  | _ => Raise TypeError
  end.

(** [lo <= v < hi]: the second comparison runs only if the first holds. *)
Definition py_between (lo : Z) (v : json) (hi : Z) : outcome bool :=
  obind (py_int_le lo v) (fun b => if b then py_lt_int v hi else Ok false).

(** [l[i] = x] for an integer index. *)
Definition list_setitem_int (l : list json) (i : Z) (x : json)
  : outcome (list json) :=
  let n := Z.of_nat (length l) in
  let j := if i <? 0 then i + n else i in
  if (0 <=? j) && (j <? n) then Ok (<[Z.to_nat j := x]> l) else Raise IndexError.

(** [l[idx] = x]: only integers (and booleans, which are integers) index a
    list. *)
Definition py_list_setitem (l : list json) (idx : json) (x : json)
  : outcome (list json) :=
  match idx with
  | JInt z => list_setitem_int l z x
  | JBool b => list_setitem_int l (Z.b2z b) x
  | _ => Raise TypeError
  end.

(** ** The client, the remote endpoint and the monad *)

(** What the client does to the outside world. *)
Inductive event : Type :=
| NetCall (endpoint : string) (payload : json)
| Sleep (seconds : Z).

(** [self] together with the outside world.  [endpoint] is the pinned
    endpoint ([self.endpoints[self.current_idx]]), [block_hash_cache] the
    dictionary of the same name, [trace] the effects so far, oldest first,
    and [remote] the endpoint's behaviour: what [_raw_call] returns ([JNull]
    for [None]) given the effects so far, the endpoint and the payload. *)
Record world : Type := World {
  endpoint : string;
  block_hash_cache : gmap Z json;
  trace : list event;
  remote : list event -> string -> json -> json
}.

Definition M (A : Type) : Type := world -> outcome A * world.

Definition ret {A} (a : A) : M A := fun w => (Ok a, w).

Definition bind {A B} (m : M A) (k : A -> M B) : M B :=
  fun w =>
    match m w with
    | (Ok a, w') => k a w'
    | (Raise e, w') => (Raise e, w')
    end.

Definition lift {A} (o : outcome A) : M A := fun w => (o, w).

(** [try: body except Exception: handler]. *)
Definition try_except {A} (body : M A) (handler : exn -> M A) : M A :=
  fun w =>
    match body w with
    | (Ok a, w') => (Ok a, w')
    | (Raise e, w') => handler e w'
    end.

Declare Scope client_scope.
Delimit Scope client_scope with client.
Notation "x <- m ;; k" := (bind m (fun x => k))
  (at level 100, m at next level, right associativity) : client_scope.
Notation "m ;; k" := (bind m (fun _ => k))
  (at level 100, right associativity) : client_scope.
Local Open Scope client_scope.

Definition get_endpoint : M string := fun w => (Ok (endpoint w), w).

Definition get_cache : M (gmap Z json) := fun w => (Ok (block_hash_cache w), w).

Definition with_cache (c : gmap Z json) (w : world) : world :=
  {| endpoint := endpoint w; block_hash_cache := c;
     trace := trace w; remote := remote w |}.

Definition record_event (e : event) (w : world) : world :=
  {| endpoint := endpoint w; block_hash_cache := block_hash_cache w;
     trace := trace w ++ [e]; remote := remote w |}.

Definition set_cache (c : gmap Z json) : M unit :=
  fun w => (Ok tt, with_cache c w).

Definition emit (e : event) : M unit :=
  fun w => (Ok tt, record_event e w).

(** [time.sleep(seconds)]. *)
Definition sleep (seconds : Z) : M unit := emit (Sleep seconds).

(** [_raw_call] on an endpoint for which a connection is obtained: one POST
    to the endpoint.  Every failure inside the [try] (HTTP status,
    rate-limit reply, transport error) is turned into [None] by the function
    itself, so it returns a value and never raises.  The two lines before
    the [try] ([urlparse] and [_get_connection]) can raise for an endpoint
    string that does not parse; they have succeeded for the endpoint a
    client is pinned to, which the constructor has probed, and the
    constructor itself is modelled with them ([probe_from]). *)
Definition _raw_call (ep : string) (payload : json) : M json :=
  fun w =>
    (Ok (remote w (trace w) ep payload), record_event (NetCall ep payload) w).

(** The request object that [call] and [batch_call] serialise. *)
Definition request (method : string) (params : list json) (id : Z) : json :=
  JObj [("jsonrpc", JStr "2.0"); ("method", JStr method);
        ("params", JArr params); ("id", JInt id)].

(** What [call] returns for a raw response: [result["result"]] when the
    response is truthy and has that key, [None] otherwise. *)
Definition extract_result (result : json) : outcome json :=
  if py_truthy result then
    obind (py_contains "result" result) (fun has_result =>
      if has_result then py_getitem result "result" else Ok JNull)
  else Ok JNull.

Definition call (method : string) (params : list json) : M json :=
  ep <- get_endpoint ;;
  result <- _raw_call ep (request method params 1) ;;
  lift (extract_result result).

(** ** [batch_call] *)

Definition batch_payload (calls : list (string * list json)) : json :=
  JArr (imap (fun i c => request (fst c) (snd c) (Z.of_nat i)) calls).

(** The body of [for item in result] for a batch of [n] calls. *)
Definition store_item (n : nat) (results : list json) (item : json)
  : outcome (list json) :=
  match item with
  | JObj members =>
      match dict_lookup members "id" with
      | Some idx =>
          obind (py_between 0 idx (Z.of_nat n)) (fun inside =>
            if inside
            then py_list_setitem results idx (dict_get members "result" JNull)
            else Ok results)
      | None => Ok results
      end
  | _ => Ok results
  end.

(** Everything [batch_call] does with the raw response. *)
Definition collect_results (n : nat) (result : json) : outcome (list json) :=
  if negb (py_truthy result) then Ok (replicate n JNull)
  else
    match result with
    | JObj _ => Ok (replicate n JNull)
    | _ =>
        obind (py_iter result) (fun items =>
          ofold (store_item n) (replicate n JNull) items)
    end.

Definition batch_call (calls : list (string * list json)) : M (list json) :=
  match calls with
  | [] => ret []
  | _ :: _ =>
      ep <- get_endpoint ;;
      result <- _raw_call ep (batch_payload calls) ;;
      lift (collect_results (length calls) result)
  end.

(** ** The block-hash cache *)

(** The locked section [self.block_hash_cache[block_number] = result]. *)
Definition store_hash (block_number : Z) (result : json) : M unit :=
  cache <- get_cache ;;
  set_cache (<[block_number := result]> cache).

Definition get_block_hash (block_number : Z) : M json :=
  cache <- get_cache ;;
  match cache !! block_number with
  | Some h => ret h
  | None =>
      result <- call "chain_getBlockHash" [JInt block_number] ;;
      (if py_truthy result then store_hash block_number result else ret tt) ;;
      ret result
  end.

(** A Python [dict] with integer keys, in insertion order: [d[k] = v] keeps
    the position of a key that is already there. *)
Fixpoint dict_setitem (d : list (Z * json)) (k : Z) (v : json)
  : list (Z * json) :=
  match d with
  | [] => [(k, v)]
  | (k', v') :: d' =>
      if Z.eqb k' k then (k', v) :: d' else (k', v') :: dict_setitem d' k v
  end.

(** [{bn: cache.get(bn) for bn in block_numbers}]. *)
Definition hash_map_of (cache : gmap Z json) (block_numbers : list Z)
  : list (Z * json) :=
  foldl (fun d bn => dict_setitem d bn (default JNull (cache !! bn)))
    [] block_numbers.

(** [for bn, result in zip(uncached, results): if result: cache[bn] = result]. *)
Definition merge_hashes (cache : gmap Z json) (pairs : list (Z * json))
  : gmap Z json :=
  foldl (fun c p => if py_truthy (snd p) then <[fst p := snd p]> c else c)
    cache pairs.

Definition hash_calls (numbers : list Z) : list (string * list json) :=
  map (fun bn => ("chain_getBlockHash", [JInt bn])) numbers.

(** [[bn for bn in block_numbers if bn not in self.block_hash_cache]]. *)
Definition uncached_of (cache : gmap Z json) (block_numbers : list Z) : list Z :=
  filter (fun bn => cache !! bn = None) block_numbers.

(** The locked section that stores the results of the batch. *)
Definition store_hashes (uncached : list Z) (results : list json) : M unit :=
  cache <- get_cache ;;
  set_cache (merge_hashes cache (zip uncached results)).

Definition get_block_hashes_batch (block_numbers : list Z)
  : M (list (Z * json)) :=
  cache <- get_cache ;;
  let uncached := uncached_of cache block_numbers in
  match uncached with
  | [] => ret tt
  | _ :: _ =>
      results <- batch_call (hash_calls uncached) ;;
      store_hashes uncached results
  end ;;
  cache' <- get_cache ;;
  ret (hash_map_of cache' block_numbers).

(** ** Strings and [int(s, 16)] *)

(** [s[n:]] for a natural [n]. *)
Fixpoint str_drop (n : nat) (s : string) : string :=
  match n, s with
  | O, _ => s
  | S n', String _ s' => str_drop n' s'
  | S _, EmptyString => EmptyString
  end.

(** [s[:n]] for a natural [n]. *)
Fixpoint str_take (n : nat) (s : string) : string :=
  match n, s with
  | O, _ => EmptyString
  | S n', String c s' => String c (str_take n' s')
  | S _, EmptyString => EmptyString
  end.

(** [s[start:]] for any integer [start]: a negative start counts from the
    end and is clamped at the beginning. *)
Definition py_slice_from (start : Z) (s : string) : string :=
  let len := Z.of_nat (String.length s) in
  let start' := if start <? 0 then Z.max 0 (len + start) else start in
  str_drop (Z.to_nat start') s.

(** White space for [int]: the ASCII white space of the parser, and the two
    characters above 127 that it first rewrites to a space. *)
Definition int_space (c : ascii) : bool :=
  let n := nat_of_ascii c in
  ((9 <=? n) && (n <=? 13) || (n =? 32) || (n =? 133) || (n =? 160))%nat.

Definition hex_value (c : ascii) : option Z :=
  let n := Z.of_nat (nat_of_ascii c) in
  if (48 <=? n) && (n <=? 57) then Some (n - 48)
  else if (97 <=? n) && (n <=? 102) then Some (n - 87)
  else if (65 <=? n) && (n <=? 70) then Some (n - 55)
  else None.

Fixpoint skip_spaces (s : string) : string :=
  match s with
  | String c s' => if int_space c then skip_spaces s' else s
  | EmptyString => s
  end.

(** The digit loop: digits with single underscores between them.  Gives the
    value, whether anything was consumed, and the rest; [None] on a doubled
    or trailing underscore. *)
Fixpoint scan_digits (s : string) (prev_underscore seen : bool) (acc : Z)
  : option (Z * bool * string) :=
  match s with
  | String c s' =>
      if Ascii.eqb c "_" then
        if prev_underscore then None else scan_digits s' true true acc
      else
        match hex_value c with
        | Some d => scan_digits s' false true (16 * acc + d)
        | None => if prev_underscore then None else Some (acc, seen, s)
        end
  | EmptyString => if prev_underscore then None else Some (acc, seen, s)
  end.

(** [int(s, 16)]: white space, an optional sign, an optional [0x] prefix
    (which may be followed by one underscore), the digits, white space. *)
Definition strip_sign (s : string) : Z * string :=
  match s with
  | String c r =>
      if Ascii.eqb c "+" then (1, r)
      else if Ascii.eqb c "-" then (-1, r)
      else (1, s)
  | EmptyString => (1, s)
  end.

Definition strip_hex_prefix (s : string) : string :=
  match s with
  | String c (String x r) =>
      if Ascii.eqb c "0" && (Ascii.eqb x "x" || Ascii.eqb x "X") then
        match r with
        | String u r' => if Ascii.eqb u "_" then r' else r
        | EmptyString => r
        end
      else s
  | _ => s
  end.

Definition starts_with_underscore (s : string) : bool :=
  match s with
  | String c _ => Ascii.eqb c "_"
  | EmptyString => false
  end.

Definition py_int16 (s : string) : outcome Z :=
  let signed := strip_sign (skip_spaces s) in
  let digits := strip_hex_prefix (snd signed) in
  if starts_with_underscore digits then Raise ValueError
  else
    match scan_digits digits false false 0 with
    | Some (v, true, rest) =>
        match skip_spaces rest with
        | EmptyString => Ok (fst signed * v)
        | String _ _ => Raise ValueError
        end
    | _ => Raise ValueError
    end.

(** ** Metadata at a version *)

Definition hex_char (d : N) : ascii :=
  ascii_of_N (if (d <? 10)%N then 48 + d else 87 + d)%N.

(** Lower-case hexadecimal digits of [n], most significant first, in front
    of [acc]. *)
Fixpoint hex_digits (fuel : nat) (n : N) (acc : string) : string :=
  match fuel with
  | O => acc
  | S fuel' =>
      let acc' := String (hex_char (n mod 16)%N) acc in
      if (n / 16 =? 0)%N then acc' else hex_digits fuel' (n / 16)%N acc'
  end.

(** [f"{v:02x}"]. *)
Definition format_02x (v : Z) : string :=
  let digits := hex_digits (S (N.to_nat (N.log2 (Z.abs_N v)))) (Z.abs_N v) "" in
  if v <? 0 then String "-" digits
  else if (String.length digits <? 2)%nat then String "0" digits
  else digits.

(** [f"0x{version:02x}000000"]. *)
Definition version_param (version : Z) : string :=
  "0x" ++ format_02x version ++ "000000".

(** The offset at which the payload starts, from the tag byte. *)
Definition data_start_of (first_byte : Z) : Z :=
  if Z.land first_byte 3 =? 0 then 2
  else if Z.land first_byte 3 =? 1 then 4
  else if Z.land first_byte 3 =? 2 then 8
  else
    let num_bytes := Z.shiftr first_byte 2 + 4 in
    2 + num_bytes * 2.

(** [_decode_opaque_metadata]: the whole body sits in a [try] whose handler
    returns [None]. *)
Definition _decode_opaque_metadata (hex_data : string) : json :=
  if String.eqb hex_data "" then JNull
  else
    match py_int16 (str_take 2 hex_data) with
    | Ok first_byte =>
        JStr ("0x" ++ py_slice_from (data_start_of first_byte) hex_data)
    | Raise _ => JNull
    end.

(** [len(v)]. *)
Definition py_len (v : json) : outcome nat :=
  match v with
  | JStr s => Ok (String.length s)
  | JArr items => Ok (length items)
  | JObj members => Ok (length members)
  | _ => Raise TypeError
  end.

(** What [get_metadata_at_version] does with the result of its [state_call]. *)
Definition metadata_of_result (result : json) : outcome json :=
  if negb (py_truthy result) then Ok JNull
  else if match result with JStr s => String.eqb s "0x00" | _ => false end
  then Ok JNull
  else
    obind (py_len result) (fun n =>
      if (n <? 4)%nat then Ok JNull
      else
        match result with
        | JStr s =>
            if is_prefix "0x01" s then Ok (_decode_opaque_metadata (str_drop 4 s))
            else Ok JNull
        | _ => Raise AttributeError
        end).

Definition get_metadata_at_version (block_hash : json) (version : Z) : M json :=
  result <- call "state_call"
              [JStr "Metadata_metadata_at_version";
               JStr (version_param version); block_hash] ;;
  lift (metadata_of_result result).

(** ** The fetcher *)

(** The header subset of a block record. *)
Record header_subset : Type := HeaderSubset {
  digest : json;
  extrinsicsRoot : json;
  number : json;
  parentHash : json;
  stateRoot : json
}.

Module BlockRecord.
Record t : Type := Make {
  blockNumber : Z;
  extrinsics : json;
  header : header_subset
}.
End BlockRecord.

Module EventRecord.
Record t : Type := Make {
  blockNumber : Z;
  events : json
}.
End EventRecord.

Definition MAX_RETRIES : nat := 3.

(** [RETRY_DELAY = 1.0]; delays are whole seconds. *)
Definition RETRY_DELAY : Z := 1.

Definition events_key : string :=
  "0x26aa394eea5630e07c48ae0c9558cef780d41e5e16056765bc8461851072c9d7".

(** The dictionary appended to [blocks] for a truthy [block_data]. *)
Definition make_block_record (bn : Z) (block_data : json)
  : outcome BlockRecord.t :=
  obind (py_getitem block_data "block") (fun block =>
  obind (py_getitem block "header") (fun header =>
  obind (py_getitem block_data "block") (fun block' =>
  obind (py_getitem block' "extrinsics") (fun extrinsics =>
    match header with
    | JObj h =>
        Ok (BlockRecord.Make bn extrinsics
              (HeaderSubset (dict_get h "digest" (JObj []))
                 (dict_get h "extrinsicsRoot" JNull)
                 (dict_get h "number" JNull)
                 (dict_get h "parentHash" JNull)
                 (dict_get h "stateRoot" JNull)))
    | _ => Raise AttributeError
    end)))).

(** The body of the loop over [zip(valid_blocks, block_results,
    event_results)]. *)
Definition emit_records
    (acc : list BlockRecord.t * list EventRecord.t)
    (row : (Z * json) * (json * json))
  : outcome (list BlockRecord.t * list EventRecord.t) :=
  let bn := fst (fst row) in
  let block_data := fst (snd row) in
  let event_data := snd (snd row) in
  obind
    (if py_truthy block_data
     then obind (make_block_record bn block_data) (fun r => Ok (fst acc ++ [r]))
     else Ok (fst acc))
    (fun blocks =>
       Ok (blocks,
           if py_truthy event_data
           then snd acc ++ [EventRecord.Make bn event_data]
           else snd acc)).

Definition valid_blocks_of (hash_map : list (Z * json)) : list (Z * json) :=
  filter (fun p => py_truthy (snd p) = true) hash_map.

Definition block_calls (valid_blocks : list (Z * json))
  : list (string * list json) :=
  map (fun p => ("chain_getBlock", [snd p])) valid_blocks.

Definition event_calls (valid_blocks : list (Z * json))
  : list (string * list json) :=
  map (fun p => ("state_getStorage", [JStr events_key; snd p])) valid_blocks.

Definition _fetch_block_and_events_batch_impl (block_numbers : list Z)
  : M (list BlockRecord.t * list EventRecord.t) :=
  hash_map <- get_block_hashes_batch block_numbers ;;
  let valid_blocks := valid_blocks_of hash_map in
  match valid_blocks with
  | [] => ret ([], [])
  | _ :: _ =>
      block_results <- batch_call (block_calls valid_blocks) ;;
      event_results <- batch_call (event_calls valid_blocks) ;;
      lift (ofold emit_records ([], [])
              (zip valid_blocks (zip block_results event_results)))
  end.

(** One iteration of [for attempt in range(MAX_RETRIES)]: [Some r] when the
    iteration executes [return r], [None] when it falls through to the next
    one. *)
Definition attempt_once (attempt : nat) (block_numbers : list Z)
  : M (option (list BlockRecord.t * list EventRecord.t)) :=
  try_except
    (r <- _fetch_block_and_events_batch_impl block_numbers ;;
     if (length (fst r) =? length block_numbers)%nat then ret (Some r)
     else if (attempt =? MAX_RETRIES - 1)%nat then ret (Some r)
     else sleep (RETRY_DELAY * (Z.of_nat attempt + 1)) ;; ret None)
    (fun _ =>
       if (attempt =? MAX_RETRIES - 1)%nat then ret (Some ([], []))
       else sleep (RETRY_DELAY * (Z.of_nat attempt + 1)) ;; ret None).

Fixpoint retry_loop (attempts : list nat) (block_numbers : list Z)
  : M (list BlockRecord.t * list EventRecord.t) :=
  match attempts with
  | [] => ret ([], [])
  | attempt :: rest =>
      r <- attempt_once attempt block_numbers ;;
      match r with
      | Some result => ret result
      | None => retry_loop rest block_numbers
      end
  end.

Definition fetch_block_and_events_batch (block_numbers : list Z)
  : M (list BlockRecord.t * list EventRecord.t) :=
  retry_loop (seq 0 MAX_RETRIES) block_numbers.

(** ** The orchestrator and the output files *)

Definition BATCH_SIZE : nat := 4.

(** [[block_numbers[i:i + BATCH_SIZE] for i in range(0, len(block_numbers),
    BATCH_SIZE)]]. *)
Definition batches_of (block_numbers : list Z) : list (list Z) :=
  map (fun k => take BATCH_SIZE (drop (k * BATCH_SIZE) block_numbers))
    (seq 0 ((length block_numbers + BATCH_SIZE - 1) / BATCH_SIZE)).

(** The loop over [as_completed(futures)]: [extend] the two lists with every
    result, in the order the futures complete. *)
Definition aggregate
    (completed : list (list BlockRecord.t * list EventRecord.t))
  : list BlockRecord.t * list EventRecord.t :=
  foldl (fun all r => (fst all ++ fst r, snd all ++ snd r)) ([], []) completed.

(** The batches run by the pool, one result per entry of
    [completion_order], which lists batch indices in the order their futures
    complete.  A worker's batch is run as one step here; the properties of
    the aggregated lists below hold for any results the workers deliver. *)
Fixpoint run_batches (completion_order : list nat) (batches : list (list Z))
  : M (list (list BlockRecord.t * list EventRecord.t)) :=
  match completion_order with
  | [] => ret []
  | i :: rest =>
      match batches !! i with
      | Some batch =>
          r <- fetch_block_and_events_batch batch ;;
          rs <- run_batches rest batches ;;
          ret (r :: rs)
      | None => run_batches rest batches
      end
  end.

Definition fetch_blocks_parallel (completion_order : list nat)
    (block_numbers : list Z)
  : M (list BlockRecord.t * list EventRecord.t) :=
  completed <- run_batches completion_order (batches_of block_numbers) ;;
  ret (aggregate completed).

(** [sorted(l, key=key)]: the stable sort by an integer key. *)
Fixpoint insert_by {A} (key : A -> Z) (x : A) (l : list A) : list A :=
  match l with
  | [] => [x]
  | y :: l' => if key x <=? key y then x :: l else y :: insert_by key x l'
  end.

Definition py_sorted {A} (key : A -> Z) (l : list A) : list A :=
  foldr (insert_by key) [] l.

(** The records [main] writes to [blocks.jsonl] and [events.jsonl], line by
    line. *)
Definition blocks_jsonl (blocks : list BlockRecord.t) : list BlockRecord.t :=
  py_sorted BlockRecord.blockNumber blocks.

Definition events_jsonl (events : list EventRecord.t) : list EventRecord.t :=
  py_sorted EventRecord.blockNumber events.

(** The part of [main] from [fetch_blocks_parallel] to the two files. *)
Definition main_fetch_and_write (completion_order : list nat)
    (block_numbers : list Z)
  : M (list BlockRecord.t * list EventRecord.t) :=
  r <- fetch_blocks_parallel completion_order block_numbers ;;
  ret (blocks_jsonl (fst r), events_jsonl (snd r)).

(** ** Notions used to state the properties *)

(** The integer an id denotes when it is used as a list index. *)
Definition id_index (idx : json) : option Z :=
  match idx with
  | JInt z => Some z
  | JBool b => Some (Z.b2z b)
  | _ => None
  end.

(** The slot of a batch of [n] calls that a response item fills, with the
    value it puts there: the item is a dict whose ["id"] is an integer in
    [0..n-1], and the value is its ["result"] ([None] without one). *)
Definition item_slot (n : nat) (item : json) : option (nat * json) :=
  match item with
  | JObj members =>
      match dict_lookup members "id" with
      | Some idx =>
          match id_index idx with
          | Some z =>
              if (0 <=? z) && (z <? Z.of_nat n)
              then Some (Z.to_nat z, dict_get members "result" JNull)
              else None
          | None => None
          end
      | None => None
      end
  | _ => None
  end.

Definition float_between (f : pyfloat) (n : nat) : bool :=
  match f with
  | FFin q => Qle_bool (inject_Z 0) q && negb (Qle_bool (inject_Z (Z.of_nat n)) q)
  | _ => false
  end.

(** The response items the loop of [batch_call] gets past: everything but a
    dict whose ["id"] is neither a number nor a boolean, or is a float
    inside [0..n-1]. *)
Definition item_accepted (n : nat) (item : json) : bool :=
  match item with
  | JObj members =>
      match dict_lookup members "id" with
      | Some (JInt _) => true
      | Some (JBool _) => true
      | Some (JFloat f) => negb (float_between f n)
      | Some _ => false
      | None => true
      end
  | _ => true
  end.

(** The items of a raw response that the loop visits at all. *)
Definition response_items (result : json) : list json :=
  if py_truthy result then
    match result with
    | JArr items => items
    | JStr s => map (fun c => JStr (String c EmptyString)) (list_ascii_of_string s)
    | _ => []
    end
  else [].

(** The raw responses on which [batch_call] does not raise. *)
Definition response_accepted (n : nat) (result : json) : bool :=
  match result with
  | JArr items => forallb (item_accepted n) items
  | JBool b => negb b
  | JInt _ => negb (py_truthy result)
  | JFloat _ => negb (py_truthy result)
  | _ => true
  end.

(** What an accepted item does to the result list, and the result list
    after the whole loop. *)
Definition slot_step (n : nat) (results : list json) (item : json) : list json :=
  match item_slot n item with
  | Some (i, v) => <[i := v]> results
  | None => results
  end.

Definition fill_slots (n : nat) (items : list json) : list json :=
  foldl (slot_step n) (replicate n JNull) items.

(** The values the response items put into slot [i], in response order. *)
Definition slot_values (n : nat) (items : list json) (i : nat) : list json :=
  omap (fun item =>
          match item_slot n item with
          | Some (j, v) => if Nat.eqb j i then Some v else None
          | None => None
          end)
    items.

(** States of the client after further calls: any number of [get_block_hash]
    and [get_block_hashes_batch] calls, and of steps that leave the cache
    alone (other requests, sleeps). *)
Inductive later_state (w : world) : world -> Prop :=
| later_now : later_state w w
| later_get_block_hash w' block_number :
    later_state w w' ->
    later_state w (snd (get_block_hash block_number w'))
| later_get_block_hashes_batch w' block_numbers :
    later_state w w' ->
    later_state w (snd (get_block_hashes_batch block_numbers w'))
| later_other w' w'' :
    later_state w w' ->
    block_hash_cache w'' = block_hash_cache w' ->
    later_state w w''.

(** Keys in the order a [dict] keeps them: by first insertion. *)
Definition add_key (keys : list Z) (k : Z) : list Z :=
  if decide (k ∈ keys) then keys else keys ++ [k].

Definition keys_in_order (block_numbers : list Z) : list Z :=
  foldl add_key [] block_numbers.

(** ** Data for the examples *)

(** A client right after construction, pinned to an endpoint that behaves
    as [behaviour]. *)
Definition fresh_client (behaviour : list event -> string -> json -> json)
  : world :=
  World "https://rpc.example" ∅ [] behaviour.

(** The reply of a JSON-RPC 2.0 server to a request it could not read. *)
Definition invalid_request_reply : json :=
  JArr [JObj [("jsonrpc", JStr "2.0");
              ("error", JObj [("code", JInt (-32600));
                              ("message", JStr "Invalid Request")]);
              ("id", JNull)]].

(** A well-behaved endpoint: every request object is answered with the
    result [answer method params] under the request's own id; a batch is
    answered item by item, in order. *)
Definition answer_request (answer : string -> list json -> json) (req : json)
  : json :=
  match req with
  | JObj members =>
      match dict_lookup members "method", dict_lookup members "params",
            dict_lookup members "id" with
      | Some (JStr method), Some (JArr params), Some id =>
          JObj [("jsonrpc", JStr "2.0"); ("result", answer method params);
                ("id", id)]
      | _, _, _ => JNull
      end
  | _ => JNull
  end.

Definition serve (answer : string -> list json -> json)
  : list event -> string -> json -> json :=
  fun _ _ payload =>
    match payload with
    | JArr reqs => JArr (map (answer_request answer) reqs)
    | _ => answer_request answer payload
    end.

(** A small chain: block [n] has hash ["0x" ++ hex n] (negative numbers
    have no block), every block has a header and no extrinsics, and the
    event storage is ["0x00"] for every block but block 0, which has
    none. *)
Definition toy_hash (n : Z) : json := JStr ("0x" ++ format_02x n).

Definition toy_block (h : json) : json :=
  JObj [("block",
         JObj [("header", JObj [("parentHash", h); ("number", JStr "0x1")]);
               ("extrinsics", JArr [])]);
        ("justifications", JNull)].

Definition toy_chain (method : string) (params : list json) : json :=
  if String.eqb method "chain_getBlockHash" then
    match params with
    | [JInt n] => if 0 <=? n then toy_hash n else JNull
    | _ => JNull
    end
  else if String.eqb method "chain_getBlock" then
    match params with
    | [h] => toy_block h
    | _ => JNull
    end
  else if String.eqb method "state_getStorage" then
    match params with
    | [_; JStr h] => if String.eqb h "0x00" then JNull else JStr "0x00"
    | _ => JNull
    end
  else JNull.

Definition toy_client : world := fresh_client (serve toy_chain).

(** An attempt that ends the retry loop early: it returned, with as many
    block records as there are requested numbers. *)
Definition complete (block_numbers : list Z)
    (r : outcome (list BlockRecord.t * list EventRecord.t)) : bool :=
  match r with
  | Ok be => (length (fst be) =? length block_numbers)%nat
  | Raise _ => false
  end.

(** The delays of the [time.sleep] calls in a trace, oldest first. *)
Definition sleeps (t : list event) : list Z :=
  omap (fun e => match e with Sleep s => Some s | NetCall _ _ => None end) t.

(** Ordered by key. *)
Definition key_le {A} (key : A -> Z) : relation A :=
  fun x y => key x <= key y.

(** Block data from which a block record can be built: a dict with a
    ["block"] dict that has a ["header"] dict and ["extrinsics"]. *)
Definition well_formed_block (block_data : json) : bool :=
  match block_data with
  | JObj members =>
      match dict_lookup members "block" with
      | Some (JObj block) =>
          match dict_lookup block "header", dict_lookup block "extrinsics" with
          | Some (JObj _), Some _ => true
          | _, _ => false
          end
      | _ => false
      end
  | _ => false
  end.

(** The rows of the loop that emit a block record, and those that emit an
    event record. *)
Definition block_rows (rows : list ((Z * json) * (json * json)))
  : list ((Z * json) * (json * json)) :=
  filter (fun row => py_truthy (fst (snd row)) = true) rows.

Definition event_rows (rows : list ((Z * json) * (json * json)))
  : list ((Z * json) * (json * json)) :=
  filter (fun row => py_truthy (snd (snd row)) = true) rows.

(** ** A chain behind an endpoint that does not fail *)

(** The endpoint answers every batch in full: [batch_call] gets through the
    reply, and slot [i] of its result is [answer method params] for call
    [i].  The order of the items in the reply is free. *)
Definition batches_answered (behaviour : list event -> string -> json -> json)
    (answer : string -> list json -> json) : Prop :=
  forall hist ep calls, calls <> [] ->
    response_accepted (length calls) (behaviour hist ep (batch_payload calls)) = true /\
    fill_slots (length calls)
      (response_items (behaviour hist ep (batch_payload calls)))
    = (fun c => answer (fst c) (snd c)) <$> calls.

Definition hash_of (answer : string -> list json -> json) (n : Z) : json :=
  answer "chain_getBlockHash" [JInt n].

Definition block_of (answer : string -> list json -> json) (n : Z) : json :=
  answer "chain_getBlock" [hash_of answer n].

Definition events_of (answer : string -> list json -> json) (n : Z) : json :=
  answer "state_getStorage" [JStr events_key; hash_of answer n].

(** The numbers of [numbers] that have a hash on that chain. *)
Definition resolved (answer : string -> list json -> json)
    (numbers : list Z) : list Z :=
  filter (fun n => py_truthy (hash_of answer n) = true) numbers.

(** The block records and the event records of [numbers] on that chain:
    one block record for every number with a hash and block data, one event
    record for every number with a hash and event storage. *)
Definition chain_blocks (answer : string -> list json -> json)
    (numbers : list Z) : list BlockRecord.t :=
  omap (fun n => if py_truthy (block_of answer n)
                 then match make_block_record n (block_of answer n) with
                      | Ok r => Some r
                      | Raise _ => None
                      end
                 else None)
    (resolved answer numbers).

Definition chain_events (answer : string -> list json -> json)
    (numbers : list Z) : list EventRecord.t :=
  omap (fun n => if py_truthy (events_of answer n)
                 then Some (EventRecord.Make n (events_of answer n))
                 else None)
    (resolved answer numbers).

(** The cache holds nothing but hashes of that chain. *)
Definition cache_agrees (answer : string -> list json -> json)
    (cache : gmap Z json) : Prop :=
  forall n h, cache !! n = Some h -> h = hash_of answer n.

(** The reply item for call number [i] with result [v]. *)
Definition reply_item (i : nat) (v : json) : json :=
  JObj [("jsonrpc", JStr "2.0"); ("result", v); ("id", JInt (Z.of_nat i))].

(** On that chain the block data of every number of [numbers] that has a
    hash is, when present, a well-formed block. *)
Definition chain_well_formed (answer : string -> list json -> json)
    (numbers : list Z) : Prop :=
  forall n, n ∈ numbers ->
    py_truthy (hash_of answer n) = true ->
    py_truthy (block_of answer n) = true ->
    well_formed_block (block_of answer n) = true.

(** ** Runs on the small chain *)

(** The value of an outcome that is known to be [Ok]. *)
Definition returned {A} (dflt : A) (o : outcome A) : A :=
  match o with
  | Ok a => a
  | Raise _ => dflt
  end.

(** The client after a first [get_block_hash 7], and after a following
    [get_block_hashes_batch [7; 8]]. *)
Definition toy_after_lookup : world := snd (get_block_hash 7 toy_client).

Definition toy_after_batch : world :=
  snd (get_block_hashes_batch [7; 8] toy_after_lookup).

(** One attempt for the numbers 1, -2 and 0, step by step. *)
Definition toy_numbers : list Z := [1; -2; 0].

Definition toy_hash_map : list (Z * json) :=
  returned [] (fst (get_block_hashes_batch toy_numbers toy_client)).

Definition toy_w1 : world := snd (get_block_hashes_batch toy_numbers toy_client).

Definition toy_block_results : list json :=
  returned [] (fst (batch_call (block_calls (valid_blocks_of toy_hash_map)) toy_w1)).

Definition toy_w2 : world :=
  snd (batch_call (block_calls (valid_blocks_of toy_hash_map)) toy_w1).

Definition toy_event_results : list json :=
  returned [] (fst (batch_call (event_calls (valid_blocks_of toy_hash_map)) toy_w2)).

Definition toy_w3 : world :=
  snd (batch_call (event_calls (valid_blocks_of toy_hash_map)) toy_w2).

(** Two batch results as two workers could deliver them. *)
Definition sample_block (n : Z) : BlockRecord.t :=
  BlockRecord.Make n (JArr []) (HeaderSubset (JObj []) JNull JNull JNull JNull).

Definition sample_event (n : Z) : EventRecord.t := EventRecord.Make n (JStr "0x00").

Definition first_batch : list BlockRecord.t * list EventRecord.t :=
  ([sample_block 1; sample_block 2; sample_block 4], [sample_event 2]).

Definition second_batch : list BlockRecord.t * list EventRecord.t :=
  ([sample_block 5; sample_block 8], [sample_event 5; sample_event 8]).

(** A reply to a batch of three calls, with the items in reverse order. *)
Definition reversed_reply : json :=
  JArr [reply_item 2 (JStr "resultC"); reply_item 1 (JStr "resultB");
        reply_item 0 (JStr "resultA")].

(** An endpoint that answers nothing until the client has slept twice, and
    then serves the small chain. *)
Definition flaky_then_toy : list event -> string -> json -> json :=
  fun hist ep payload =>
    if (length (sleeps hist) <? 2)%nat then JNull
    else serve toy_chain hist ep payload.

(** Ten numbers of which eight have a block. *)
Definition ten_numbers : list Z := [3; -1; 4; 1; 5; 9; -2; 6; 8; 7].

(** The item counts of the batch requests in a trace. *)
Definition batch_sizes (t : list event) : list nat :=
  omap (fun e => match e with
                 | NetCall _ (JArr items) => Some (length items)
                 | _ => None
                 end) t.

(** * The rest of the script *)

(** ** [expand_test_blocks] *)

(** An entry of the manifest's [test_blocks]: a block number, or a list of
    integers, which stands for a range when it is [[start, count]].  Python
    integers and lists are unbounded here. *)
Inductive test_block : Type :=
| Single (block_number : Z)
| Listed (item : list Z).

(** [range(start, stop)]. *)
Definition py_range (start stop : Z) : list Z := seqZ start (stop - start).

(** The body of [for item in test_blocks].  [start, count = item] raises
    [ValueError] unless the list has exactly two elements. *)
Definition expand_item (result : list Z) (item : test_block)
  : outcome (list Z) :=
  match item with
  | Listed [start; count] => Ok (result ++ py_range start (start + count))
  | Listed _ => Raise ValueError
  | Single block_number => Ok (result ++ [block_number])
  end.

(** [sorted(set(result))].  The order in which a set is iterated is not
    fixed; the elements are taken by first occurrence here, and the sorted
    list does not depend on that choice (lemma [sorted_set_order]). *)
Definition sorted_set (result : list Z) : list Z :=
  py_sorted (fun n => n) (remove_dups result).

Definition expand_test_blocks (test_blocks : list test_block)
  : outcome (list Z) :=
  obind (ofold expand_item [] test_blocks) (fun result =>
    Ok (sorted_set result)).

(** The block numbers an entry list stands for: the single numbers, and the
    numbers [start .. start + count - 1] of every [[start, count]]. *)
Definition covered (test_blocks : list test_block) (n : Z) : Prop :=
  Single n ∈ test_blocks \/
  exists start count,
    Listed [start; count] ∈ test_blocks /\ start <= n < start + count.

(** The numbers one well-formed entry adds to [result]. *)
Definition numbers_of (item : test_block) : list Z :=
  match item with
  | Single n => [n]
  | Listed [start; count] => py_range start (start + count)
  | Listed _ => []
  end.

(** An entry that the loop gets past. *)
Definition well_formed_entry (item : test_block) : bool :=
  match item with
  | Single _ => true
  | Listed [_; _] => true
  | Listed _ => false
  end.

(** ** Notions for the requests of the fetcher *)

(** The requests in a trace, oldest first. *)
Definition net_calls (t : list event) : list (string * json) :=
  omap (fun e => match e with NetCall ep p => Some (ep, p) | Sleep _ => None end) t.

(** What the fetcher may do: send to [ep] a batch request of one to
    [bound] calls, or sleep for one or two seconds. *)
Definition fetcher_event (ep : string) (bound : nat) (e : event) : Prop :=
  match e with
  | NetCall ep' payload =>
      ep' = ep /\
      exists calls, payload = batch_payload calls /\
                    (0 < length calls <= bound)%nat
  | Sleep seconds => seconds = 1 \/ seconds = 2
  end.

(** From [w] to [w'] the client kept its endpoint, and did nothing but at
    most [budget] requests and some sleeps, all of them [fetcher_event]s. *)
Definition runs_within (bound budget : nat) (w w' : world) : Prop :=
  endpoint w' = endpoint w /\ remote w' = remote w /\
  exists added,
    trace w' = trace w ++ added /\
    (length (net_calls added) <= budget)%nat /\
    Forall (fetcher_event (endpoint w) bound) added.

(** ** Construction of the client *)

(** The request that [_find_working_endpoint] sends to every endpoint. *)
Definition probe_payload : json := request "system_chain" [] 1.

(** The condition [result and "result" in result]. *)
Definition has_result (result : json) : outcome bool :=
  if py_truthy result then py_contains "result" result else Ok false.

(** How the loop of [_find_working_endpoint] ends: it stores an index in
    [self.current_idx] and returns; it runs out of endpoints, where the
    function raises [Exception("No working endpoint found")]; or the lines
    of [_raw_call] before its [try] raise for an endpoint. *)
Inductive probe_result (E : Type) : Type :=
| Working (current_idx : nat)
| Exhausted
| ConnectRaised (e : E).
Arguments Working {E} current_idx.
Arguments Exhausted {E}.
Arguments ConnectRaised {E} e.

(** The loop of [_find_working_endpoint] over the endpoints from index [i]
    on.  The endpoints are the caller's strings, so the two lines of
    [_raw_call] before its [try] matter here: [urlparse(endpoint)] and
    [_get_connection(endpoint)], which builds [HTTPSConnection(netloc)]
    for a host it sees for the first time.  [opens ep] is what they do for
    [ep]: [None] when they give a connection, [Some e] when they raise [e]
    (an address that does not parse, a port that is not a number); which
    strings do is left to [opens].  Nothing is sent to an endpoint for
    which they raise. *)
Fixpoint probe_from {E} (opens : string -> option E) (i : nat)
    (endpoints : list string) : M (probe_result E) :=
  match endpoints with
  | [] => ret Exhausted
  | ep :: rest =>
      match opens ep with
      | Some e => ret (ConnectRaised e)
      | None =>
          result <- _raw_call ep probe_payload ;;
          working <- lift (has_result result) ;;
          if working then ret (Working i) else probe_from opens (S i) rest
      end
  end.

Definition _find_working_endpoint {E} (opens : string -> option E)
    (endpoints : list string) : M (probe_result E) :=
  probe_from opens 0 endpoints.

(** How [RPCClient(endpoints)] ends: with a client; with an exception of
    the lines before the [try] of [_raw_call]; with an exception of the
    test on a reply; or with [Exception("No working endpoint found")].
    [sent] is what was sent until then. *)
Inductive construction (E : Type) : Type :=
| Constructed (client : world)
| ConnectionRaised (e : E) (sent : list event)
| ProbeRaised (e : exn) (sent : list event)
| NoWorkingEndpoint (sent : list event).
Arguments Constructed {E} client.
Arguments ConnectionRaised {E} e sent.
Arguments ProbeRaised {E} e sent.
Arguments NoWorkingEndpoint {E} sent.

(** [RPCClient.__init__] against endpoints that behave as [behaviour].
    During the probes [self.current_idx] is 0; the pinned endpoint is not
    read before the loop has set it. *)
Definition __init__ {E} (opens : string -> option E) (endpoints : list string)
    (behaviour : list event -> string -> json -> json) : construction E :=
  let self := World (default "" (head endpoints)) ∅ [] behaviour in
  match _find_working_endpoint opens endpoints self with
  | (Ok (Working current_idx), self') =>
      Constructed
        {| endpoint := default "" (endpoints !! current_idx);
           block_hash_cache := block_hash_cache self';
           trace := trace self';
           remote := remote self' |}
  | (Ok Exhausted, self') => NoWorkingEndpoint (trace self')
  | (Ok (ConnectRaised e), self') => ConnectionRaised e (trace self')
  | (Raise e, self') => ProbeRaised e (trace self')
  end.

(** The probes of the endpoints [endpoints], in order. *)
Definition probes (endpoints : list string) : list event :=
  (fun ep => NetCall ep probe_payload) <$> endpoints.

(** Whether endpoint number [i] works when its turn comes: what
    [has_result] makes of its reply to the probe, after the probes of the
    endpoints before it. *)
Definition probe_outcome (behaviour : list event -> string -> json -> json)
    (endpoints : list string) (i : nat) (ep : string) : outcome bool :=
  has_result (behaviour (probes (take i endpoints)) ep probe_payload).

(** ** Single calls *)

Definition get_runtime_version (block_hash : json) : M json :=
  call "state_getRuntimeVersion" [block_hash].

Definition get_metadata (block_hash : json) : M json :=
  call "state_getMetadata" [block_hash].

(** ** The metadata of the runtime upgrades, in [main] *)

(** An entry of the manifest's [runtime_upgrades], read with
    [upgrade["spec_version"]] and [upgrade["block_number"]]. *)
Module Upgrade.
Record t : Type := Make {
  spec_version : json;
  block_number : Z
}.
End Upgrade.

(** The dictionary written to [metadata_spec<spec_version>.json]. *)
Module MetadataFile.
Record t : Type := Make {
  specName : json;
  specVersion : json;
  blockNumber : Z;
  blockHash : json;
  metadata : json
}.
End MetadataFile.

(** An entry of [runtime_upgrades_full]. *)
Module UpgradeEntry.
Record t : Type := Make {
  spec_version : json;
  block_number : Z;
  block_hash : json;
  metadata_version : Z
}.
End UpgradeEntry.

(** [v.get(key, dflt)]: only a dict has the method. *)
Definition py_get (v : json) (key : string) (dflt : json) : outcome json :=
  match v with
  | JObj members => Ok (dict_get members key dflt)
  | _ => Raise AttributeError
  end.

(** [for x in xs: acc = body(acc, x)] where the body runs in the client. *)
Fixpoint for_each {A B} (body : A -> B -> M A) (acc : A) (xs : list B) : M A :=
  match xs with
  | [] => ret acc
  | x :: xs' => acc' <- body acc x ;; for_each body acc' xs'
  end.

(** The body of [for upgrade in runtime_upgrades].  [acc] holds the
    metadata files written so far and [runtime_upgrades_full]. *)
Definition fetch_upgrade (version : Z)
    (acc : list MetadataFile.t * list UpgradeEntry.t) (upgrade : Upgrade.t)
  : M (list MetadataFile.t * list UpgradeEntry.t) :=
  let spec_version := Upgrade.spec_version upgrade in
  let block_number := Upgrade.block_number upgrade in
  block_hash <- get_block_hash block_number ;;
  if negb (py_truthy block_hash) then ret acc
  else
    metadata <- (if version =? 14 then get_metadata block_hash
                 else get_metadata_at_version block_hash version) ;;
    runtime <- get_runtime_version block_hash ;;
    if py_truthy metadata && py_truthy runtime then
      specName <- lift (py_get runtime "specName" (JStr "")) ;;
      ret (fst acc ++ [MetadataFile.Make specName spec_version block_number
                         block_hash metadata],
           snd acc ++ [UpgradeEntry.Make spec_version block_number
                         block_hash version])
    else ret acc.

(** The part of [main] from the loop over the runtime upgrades to
    [runtime_upgrades_v<version>.json]: the metadata files in the order
    they are written, and the entries of the upgrades file. *)
Definition main_fetch_metadata (version : Z) (runtime_upgrades : list Upgrade.t)
  : M (list MetadataFile.t * list UpgradeEntry.t) :=
  for_each (fetch_upgrade version) ([], []) runtime_upgrades.

(** The client [w] after the effects [added]. *)
Definition after (added : list event) (w : world) : world :=
  {| endpoint := endpoint w; block_hash_cache := block_hash_cache w;
     trace := trace w ++ added; remote := remote w |}.

(** ** Notions for the requests of single calls *)

(** A single request (id 1) to [ep] for one of [methods]. *)
Definition single_request (ep : string) (methods : list string) (e : event)
  : Prop :=
  exists method params,
    e = NetCall ep (request method params 1) /\ method ∈ methods.

(** From [w] to [w'] the client kept its endpoint and every entry of its
    cache, and did nothing but at most [budget] single requests for
    [methods]. *)
Definition sends_within (methods : list string) (budget : nat) (w w' : world)
  : Prop :=
  endpoint w' = endpoint w /\ remote w' = remote w /\ later_state w w' /\
  exists added,
    trace w' = trace w ++ added /\
    (length added <= budget)%nat /\
    Forall (single_request (endpoint w) methods) added.

(** The methods of the metadata loop besides the hash lookup. *)
Definition metadata_methods : list string :=
  ["state_getMetadata"; "state_call"; "state_getRuntimeVersion"].

(** The manifest entry an upgrade entry was made from, and the one a
    metadata file was written for. *)
Definition entry_source (e : UpgradeEntry.t) : json * Z :=
  (UpgradeEntry.spec_version e, UpgradeEntry.block_number e).

Definition upgrade_source (u : Upgrade.t) : json * Z :=
  (Upgrade.spec_version u, Upgrade.block_number u).

(** A metadata file and the upgrade entry recorded with it. *)
Definition file_of_entry (f : MetadataFile.t) (e : UpgradeEntry.t) : Prop :=
  MetadataFile.specVersion f = UpgradeEntry.spec_version e /\
  MetadataFile.blockNumber f = UpgradeEntry.block_number e /\
  MetadataFile.blockHash f = UpgradeEntry.block_hash e /\
  py_truthy (MetadataFile.metadata f) = true.

(** ** SCALE encodings, to state what the metadata functions are for *)

(** The two lower-case hexadecimal digits of a byte. *)
Definition hex_byte (b : Z) : string :=
  String (hex_char (Z.to_N (b / 16)))
    (String (hex_char (Z.to_N (b mod 16))) "").

(** [k] bytes of [v], least significant first, in hexadecimal. *)
Fixpoint le_hex (k : nat) (v : Z) : string :=
  match k with
  | O => ""
  | S k' => hex_byte (v mod 256) ++ le_hex k' (v / 256)
  end.

(** The number of bytes of a positive [n]. *)
Definition byte_length (n : Z) : nat := Z.to_nat (Z.log2 n / 8 + 1).

(** The SCALE compact encoding of a length, in hexadecimal: [4 n] in one
    byte below [2^6], [4 n + 1] in two bytes below [2^14], [4 n + 2] in
    four bytes below [2^30], and otherwise a byte whose upper six bits hold
    the number of bytes of [n] minus four and whose lower two bits are 11,
    followed by the bytes of [n]; always least significant byte first. *)
Definition compact_hex (n : Z) : string :=
  if n <? 2 ^ 6 then le_hex 1 (4 * n)
  else if n <? 2 ^ 14 then le_hex 2 (4 * n + 1)
  else if n <? 2 ^ 30 then le_hex 4 (4 * n + 2)
  else hex_byte (4 * (Z.of_nat (byte_length n) - 4) + 3)
       ++ le_hex (byte_length n) n.

(** ** Data for the further examples *)

(** Two manifests that name the block numbers 3, 4, 5 and 7. *)
Definition sample_manifest : list test_block :=
  [Single 7; Listed [3; 3]; Single 4; Single 7].

Definition sample_manifest' : list test_block :=
  [Listed [3; 2]; Single 5; Listed [7; 1]; Single 4].

(** A manifest of six blocks, which make two batches. *)
Definition six_blocks : list test_block := [Listed [1; 6]].

(** Two endpoints of which the first never answers and the second serves
    the small chain; endpoints that never answer; and an endpoint that
    answers every request with the number 200. *)
Definition two_endpoints : list string :=
  ["https://a.example"; "https://b.example"].

Definition second_answers : list event -> string -> json -> json :=
  fun hist ep payload =>
    if String.eqb ep "https://b.example" then serve toy_chain hist ep payload
    else JNull.

Definition never_answers : list event -> string -> json -> json :=
  fun _ _ _ => JNull.

Definition answers_200 : list event -> string -> json -> json :=
  fun _ _ _ => JInt 200.

(** The exceptions the lines before the [try] of [_raw_call] raise:
    [ValueError] from [urlparse], [http.client.InvalidURL] from the
    [HTTPSConnection] constructor. *)
Inductive connect_exn : Type :=
| UrlValueError
| InvalidURL.

(** Every endpoint of the examples gives a connection. *)
Definition all_open : string -> option connect_exn := fun _ => None.

(** An endpoint with user information, whose host part
    [user:pw@a.example] has a port that is not a number, before the
    endpoint that serves the small chain. *)
Definition userinfo_endpoints : list string :=
  ["https://user:pw@a.example/"; "https://b.example"].

Definition no_userinfo : string -> option connect_exn :=
  fun ep =>
    if String.eqb ep "https://user:pw@a.example/" then Some InvalidURL
    else None.

(** The small chain with runtime metadata: [state_getMetadata] and the
    versioned [state_call] give metadata for every block but block 8, and
    [state_getRuntimeVersion] names the runtime. *)
Definition upgrade_chain (method : string) (params : list json) : json :=
  if String.eqb method "state_getMetadata" then
    match params with
    | [JStr h] => if String.eqb h "0x08" then JNull else JStr "0x6d657461"
    | _ => JNull
    end
  else if String.eqb method "state_call" then
    match params with
    | [_; _; JStr h] => if String.eqb h "0x08" then JStr "0x00"
                        else JStr "0x0108abcd"
    | _ => JNull
    end
  else if String.eqb method "state_getRuntimeVersion" then
    JObj [("specName", JStr "kusama"); ("specVersion", JInt 9000)]
  else toy_chain method params.

Definition upgrade_client : world := fresh_client (serve upgrade_chain).

Definition sample_upgrades : list Upgrade.t :=
  [Upgrade.Make (JInt 9000) 7; Upgrade.Make (JInt 9010) 8;
   Upgrade.Make (JInt 9020) (-1); Upgrade.Make (JInt 9030) 9].

(** The small chain with a block 2 that has no header. *)
Definition headerless_chain (method : string) (params : list json) : json :=
  if String.eqb method "chain_getBlock" then
    match params with
    | [JStr h] =>
        if String.eqb h "0x02"
        then JObj [("block", JObj [("extrinsics", JArr [])])]
        else toy_block (JStr h)
    | _ => JNull
    end
  else toy_chain method params.

(** The metadata loop for version 15 on that chain. *)
Definition sample_metadata_result : list MetadataFile.t * list UpgradeEntry.t :=
  returned ([], []) (fst (main_fetch_metadata 15 sample_upgrades upgrade_client)).

Definition upgrade_client_after : world :=
  snd (main_fetch_metadata 15 sample_upgrades upgrade_client).

Definition headerless_client : world := fresh_client (serve headerless_chain).

(** The slots that the items of a reply fill, in reply order. *)
Definition filled_slots (n : nat) (items : list json) : list nat :=
  omap (fun item => fst <$> item_slot n item) items.

(** The reply to a batch of three calls with the items in call order. *)
Definition ordered_reply : json :=
  JArr [reply_item 0 (JStr "resultA"); reply_item 1 (JStr "resultB");
        reply_item 2 (JStr "resultC")].

Definition three_calls : list (string * list json) :=
  [("A", []); ("B", []); ("C", [])].

(** * Properties *)

(** ** Loops that may raise *)

(** A loop whose body never raises is a plain left fold. *)
Lemma ofold_total {A B} (body : A -> B -> outcome A) (f : A -> B -> A)
    (P : A -> Prop) acc xs :
  P acc ->
  (forall a x, P a -> x ∈ xs -> body a x = Ok (f a x) /\ P (f a x)) ->
  ofold body acc xs = Ok (foldl f acc xs) /\ P (foldl f acc xs).
Proof.
  revert acc. induction xs as [|x xs IH]; intros acc HP Hbody; simpl.
  - split; [reflexivity | assumption].
  - destruct (Hbody acc x HP) as [-> HP']; [left|]. simpl.
    apply IH; [assumption|]. intros a y Ha Hy. apply Hbody; [assumption|].
    now right.
Qed.

(** ** [batch_call]: the loop over the response *)

Lemma py_between_int (z : Z) (n : nat) :
  py_between 0 (JInt z) (Z.of_nat n) = Ok ((0 <=? z) && (z <? Z.of_nat n)).
Proof. unfold py_between. simpl. now destruct (0 <=? z). Qed.

Lemma list_setitem_int_inside (l : list json) z x :
  (0 <=? z) && (z <? Z.of_nat (length l)) = true ->
  list_setitem_int l z x = Ok (<[Z.to_nat z := x]> l).
Proof.
  intros H. unfold list_setitem_int.
  apply andb_true_iff in H as [H0 H1].
  assert ((z <? 0) = false) as -> by lia.
  now rewrite H0, H1.
Qed.

Lemma store_item_accepted n (results : list json) item :
  length results = n ->
  item_accepted n item = true ->
  store_item n results item = Ok (slot_step n results item).
Proof.
  intros Hlen Hacc. destruct item as [| | | | |?|members]; try reflexivity.
  unfold store_item, slot_step, item_slot, item_accepted in *.
  destruct (dict_lookup members "id") as [idx|]; [|reflexivity].
  destruct idx as [|b|z|f| | |]; try discriminate.
  - change (py_between 0 (JBool b) (Z.of_nat n))
      with (py_between 0 (JInt (Z.b2z b)) (Z.of_nat n)).
    rewrite py_between_int. simpl.
    destruct ((0 <=? Z.b2z b) && (Z.b2z b <? Z.of_nat n)) eqn:E; [|reflexivity].
    apply list_setitem_int_inside. now rewrite Hlen.
  - rewrite py_between_int. simpl.
    destruct ((0 <=? z) && (z <? Z.of_nat n)) eqn:E; [|reflexivity].
    apply list_setitem_int_inside. now rewrite Hlen.
  - destruct f as [|neg|q]; simpl in *.
    + reflexivity.
    + now destruct neg.
    + unfold py_between. simpl.
      destruct (Qle_bool (inject_Z 0) q); simpl in *; [|reflexivity].
      now destruct (Qle_bool (inject_Z (Z.of_nat n)) q).
Qed.

Lemma store_item_rejected n (results : list json) item :
  item_accepted n item = false ->
  store_item n results item = Raise TypeError.
Proof.
  intros Hacc. destruct item as [| | | | |?|members]; try discriminate.
  unfold store_item, item_accepted in *.
  destruct (dict_lookup members "id") as [idx|]; [|discriminate].
  destruct idx as [|b|z|f| | |]; try discriminate; try reflexivity.
  destruct f as [|neg|q]; simpl in *; try discriminate.
  unfold py_between. simpl.
  destruct (Qle_bool (inject_Z 0) q); simpl in *; [|discriminate].
  now destruct (Qle_bool (inject_Z (Z.of_nat n)) q).
Qed.

Lemma slot_step_length n results item :
  length (slot_step n results item) = length results.
Proof.
  unfold slot_step. destruct (item_slot n item) as [[i v]|]; [|reflexivity].
  apply length_insert.
Qed.

Lemma foldl_slot_step_length n items results :
  length (foldl (slot_step n) results items) = length results.
Proof.
  revert results. induction items as [|item items IH]; intros results; simpl.
  - reflexivity.
  - rewrite IH. apply slot_step_length.
Qed.

Lemma fill_slots_length n items : length (fill_slots n items) = n.
Proof.
  unfold fill_slots.
  rewrite foldl_slot_step_length. apply length_replicate.
Qed.

Lemma ofold_store_items n items results :
  length results = n ->
  forallb (item_accepted n) items = true ->
  ofold (store_item n) results items = Ok (foldl (slot_step n) results items).
Proof.
  intros Hlen Hall.
  apply (ofold_total (store_item n) (slot_step n) (fun a => length a = n));
    [assumption|].
  intros a x Ha Hx. split.
  - apply store_item_accepted; [assumption|].
    rewrite forallb_forall in Hall. apply Hall. now apply list_elem_of_In.
  - now rewrite slot_step_length.
Qed.

Lemma ofold_store_items_rejected n items results :
  length results = n ->
  forallb (item_accepted n) items = false ->
  ofold (store_item n) results items = Raise TypeError.
Proof.
  revert results. induction items as [|item items IH]; intros results Hlen; simpl.
  - discriminate.
  - destruct (item_accepted n item) eqn:E; simpl.
    + intros H. rewrite store_item_accepted by assumption. simpl.
      apply IH; [|assumption]. now rewrite slot_step_length.
    + intros _. now rewrite store_item_rejected.
Qed.

Lemma collect_results_accepted n result :
  response_accepted n result = true ->
  collect_results n result = Ok (fill_slots n (response_items result)).
Proof.
  intros Hacc. unfold collect_results, response_items, fill_slots.
  destruct (py_truthy result) eqn:Ht; simpl; [|reflexivity].
  destruct result as [|b|z|f|s|items|members]; simpl in *;
    try discriminate; try reflexivity;
    try (rewrite Ht in Hacc; discriminate).
  - apply ofold_store_items; [apply length_replicate|].
    apply forallb_forall. intros x Hx. apply in_map_iff in Hx as (c & <- & _).
    reflexivity.
  - apply ofold_store_items; [apply length_replicate | assumption].
Qed.

Lemma collect_results_rejected n result :
  response_accepted n result = false ->
  collect_results n result = Raise TypeError.
Proof.
  intros Hacc. unfold collect_results.
  destruct result as [|b|z|f|s|items|members]; simpl in *; try discriminate.
  - destruct b; [reflexivity | discriminate].
  - destruct (negb (z =? 0)); [reflexivity | discriminate].
  - destruct f as [| |q]; simpl in *; try reflexivity.
    destruct (negb (Qeq_bool q 0)); [reflexivity | discriminate].
  - destruct items as [|item items]; [discriminate|].
    cbn [negb py_truthy py_iter obind].
    apply ofold_store_items_rejected; [apply length_replicate | assumption].
Qed.

Lemma last_cons_default {A} (x y : A) (l : list A) :
  default x (last (y :: l)) = default y (last l).
Proof. rewrite last_cons. now destruct (last l). Qed.

Lemma foldl_slot_step_lookup n items (results : list json) i x :
  results !! i = Some x ->
  foldl (slot_step n) results items !! i =
  Some (default x (last (slot_values n items i))).
Proof.
  revert results x. induction items as [|item items IH]; intros results x Hx.
  - assumption.
  - cbn [foldl]. unfold slot_values. cbn [omap list_omap].
    fold (slot_values n items i). unfold slot_step at 2.
    destruct (item_slot n item) as [[j v]|] eqn:E.
    + destruct (Nat.eqb_spec j i) as [->|Hne].
      * cbn [option_bind mbind]. simpl. rewrite last_cons_default. apply IH.
        apply list_lookup_insert_eq. now apply lookup_lt_Some in Hx.
      * simpl. apply IH. now rewrite list_lookup_insert_ne.
    + simpl. now apply IH.
Qed.

(** Slot [i] of the result list holds the value of the last response item
    that fills it, and [None] when no item does. *)
Lemma fill_slots_lookup n items i :
  (i < n)%nat ->
  fill_slots n items !! i = Some (default JNull (last (slot_values n items i))).
Proof.
  intros Hi. apply foldl_slot_step_lookup. now apply lookup_replicate_2.
Qed.

Lemma slot_values_elem n items i v :
  v ∈ slot_values n items i <->
  exists item, item ∈ items /\ item_slot n item = Some (i, v).
Proof.
  unfold slot_values. rewrite list_elem_of_omap. split.
  - intros (item & Hin & H). exists item. split; [assumption|].
    destruct (item_slot n item) as [[j w]|]; [|discriminate].
    destruct (Nat.eqb_spec j i); [|discriminate]. now simplify_eq.
  - intros (item & Hin & H). exists item. split; [assumption|].
    rewrite H. now rewrite Nat.eqb_refl.
Qed.

(** The same, item by item: a slot holds the ["result"] of a response item
    whose id is that slot, or [None] when the response has no such item. *)
Lemma fill_slots_slot n items i v :
  fill_slots n items !! i = Some v ->
  (exists item, item ∈ items /\ item_slot n item = Some (i, v)) \/
  (v = JNull /\ forall item, item ∈ items -> forall x, item_slot n item <> Some (i, x)).
Proof.
  intros H. assert (i < n)%nat as Hi.
  { apply lookup_lt_Some in H. now rewrite fill_slots_length in H. }
  rewrite fill_slots_lookup in H by assumption. injection H as <-.
  destruct (last (slot_values n items i)) as [v|] eqn:E; simpl.
  - left. apply slot_values_elem. apply last_Some in E as [l' ->].
    apply elem_of_app. right. now left.
  - right. split; [reflexivity|]. intros item Hin x Hx.
    apply last_None in E.
    assert (x ∈ slot_values n items i) as Hmem by (apply slot_values_elem; eauto).
    rewrite E in Hmem. now apply not_elem_of_nil in Hmem.
Qed.

(** ** [batch_call] as a whole *)

Lemma batch_call_nonempty calls w :
  calls <> [] ->
  batch_call calls w =
  (collect_results (length calls)
     (remote w (trace w) (endpoint w) (batch_payload calls)),
   record_event (NetCall (endpoint w) (batch_payload calls)) w).
Proof. destruct calls; [congruence | reflexivity]. Qed.

Lemma batch_call_accepted calls w :
  calls <> [] ->
  response_accepted (length calls)
    (remote w (trace w) (endpoint w) (batch_payload calls)) = true ->
  batch_call calls w =
  (Ok (fill_slots (length calls)
         (response_items (remote w (trace w) (endpoint w) (batch_payload calls)))),
   record_event (NetCall (endpoint w) (batch_payload calls)) w).
Proof.
  intros Hne Hacc. rewrite batch_call_nonempty by assumption.
  now rewrite collect_results_accepted.
Qed.

(** Whatever the response, [batch_call] touches neither the cache nor the
    endpoint, and adds at most its one request to the trace. *)
Lemma batch_call_frame calls w :
  block_hash_cache (snd (batch_call calls w)) = block_hash_cache w /\
  endpoint (snd (batch_call calls w)) = endpoint w /\
  remote (snd (batch_call calls w)) = remote w.
Proof. destruct calls; repeat split; reflexivity. Qed.

(** A successful [batch_call] returns one result per call. *)
Lemma batch_call_length calls w results w' :
  batch_call calls w = (Ok results, w') -> length results = length calls.
Proof.
  destruct calls as [|c calls].
  - intros [= <- _]. reflexivity.
  - rewrite batch_call_nonempty by discriminate.
    set (r := remote _ _ _ _).
    destruct (response_accepted (length (c :: calls)) r) eqn:E.
    + rewrite collect_results_accepted by assumption. intros [= <- _].
      apply fill_slots_length.
    + rewrite collect_results_rejected by assumption. discriminate.
Qed.

(** C9: [batch_call] on an empty list of calls returns the empty list and
    leaves the world as it was: nothing is added to the trace, so no request
    is sent. *)
Theorem batch_call_empty (w : world) : batch_call [] w = (Ok [], w).
Proof. reflexivity. Qed.

(** C1, at the input where the code leaves the claim: a batch of one call,
    answered by a one-item array whose item carries a null id.  The claim
    has such an item ignored; the comparison [0 <= idx] raises [TypeError]
    instead. *)
Theorem batch_call_null_id_raises :
  fst (batch_call [("chain_getBlockHash", [JInt 1])]
         (fresh_client (fun _ _ _ => invalid_request_reply)))
  = Raise TypeError.
Proof. reflexivity. Qed.

(** ** The block-hash cache *)

Lemma call_run method params w :
  call method params w =
  (extract_result (remote w (trace w) (endpoint w) (request method params 1)),
   record_event (NetCall (endpoint w) (request method params 1)) w).
Proof. reflexivity. Qed.

Lemma get_block_hash_cached n h w :
  block_hash_cache w !! n = Some h -> get_block_hash n w = (Ok h, w).
Proof. intros H. unfold get_block_hash, bind, get_cache. now rewrite H. Qed.

Lemma get_block_hash_uncached n w :
  block_hash_cache w !! n = None ->
  get_block_hash n w =
  let w1 := record_event
              (NetCall (endpoint w) (request "chain_getBlockHash" [JInt n] 1)) w in
  match extract_result
          (remote w (trace w) (endpoint w)
             (request "chain_getBlockHash" [JInt n] 1)) with
  | Ok result =>
      (Ok result,
       if py_truthy result
       then with_cache (<[n := result]> (block_hash_cache w)) w1
       else w1)
  | Raise e => (Raise e, w1)
  end.
Proof.
  intros H. unfold get_block_hash, bind at 1, get_cache. rewrite H.
  unfold bind at 1. rewrite call_run. cbv zeta.
  destruct (extract_result _) as [result|e]; [|reflexivity].
  destruct (py_truthy result); reflexivity.
Qed.

(** A call of [get_block_hash] keeps every entry of the cache, and an entry
    it adds is truthy. *)
Lemma get_block_hash_cache m w n :
  block_hash_cache (snd (get_block_hash m w)) !! n = block_hash_cache w !! n \/
  (block_hash_cache w !! n = None /\
   exists h, block_hash_cache (snd (get_block_hash m w)) !! n = Some h /\
             py_truthy h = true).
Proof.
  destruct (block_hash_cache w !! m) as [h|] eqn:E.
  - rewrite (get_block_hash_cached _ _ _ E). now left.
  - rewrite get_block_hash_uncached by assumption. cbv zeta.
    destruct (extract_result _) as [result|e]; [|now left].
    destruct (py_truthy result) eqn:Ht; [|now left]. simpl.
    destruct (decide (m = n)) as [->|Hne].
    + right. split; [assumption|]. exists result.
      now rewrite lookup_insert_eq.
    + left. now rewrite lookup_insert_ne.
Qed.

Lemma merge_hashes_lookup cache pairs n :
  merge_hashes cache pairs !! n = cache !! n \/
  (n ∈ pairs.*1 /\
   exists h, merge_hashes cache pairs !! n = Some h /\ py_truthy h = true /\
             (n, h) ∈ pairs).
Proof.
  revert cache. induction pairs as [|[k v] pairs IH]; intros cache.
  - now left.
  - unfold merge_hashes. cbn [foldl fst snd]. fold (merge_hashes).
    set (cache' := if py_truthy v then <[k:=v]> cache else cache).
    change (foldl _ cache' pairs) with (merge_hashes cache' pairs).
    destruct (IH cache') as [Heq | (Hin & h & Hh & Ht & Hp)].
    + rewrite Heq. subst cache'. destruct (py_truthy v) eqn:Ht; [|now left].
      destruct (decide (k = n)) as [->|Hne].
      * right. split; [rewrite fmap_cons; left|].
        exists v. rewrite lookup_insert_eq. repeat split; [assumption | left].
      * left. now rewrite lookup_insert_ne.
    + right. split; [rewrite fmap_cons; now right|].
      exists h. repeat split; [assumption | assumption | now right].
Qed.

Lemma merge_hashes_keeps cache pairs n h :
  cache !! n = Some h -> n ∉ pairs.*1 -> merge_hashes cache pairs !! n = Some h.
Proof.
  intros Hc Hn. destruct (merge_hashes_lookup cache pairs n) as [->|[Hin _]];
    [assumption | contradiction].
Qed.

Lemma uncached_of_elem cache bns n :
  n ∈ uncached_of cache bns <-> cache !! n = None /\ n ∈ bns.
Proof.
  unfold uncached_of.
  apply (list_elem_of_filter (fun bn => cache !! bn = None)).
Qed.

Lemma zip_fst_subset {A B} (l : list A) (k : list B) x :
  x ∈ (zip l k).*1 -> x ∈ l.
Proof.
  intros H. apply list_elem_of_fmap in H as ([a b] & -> & H).
  now apply elem_of_zip_l in H.
Qed.

Lemma get_block_hashes_batch_run bns w :
  get_block_hashes_batch bns w =
  match uncached_of (block_hash_cache w) bns with
  | [] => (Ok (hash_map_of (block_hash_cache w) bns), w)
  | _ :: _ =>
      match batch_call (hash_calls (uncached_of (block_hash_cache w) bns)) w with
      | (Ok results, w1) =>
          let cache' :=
            merge_hashes (block_hash_cache w1)
              (zip (uncached_of (block_hash_cache w) bns) results) in
          (Ok (hash_map_of cache' bns), with_cache cache' w1)
      | (Raise e, w1) => (Raise e, w1)
      end
  end.
Proof.
  unfold get_block_hashes_batch, bind at 1, get_cache.
  destruct (uncached_of (block_hash_cache w) bns) as [|u us] eqn:E.
  - reflexivity.
  - unfold bind at 1. unfold bind at 1.
    destruct (batch_call (hash_calls (u :: us)) w) as [[results|e] w1];
      reflexivity.
Qed.

(** A call of [get_block_hashes_batch] keeps every entry of the cache, and an
    entry it adds is truthy and belongs to a requested number. *)
Lemma get_block_hashes_batch_cache bns w n :
  block_hash_cache (snd (get_block_hashes_batch bns w)) !! n
    = block_hash_cache w !! n \/
  (block_hash_cache w !! n = None /\ n ∈ bns /\
   exists h, block_hash_cache (snd (get_block_hashes_batch bns w)) !! n = Some h /\
             py_truthy h = true).
Proof.
  rewrite get_block_hashes_batch_run.
  destruct (uncached_of (block_hash_cache w) bns) as [|u us] eqn:E; [now left|].
  rewrite <- E.
  pose proof (batch_call_frame (hash_calls (uncached_of (block_hash_cache w) bns)) w)
    as (Hc & _ & _).
  destruct (batch_call _ w) as [[results|e] w1]; simpl in *; [|left; now rewrite Hc].
  rewrite Hc.
  destruct (merge_hashes_lookup (block_hash_cache w)
              (zip (uncached_of (block_hash_cache w) bns) results) n)
    as [Heq | (Hin & h & Hh & Ht & _)]; [now left|].
  right. apply zip_fst_subset, uncached_of_elem in Hin as [Hnone Hbn].
  repeat split; [assumption | assumption |]. now exists h.
Qed.

Lemma later_state_cache w w' n :
  later_state w w' ->
  block_hash_cache w' !! n = block_hash_cache w !! n \/
  (block_hash_cache w !! n = None /\
   exists h, block_hash_cache w' !! n = Some h /\ py_truthy h = true).
Proof.
  induction 1 as [|w' m Hlater IH|w' bns Hlater IH|w' w'' Hlater IH Heq].
  - now left.
  - destruct (get_block_hash_cache m w' n) as [-> | (Hnone & h & Hh & Ht)];
      [assumption|].
    destruct IH as [Heq | (Hn & h' & Hh' & _)]; [|congruence].
    right. split; [congruence|]. now exists h.
  - destruct (get_block_hashes_batch_cache bns w' n)
      as [-> | (Hnone & _ & h & Hh & Ht)]; [assumption|].
    destruct IH as [Heq | (Hn & h' & Hh' & _)]; [|congruence].
    right. split; [congruence|]. now exists h.
  - now rewrite Heq.
Qed.

Lemma later_state_keeps w w' n h :
  block_hash_cache w !! n = Some h -> later_state w w' ->
  block_hash_cache w' !! n = Some h.
Proof.
  intros Hc Hl. destruct (later_state_cache w w' n Hl) as [-> | [Hn _]];
    [assumption | congruence].
Qed.

Lemma get_block_hash_stores n w h w1 :
  get_block_hash n w = (Ok h, w1) -> py_truthy h = true ->
  block_hash_cache w1 !! n = Some h.
Proof.
  intros Hrun Ht. destruct (block_hash_cache w !! n) as [h0|] eqn:E.
  - rewrite (get_block_hash_cached _ _ _ E) in Hrun. now simplify_eq.
  - rewrite get_block_hash_uncached in Hrun by assumption. cbv zeta in Hrun.
    destruct (extract_result _) as [result|e]; [|discriminate].
    injection Hrun as -> <-. rewrite Ht. simpl. apply lookup_insert_eq.
Qed.

(** The store section of a batch call writes only numbers that were
    uncached when the call read the cache, whatever the cache has become
    since. *)
Lemma store_hashes_skips_cached wa wc bns results n :
  is_Some (block_hash_cache wa !! n) ->
  block_hash_cache
    (snd (store_hashes (uncached_of (block_hash_cache wa) bns) results wc)) !! n
  = block_hash_cache wc !! n.
Proof.
  intros [h Hh]. cbn.
  destruct (merge_hashes_lookup (block_hash_cache wc)
              (zip (uncached_of (block_hash_cache wa) bns) results) n)
    as [Heq | (Hin & _)]; [assumption|].
  apply zip_fst_subset, uncached_of_elem in Hin as [Hnone _]. congruence.
Qed.

Lemma store_hash_other m r wc n :
  n <> m ->
  block_hash_cache (snd (store_hash m r wc)) !! n = block_hash_cache wc !! n.
Proof. intros Hne. cbn. now rewrite lookup_insert_ne. Qed.

(** C3: a hash that is in the cache for block number [n] (because it was
    there already, or because a first [get_block_hash n] returned it) is
    still there, unchanged, after any further calls of [get_block_hash] and
    [get_block_hashes_batch]; and [get_block_hash n] then returns that same
    hash and leaves the world, trace included, as it was: no request is
    sent.  With several workers the same holds section by section: the
    store section of a batch call that read the cache when [n] was cached,
    and the store section of a [get_block_hash] for another number, leave
    the entry of [n] alone in whatever state they run. *)
Theorem cached_hash_never_changes (w0 w1 w2 : world) (n : Z) (h : json) :
  block_hash_cache w1 !! n = Some h \/
    (get_block_hash n w0 = (Ok h, w1) /\ py_truthy h = true) ->
  later_state w1 w2 ->
  block_hash_cache w2 !! n = Some h /\
  get_block_hash n w2 = (Ok h, w2) /\
  (forall wc bns results,
     block_hash_cache wc !! n = Some h ->
     block_hash_cache
       (snd (store_hashes (uncached_of (block_hash_cache w2) bns) results wc)) !! n
     = Some h) /\
  (forall wc m r,
     m <> n -> block_hash_cache wc !! n = Some h ->
     block_hash_cache (snd (store_hash m r wc)) !! n = Some h).
Proof.
  intros Hstored Hlater.
  assert (block_hash_cache w1 !! n = Some h) as Hc.
  { destruct Hstored as [Hc | [Hrun Ht]]; [assumption|].
    eapply get_block_hash_stores; eassumption. }
  pose proof (later_state_keeps _ _ _ _ Hc Hlater) as Hc2.
  split; [assumption|]. split; [now apply get_block_hash_cached|]. split.
  - intros wc bns results Hwc. rewrite store_hashes_skips_cached; [assumption|].
    rewrite Hc2. eauto.
  - intros wc m r Hne Hwc. rewrite store_hash_other; [assumption | congruence].
Qed.

(** *** The returned mapping *)

Lemma dict_setitem_known (g : Z -> json) keys k :
  dict_setitem (map (fun x => (x, g x)) keys) k (g k)
  = map (fun x => (x, g x)) (add_key keys k).
Proof.
  unfold add_key. induction keys as [|x keys IH]; simpl.
  - reflexivity.
  - destruct (Z.eqb_spec x k) as [->|Hne].
    + rewrite decide_True by left. reflexivity.
    + rewrite IH. destruct (decide (k ∈ keys)) as [Hin|Hnin].
      * rewrite decide_True by now right. reflexivity.
      * rewrite decide_False; [reflexivity|].
        rewrite elem_of_cons. intros [->|?]; contradiction.
Qed.

Lemma foldl_dict_setitem (g : Z -> json) bns keys :
  foldl (fun d bn => dict_setitem d bn (g bn)) (map (fun x => (x, g x)) keys) bns
  = map (fun x => (x, g x)) (foldl add_key keys bns).
Proof.
  revert keys. induction bns as [|bn bns IH]; intros keys; simpl.
  - reflexivity.
  - rewrite dict_setitem_known. apply IH.
Qed.

Lemma hash_map_of_keys cache bns :
  hash_map_of cache bns
  = map (fun bn => (bn, default JNull (cache !! bn))) (keys_in_order bns).
Proof.
  unfold hash_map_of, keys_in_order.
  apply (foldl_dict_setitem (fun bn => default JNull (cache !! bn)) bns []).
Qed.

Lemma add_key_elem keys k x : x ∈ add_key keys k <-> x ∈ keys \/ x = k.
Proof.
  unfold add_key. destruct (decide (k ∈ keys)) as [Hin|Hnin].
  - split; [now left | intros [?| ->]; assumption].
  - rewrite elem_of_app, list_elem_of_singleton. reflexivity.
Qed.

Lemma add_key_NoDup keys k : NoDup keys -> NoDup (add_key keys k).
Proof.
  intros Hnd. unfold add_key. destruct (decide (k ∈ keys)); [assumption|].
  apply NoDup_app. repeat split; [assumption| |apply NoDup_singleton].
  intros x Hx Hk. apply list_elem_of_singleton in Hk as ->. contradiction.
Qed.

Lemma foldl_add_key_elem bns keys x :
  x ∈ foldl add_key keys bns <-> x ∈ keys \/ x ∈ bns.
Proof.
  revert keys. induction bns as [|bn bns IH]; intros keys; simpl.
  - rewrite elem_of_nil. tauto.
  - rewrite IH, add_key_elem, elem_of_cons. tauto.
Qed.

Lemma foldl_add_key_NoDup bns keys :
  NoDup keys -> NoDup (foldl add_key keys bns).
Proof.
  revert keys. induction bns as [|bn bns IH]; intros keys Hnd; simpl.
  - assumption.
  - apply IH. now apply add_key_NoDup.
Qed.

Lemma foldl_add_key_fresh bns keys :
  NoDup (keys ++ bns) -> foldl add_key keys bns = keys ++ bns.
Proof.
  revert keys. induction bns as [|bn bns IH]; intros keys Hnd; simpl.
  - now rewrite app_nil_r.
  - assert (bn ∉ keys) as Hnin.
    { apply NoDup_app in Hnd as (_ & Hdisj & _). intros Hin.
      apply (Hdisj bn Hin). left. }
    unfold add_key at 2. rewrite decide_False by assumption.
    rewrite IH; rewrite <- app_assoc; [reflexivity | assumption].
Qed.

Lemma keys_in_order_elem bns x : x ∈ keys_in_order bns <-> x ∈ bns.
Proof.
  unfold keys_in_order. rewrite foldl_add_key_elem, elem_of_nil. tauto.
Qed.

Lemma keys_in_order_NoDup bns : NoDup (keys_in_order bns).
Proof. apply foldl_add_key_NoDup, NoDup_nil_2. Qed.

Lemma keys_in_order_id bns : NoDup bns -> keys_in_order bns = bns.
Proof. intros H. now apply (foldl_add_key_fresh bns []). Qed.

Lemma hash_map_of_fst cache bns : (hash_map_of cache bns).*1 = keys_in_order bns.
Proof.
  rewrite hash_map_of_keys. induction (keys_in_order bns) as [|k ks IH];
    [reflexivity|]. simpl. f_equal. apply IH.
Qed.

Lemma hash_map_of_elem cache bns n v :
  (n, v) ∈ hash_map_of cache bns <-> n ∈ bns /\ v = default JNull (cache !! n).
Proof.
  rewrite hash_map_of_keys, <- keys_in_order_elem.
  change (map ?f ?l) with (f <$> l). rewrite list_elem_of_fmap. split.
  - intros (k & [= -> ->] & Hk). now split.
  - intros [Hn ->]. now exists n.
Qed.

(** *** What [get_block_hashes_batch] sends and stores *)

Lemma merge_hashes_stores cache pairs n r :
  (n, r) ∈ pairs -> py_truthy r = true ->
  exists h, merge_hashes cache pairs !! n = Some h /\ py_truthy h = true.
Proof.
  revert cache. induction pairs as [|[k v] pairs IH]; intros cache Hin Ht.
  - now apply elem_of_nil in Hin.
  - apply elem_of_cons in Hin as [[= <- <-]|Hin].
    + unfold merge_hashes. cbn [foldl fst snd]. rewrite Ht.
      change (foldl _ ?c pairs) with (merge_hashes c pairs).
      destruct (merge_hashes_lookup (<[n:=r]> cache) pairs n)
        as [Heq | (_ & h & Hh & Hth & _)].
      * exists r. rewrite Heq. now rewrite lookup_insert_eq.
      * now exists h.
    + unfold merge_hashes. cbn [foldl]. now apply IH.
Qed.

Lemma merge_hashes_stores_NoDup cache pairs n r :
  NoDup pairs.*1 -> (n, r) ∈ pairs -> py_truthy r = true ->
  merge_hashes cache pairs !! n = Some r.
Proof.
  revert cache. induction pairs as [|[k v] pairs IH]; intros cache Hnd Hin Ht.
  - now apply elem_of_nil in Hin.
  - rewrite fmap_cons in Hnd. apply NoDup_cons in Hnd as [Hk Hnd].
    apply elem_of_cons in Hin as [[= <- <-]|Hin].
    + unfold merge_hashes. cbn [foldl fst snd]. rewrite Ht.
      apply merge_hashes_keeps; [apply lookup_insert_eq | assumption].
    + unfold merge_hashes. cbn [foldl]. now apply IH.
Qed.

Lemma elem_of_zip_lookup {A B} (l : list A) (k : list B) i a b :
  l !! i = Some a -> k !! i = Some b -> (a, b) ∈ zip l k.
Proof.
  intros Ha Hb. apply list_elem_of_lookup. exists i.
  apply lookup_zip_with_Some. eauto.
Qed.

Lemma zip_elem_lookup {A B} (l : list A) (k : list B) a b :
  (a, b) ∈ zip l k -> exists i, l !! i = Some a /\ k !! i = Some b.
Proof.
  intros H. apply list_elem_of_lookup in H as [i H].
  apply lookup_zip_with_Some in H as (x & y & [= -> ->] & Hx & Hy). eauto.
Qed.

(** The trace after [get_block_hashes_batch], whatever the reply: nothing
    is sent when every number is cached, one batch request otherwise. *)
Lemma get_block_hashes_batch_trace bns w :
  trace (snd (get_block_hashes_batch bns w)) =
  trace w ++
  match uncached_of (block_hash_cache w) bns with
  | [] => []
  | _ :: _ =>
      [NetCall (endpoint w)
         (batch_payload (hash_calls (uncached_of (block_hash_cache w) bns)))]
  end.
Proof.
  rewrite get_block_hashes_batch_run.
  destruct (uncached_of (block_hash_cache w) bns) as [|u us] eqn:E.
  - simpl. now rewrite app_nil_r.
  - rewrite batch_call_nonempty by discriminate.
    destruct (collect_results _ _); reflexivity.
Qed.

Lemma zip_fst_NoDup {A B} (l : list A) (k : list B) :
  NoDup l -> NoDup (zip l k).*1.
Proof.
  revert k. induction l as [|a l IH]; intros k Hnd; [constructor|].
  destruct k as [|b k]; [constructor|]. simpl.
  apply NoDup_cons in Hnd as [Ha Hnd]. apply NoDup_cons. split; [|now apply IH].
  intros Hin. now apply zip_fst_subset in Hin.
Qed.

Lemma get_block_hashes_batch_accepted bns w :
  uncached_of (block_hash_cache w) bns = [] \/
  response_accepted (length (uncached_of (block_hash_cache w) bns))
    (remote w (trace w) (endpoint w)
       (batch_payload (hash_calls (uncached_of (block_hash_cache w) bns)))) = true ->
  let uncached := uncached_of (block_hash_cache w) bns in
  let results :=
    fill_slots (length uncached)
      (response_items
         (remote w (trace w) (endpoint w) (batch_payload (hash_calls uncached)))) in
  let cache' := merge_hashes (block_hash_cache w) (zip uncached results) in
  get_block_hashes_batch bns w =
  (Ok (hash_map_of cache' bns),
   with_cache cache'
     (match uncached with
      | [] => w
      | _ :: _ =>
          record_event
            (NetCall (endpoint w) (batch_payload (hash_calls uncached))) w
      end)).
Proof.
  intros H. cbv zeta. rewrite get_block_hashes_batch_run.
  destruct (uncached_of (block_hash_cache w) bns) as [|u us] eqn:E.
  - simpl. now destruct w.
  - destruct H as [H|H]; [discriminate|].
    assert (hash_calls (u :: us) <> []) as Hne by discriminate.
    assert (length (hash_calls (u :: us)) = length (u :: us)) as Hlen
      by apply length_map.
    rewrite batch_call_accepted; rewrite ?Hlen; try assumption.
    reflexivity.
Qed.

(** [get_block_hashes_batch] on every reply.  It sends nothing when every
    requested number is cached and otherwise exactly one batch request,
    whose calls are
    [chain_getBlockHash] for the requested numbers that are not in the cache
    (in request order).  It keeps what the cache held.  When nothing is
    uncached, or the reply is one [batch_call] gets through, it returns a
    mapping whose keys are exactly the requested numbers, without
    repetition, each mapped to its hash in the cache afterwards or to
    [None]; every entry added to the cache is a truthy result for that
    number, and every truthy result puts its number into the cache (with
    that very result when the number was requested once).  On the other
    replies the [TypeError] of [batch_call] passes through and the cache is
    left as it was. *)
Theorem get_block_hashes_batch_spec (bns : list Z) (w : world) :
  let uncached := uncached_of (block_hash_cache w) bns in
  let payload := batch_payload (hash_calls uncached) in
  let reply := remote w (trace w) (endpoint w) payload in
  let results := fill_slots (length uncached) (response_items reply) in
  let w' := snd (get_block_hashes_batch bns w) in
  (forall n, n ∈ uncached <-> n ∈ bns /\ block_hash_cache w !! n = None) /\
  trace w' =
    trace w ++ (if decide (uncached = []) then [] else [NetCall (endpoint w) payload]) /\
  (forall n h, block_hash_cache w !! n = Some h -> block_hash_cache w' !! n = Some h) /\
  (uncached = [] \/ response_accepted (length uncached) reply = true ->
   (exists hash_map,
      fst (get_block_hashes_batch bns w) = Ok hash_map /\
      NoDup hash_map.*1 /\
      (forall n, n ∈ hash_map.*1 <-> n ∈ bns) /\
      (forall n v, (n, v) ∈ hash_map ->
         v = default JNull (block_hash_cache w' !! n))) /\
   (forall n h, block_hash_cache w' !! n = Some h ->
      block_hash_cache w !! n = Some h \/
      (py_truthy h = true /\
       exists i, uncached !! i = Some n /\ results !! i = Some h)) /\
   (forall i n r, uncached !! i = Some n -> results !! i = Some r ->
      py_truthy r = true ->
      (exists h, block_hash_cache w' !! n = Some h /\ py_truthy h = true) /\
      (NoDup bns -> block_hash_cache w' !! n = Some r))) /\
  (uncached <> [] -> response_accepted (length uncached) reply = false ->
   fst (get_block_hashes_batch bns w) = Raise TypeError /\
   block_hash_cache w' = block_hash_cache w).
Proof.
  intros uncached payload reply results w'.
  split; [|split; [|split; [|split]]].
  - intros n. subst uncached. rewrite uncached_of_elem. tauto.
  - subst w'. rewrite get_block_hashes_batch_trace. fold uncached payload.
    destruct uncached; [reflexivity|]. now rewrite decide_False.
  - intros n h Hn. apply later_state_keeps with (w := w); [assumption|].
    apply later_get_block_hashes_batch, later_now.
  - intros Hacc.
    pose proof (get_block_hashes_batch_accepted bns w Hacc) as Hrun.
    cbv zeta in Hrun. fold uncached payload reply results in Hrun.
    assert (block_hash_cache w' =
            merge_hashes (block_hash_cache w) (zip uncached results)) as Hcache.
    { subst w'. now rewrite Hrun. }
    split; [|split].
    + exists (hash_map_of (merge_hashes (block_hash_cache w) (zip uncached results)) bns).
      split; [now rewrite Hrun|]. rewrite hash_map_of_fst.
      split; [apply keys_in_order_NoDup|]. split; [apply keys_in_order_elem|].
      intros n v Hnv. apply hash_map_of_elem in Hnv as [_ ->]. now rewrite Hcache.
    + intros n h Hh. rewrite Hcache in Hh.
      destruct (merge_hashes_lookup (block_hash_cache w) (zip uncached results) n)
        as [Heq | (_ & h' & Hh' & Ht & Hin)].
      * left. congruence.
      * right. assert (h' = h) as -> by congruence. split; [assumption|].
        now apply zip_elem_lookup.
    + intros i n r Hi Hr Ht. rewrite Hcache.
      pose proof (elem_of_zip_lookup _ _ _ _ _ Hi Hr) as Hin. split.
      * eapply merge_hashes_stores; eassumption.
      * intros Hnd. apply merge_hashes_stores_NoDup; [|assumption|assumption].
        apply zip_fst_NoDup. subst uncached. unfold uncached_of.
        now apply NoDup_filter.
  - intros Hne Hrej. subst w'. rewrite get_block_hashes_batch_run.
    fold uncached. destruct uncached as [|u us] eqn:Eu; [congruence|].
    rewrite batch_call_nonempty by discriminate.
    assert (length (hash_calls (u :: us)) = length (u :: us)) as Hlen
      by apply length_map.
    rewrite Hlen. fold payload. fold reply.
    now rewrite (collect_results_rejected _ _ Hrej).
Qed.

(** C5, at the input where the code leaves the claim: one requested
    number, nothing cached, and the batch answered by a one-item array
    whose item carries a null id (the reply of a JSON-RPC server to a
    request it could not read).  The claim has the function return a
    mapping from the requested number to its hash or to [None]; the
    [TypeError] that [batch_call] raises at [0 <= idx] passes through
    [get_block_hashes_batch], which has no handler, after the one batch
    request has been sent and with the cache still empty. *)
Theorem get_block_hashes_batch_null_id_raises :
  let run := get_block_hashes_batch [1]
               (fresh_client (fun _ _ _ => invalid_request_reply)) in
  fst run = Raise TypeError /\
  trace (snd run)
    = [NetCall "https://rpc.example"
         (batch_payload [("chain_getBlockHash", [JInt 1])])] /\
  block_hash_cache (snd run) = ∅.
Proof. cbv zeta. repeat split. Qed.

Lemma get_block_hashes_batch_returns bns w hash_map w1 :
  get_block_hashes_batch bns w = (Ok hash_map, w1) ->
  hash_map = hash_map_of (block_hash_cache w1) bns.
Proof.
  rewrite get_block_hashes_batch_run.
  destruct (uncached_of (block_hash_cache w) bns) as [|u us].
  - now intros [= <- <-].
  - destruct (batch_call _ w) as [[results|e] w']; [|discriminate].
    now intros [= <- <-].
Qed.

Lemma batch_payload_lookup calls i method params :
  calls !! i = Some (method, params) ->
  exists items, batch_payload calls = JArr items /\
                items !! i = Some (request method params (Z.of_nat i)).
Proof.
  intros H. eexists. split; [reflexivity|].
  rewrite list_lookup_imap, H. reflexivity.
Qed.

(** C10: only truthy results enter the cache, and a number whose lookup
    came back falsy stays out of it.  For a number [n] that is not cached:
    [get_block_hash n] stores its result exactly when the result is truthy,
    and a [get_block_hashes_batch] that returns a falsy value for [n]
    leaves [n] uncached; [get_block_hash n] sends a
    [chain_getBlockHash] request for [n]; every [get_block_hashes_batch]
    whose numbers include [n] sends a batch with a [chain_getBlockHash]
    request for [n]; and whatever calls follow, an entry of the cache that
    was not there before is truthy. *)
Theorem absent_hash_is_not_cached (w : world) (n : Z) :
  block_hash_cache w !! n = None ->
  (forall r w1, get_block_hash n w = (Ok r, w1) ->
     block_hash_cache w1 !! n = if py_truthy r then Some r else None) /\
  (forall bns hash_map w1 v,
     get_block_hashes_batch bns w = (Ok hash_map, w1) ->
     (n, v) ∈ hash_map -> py_truthy v = false ->
     block_hash_cache w1 !! n = None) /\
  trace (snd (get_block_hash n w)) =
    trace w ++ [NetCall (endpoint w) (request "chain_getBlockHash" [JInt n] 1)] /\
  (forall bns, n ∈ bns ->
     exists uncached items i,
       trace (snd (get_block_hashes_batch bns w)) =
         trace w ++ [NetCall (endpoint w) (batch_payload (hash_calls uncached))] /\
       batch_payload (hash_calls uncached) = JArr items /\
       items !! i = Some (request "chain_getBlockHash" [JInt n] (Z.of_nat i))) /\
  (forall w' m h, later_state w w' -> block_hash_cache w' !! m = Some h ->
     block_hash_cache w !! m = Some h \/ py_truthy h = true).
Proof.
  intros Hnone. split; [|split; [|split; [|split]]].
  - intros r w1 Hrun.
    rewrite get_block_hash_uncached in Hrun by assumption. cbv zeta in Hrun.
    destruct (extract_result _) as [result|e]; [|discriminate].
    injection Hrun as -> <-. destruct (py_truthy r); [|assumption].
    apply lookup_insert_eq.
  - intros bns hash_map w1 v Hrun Hin Hf.
    pose proof (get_block_hashes_batch_returns _ _ _ _ Hrun) as ->.
    apply hash_map_of_elem in Hin as [Hbn ->].
    destruct (get_block_hashes_batch_cache bns w n) as [Heq | (_ & _ & h & Hh & Ht)];
      rewrite Hrun in *; simpl in *.
    + congruence.
    + rewrite Hh in Hf. simpl in Hf. congruence.
  - rewrite get_block_hash_uncached by assumption. cbv zeta.
    destruct (extract_result _) as [result|e]; [|reflexivity].
    now destruct (py_truthy result).
  - intros bns Hbn.
    assert (n ∈ uncached_of (block_hash_cache w) bns) as Hin
      by now apply uncached_of_elem.
    apply list_elem_of_lookup in Hin as [i Hi].
    destruct (batch_payload_lookup (hash_calls (uncached_of (block_hash_cache w) bns))
                i "chain_getBlockHash" [JInt n]) as (items & Hp & Hitem).
    { unfold hash_calls. change (map ?f ?l) with (f <$> l).
      now rewrite list_lookup_fmap, Hi. }
    exists (uncached_of (block_hash_cache w) bns), items, i.
    split; [|split; assumption].
    rewrite get_block_hashes_batch_trace.
    destruct (uncached_of (block_hash_cache w) bns); [|reflexivity].
    discriminate.
  - intros w' m h Hlater Hh.
    destruct (later_state_cache w w' m Hlater) as [Heq | (_ & h' & Hh' & Ht)].
    + left. congruence.
    + right. congruence.
Qed.

(** ** Metadata at a version *)

Lemma hex_value_facts c d :
  hex_value c = Some d ->
  int_space c = false /\ Ascii.eqb c "+" = false /\ Ascii.eqb c "-" = false /\
  Ascii.eqb c "_" = false /\ Ascii.eqb c "x" = false /\ Ascii.eqb c "X" = false /\
  0 <= d < 16.
Proof.
  destruct c as [[] [] [] [] [] [] [] []]; cbv; intros H; try discriminate;
    injection H as <-; repeat split; congruence.
Qed.

Lemma py_int16_hex_byte c1 c2 d1 d2 :
  hex_value c1 = Some d1 -> hex_value c2 = Some d2 ->
  py_int16 (String c1 (String c2 EmptyString)) = Ok (16 * d1 + d2).
Proof.
  intros H1 H2.
  destruct (hex_value_facts _ _ H1) as (Hs1 & Hp1 & Hm1 & Hu1 & _ & _ & _).
  destruct (hex_value_facts _ _ H2) as (_ & _ & _ & Hu2 & Hx2 & HX2 & _).
  unfold py_int16. cbn [skip_spaces]. rewrite Hs1.
  cbn [strip_sign]. rewrite Hp1, Hm1. cbn [fst snd strip_hex_prefix].
  rewrite Hx2, HX2, andb_false_r. cbn [starts_with_underscore]. rewrite Hu1.
  cbn [scan_digits]. rewrite Hu1, H1, Hu2, H2. cbn [skip_spaces].
  f_equal. lia.
Qed.

Lemma data_start_of_nonneg t : 0 <= t -> 0 <= data_start_of t.
Proof.
  intros Ht. unfold data_start_of.
  repeat match goal with |- context [if ?b then _ else _] => destruct b end;
    try lia.
  pose proof (proj2 (Z.shiftr_nonneg t 2) Ht). lia.
Qed.

Lemma py_slice_from_nonneg start s :
  0 <= start -> py_slice_from start s = str_drop (Z.to_nat start) s.
Proof.
  intros H. unfold py_slice_from. now assert ((start <? 0) = false) as -> by lia.
Qed.

Lemma str_drop_all n s : (String.length s <= n)%nat -> str_drop n s = "".
Proof.
  revert s. induction n as [|n IH]; intros [|c s] H; simpl in *;
    try reflexivity; try lia.
  apply IH. lia.
Qed.

Lemma metadata_of_result_str s :
  metadata_of_result (JStr s) =
  Ok (if (String.length s <? 4)%nat then JNull
      else if String.eqb s "0x00" then JNull
      else if is_prefix "0x01" s then _decode_opaque_metadata (str_drop 4 s)
      else JNull).
Proof.
  unfold metadata_of_result. cbn [py_truthy py_len obind].
  destruct s as [|a s]; [reflexivity|].
  change (String.eqb (String a s) "") with false. cbn [negb].
  set (str := String a s).
  destruct (String.eqb str "0x00"); [now destruct (_ <? 4)%nat|].
  destruct (_ <? 4)%nat; [reflexivity|]. now destruct (is_prefix _ _).
Qed.

Lemma is_prefix_split p s :
  is_prefix p s = true -> s = (p ++ str_drop (String.length p) s)%string.
Proof.
  revert s. induction p as [|a p IH]; intros s H; [reflexivity|].
  destruct s as [|b s]; [discriminate|]. cbn [is_prefix] in H.
  apply andb_true_iff in H as [Hab Hp]. apply Ascii.eqb_eq in Hab as ->.
  rewrite (IH s Hp) at 1. reflexivity.
Qed.

Lemma decode_opaque_metadata_tag hex_data :
  _decode_opaque_metadata hex_data =
  if String.eqb hex_data "" then JNull
  else match py_int16 (str_take 2 hex_data) with
       | Ok t => JStr ("0x" ++ py_slice_from (data_start_of t) hex_data)
       | Raise _ => JNull
       end.
Proof. reflexivity. Qed.

(** C4, as amended: what [get_metadata_at_version] returns is decided by
    the result of its [state_call].  The result [None], the string ["0x00"]
    and every string shorter than 4 characters give [None]; so does every
    string that does not start with ["0x01"].  A string that starts with
    ["0x01"] is decoded without that prefix, the tag [t] being what
    [int(_, 16)] makes of the first two characters: a tag byte written as
    two hex digits gives ["0x"] followed by the data from offset 2, 4 or 8
    for low bits 00, 01 or 10 and from offset [2 + ((t >> 2) + 4) * 2]
    otherwise, which is the empty payload ["0x"] when the string ends
    before that offset.  ["0x0100"] gives the empty payload ["0x"].  No
    string makes the function raise, and a string gives [None] exactly when
    it is shorter than 4 characters, does not start with ["0x01"], has
    nothing after ["0x01"], or has a tag that [int(_, 16)] rejects. *)
Theorem metadata_at_version_spec
    (block_hash : json) (version : Z) (w : world) (s : string) :
  let params := [JStr "Metadata_metadata_at_version";
                 JStr (version_param version); block_hash] in
  get_metadata_at_version block_hash version w =
    (obind (fst (call "state_call" params w)) metadata_of_result,
     snd (call "state_call" params w)) /\
  metadata_of_result JNull = Ok JNull /\
  metadata_of_result (JStr "0x00") = Ok JNull /\
  ((String.length s < 4)%nat -> metadata_of_result (JStr s) = Ok JNull) /\
  (is_prefix "0x01" s = false -> metadata_of_result (JStr s) = Ok JNull) /\
  metadata_of_result (JStr ("0x01" ++ s)) = Ok (_decode_opaque_metadata s) /\
  _decode_opaque_metadata "" = JNull /\
  (forall t, s <> "" -> py_int16 (str_take 2 s) = Ok t ->
     _decode_opaque_metadata s
       = JStr ("0x" ++ py_slice_from
                         (if Z.land t 3 =? 0 then 2
                          else if Z.land t 3 =? 1 then 4
                          else if Z.land t 3 =? 2 then 8
                          else 2 + (Z.shiftr t 2 + 4) * 2) s)) /\
  (forall c1 c2 d1 d2 rest,
     s = String c1 (String c2 rest) ->
     hex_value c1 = Some d1 -> hex_value c2 = Some d2 ->
     let t := 16 * d1 + d2 in
     let offset :=
       if Z.land t 3 =? 0 then 2
       else if Z.land t 3 =? 1 then 4
       else if Z.land t 3 =? 2 then 8
       else 2 + (Z.shiftr t 2 + 4) * 2 in
     py_int16 (str_take 2 s) = Ok t /\
     _decode_opaque_metadata s = JStr ("0x" ++ str_drop (Z.to_nat offset) s) /\
     (String.length s <= Z.to_nat offset ->
      _decode_opaque_metadata s = JStr "0x")%nat) /\
  (exists v, metadata_of_result (JStr s) = Ok v) /\
  (metadata_of_result (JStr s) = Ok JNull <->
   (String.length s < 4)%nat \/ is_prefix "0x01" s = false \/ s = "0x01" \/
   exists e, py_int16 (str_take 2 (str_drop 4 s)) = Raise e) /\
  metadata_of_result (JStr "0x0100") = Ok (JStr "0x").
Proof.
  intros params.
  split; [|split; [|split; [|split; [|split; [|split; [|split; [|split;
    [|split; [|split; [|split]]]]]]]]]].
  - unfold get_metadata_at_version, bind, lift. fold params.
    now destruct (call "state_call" params w) as [[r|e] w1].
  - reflexivity.
  - reflexivity.
  - intros Hlen. rewrite metadata_of_result_str.
    now assert ((String.length s <? 4)%nat = true) as -> by (apply Nat.ltb_lt; lia).
  - intros Hp. rewrite metadata_of_result_str, Hp.
    now repeat match goal with |- context [if ?b then _ else _] => destruct b end.
  - rewrite metadata_of_result_str. reflexivity.
  - reflexivity.
  - intros t Hne Ht. rewrite decode_opaque_metadata_tag, Ht.
    destruct (String.eqb_spec s ""); [contradiction | reflexivity].
  - intros c1 c2 d1 d2 rest -> H1 H2 t offset.
    unfold _decode_opaque_metadata. cbn [String.eqb str_take].
    rewrite (py_int16_hex_byte _ _ _ _ H1 H2). fold t.
    destruct (hex_value_facts _ _ H1) as (_ & _ & _ & _ & _ & _ & Hd1).
    destruct (hex_value_facts _ _ H2) as (_ & _ & _ & _ & _ & _ & Hd2).
    rewrite py_slice_from_nonneg by (apply data_start_of_nonneg; lia).
    split; [reflexivity|]. split; [reflexivity|]. intros Hshort. f_equal.
    change (data_start_of t) with offset.
    now rewrite str_drop_all.
  - rewrite metadata_of_result_str. eauto.
  - rewrite metadata_of_result_str.
    destruct (Nat.ltb_spec (String.length s) 4) as [Hlt|Hge].
    { split; [intros _; now left | reflexivity]. }
    destruct (String.eqb_spec s "0x00") as [->|Hne00].
    { split; [intros _; right; now left | reflexivity]. }
    destruct (is_prefix "0x01" s) eqn:Hp.
    2:{ split; [intros _; right; now left | reflexivity]. }
    rewrite decode_opaque_metadata_tag.
    pose proof (is_prefix_split _ _ Hp) as Hs. cbn [String.length] in Hs.
    destruct (String.eqb_spec (str_drop 4 s) "") as [He|Hne].
    { split; [intros _|reflexivity]. right. right. left.
      rewrite Hs, He. reflexivity. }
    destruct (py_int16 (str_take 2 (str_drop 4 s))) as [t|e] eqn:Ht.
    + split; [discriminate|].
      intros [Hlt | [Hf | [H01 | [e He]]]]; try lia; try discriminate.
      exfalso. apply Hne. now rewrite H01.
    + split; [intros _|reflexivity]. right. right. right. now exists e.
  - reflexivity.
Qed.

(** C4, as stated, fails: inputs that are malformed or short and still
    give metadata.  A tag that is a sign and a digit is accepted by
    [int(_, 16)]; a payload that is not hexadecimal is passed through; an
    input that ends before the payload offset gives the empty payload
    rather than [None]. *)
Lemma malformed_input_yields_metadata :
  metadata_of_result (JStr "0x01-1aaaaaabcd") = Ok (JStr "0xbcd") /\
  metadata_of_result (JStr "0x0100zz") = Ok (JStr "0xzz") /\
  metadata_of_result (JStr "0x0103") = Ok (JStr "0x").
Proof. repeat split. Qed.


(** ** The fetcher *)

Lemma batch_call_world calls w :
  snd (batch_call calls w) =
  match calls with
  | [] => w
  | _ :: _ => record_event (NetCall (endpoint w) (batch_payload calls)) w
  end.
Proof.
  destruct calls as [|c calls]; [reflexivity|].
  now rewrite batch_call_nonempty.
Qed.

Lemma impl_run bns w :
  _fetch_block_and_events_batch_impl bns w =
  match get_block_hashes_batch bns w with
  | (Raise e, w1) => (Raise e, w1)
  | (Ok hash_map, w1) =>
      match valid_blocks_of hash_map with
      | [] => (Ok ([], []), w1)
      | _ :: _ =>
          match batch_call (block_calls (valid_blocks_of hash_map)) w1 with
          | (Raise e, w2) => (Raise e, w2)
          | (Ok block_results, w2) =>
              match batch_call (event_calls (valid_blocks_of hash_map)) w2 with
              | (Raise e, w3) => (Raise e, w3)
              | (Ok event_results, w3) =>
                  (ofold emit_records ([], [])
                     (zip (valid_blocks_of hash_map)
                        (zip block_results event_results)),
                   w3)
              end
          end
      end
  end.
Proof.
  unfold _fetch_block_and_events_batch_impl, bind at 1.
  destruct (get_block_hashes_batch bns w) as [[hash_map|e] w1]; [|reflexivity].
  destruct (valid_blocks_of hash_map) as [|v vs]; [reflexivity|].
  unfold bind at 1.
  destruct (batch_call (block_calls (v :: vs)) w1) as [[brs|e] w2]; [|reflexivity].
  unfold bind at 1.
  destruct (batch_call (event_calls (v :: vs)) w2) as [[ers|e] w3]; reflexivity.
Qed.

Lemma sleeps_app t1 t2 : sleeps (t1 ++ t2) = sleeps t1 ++ sleeps t2.
Proof. unfold sleeps. apply omap_app. Qed.

Lemma batch_call_sleeps calls w :
  sleeps (trace (snd (batch_call calls w))) = sleeps (trace w).
Proof.
  rewrite batch_call_world. destruct calls; [reflexivity|].
  simpl. rewrite sleeps_app. simpl. apply app_nil_r.
Qed.

Lemma get_block_hashes_batch_sleeps bns w :
  sleeps (trace (snd (get_block_hashes_batch bns w))) = sleeps (trace w).
Proof.
  rewrite get_block_hashes_batch_trace, sleeps_app.
  destruct (uncached_of _ _); simpl; apply app_nil_r.
Qed.

(** An attempt sends requests and never sleeps. *)
Lemma impl_sleeps bns w :
  sleeps (trace (snd (_fetch_block_and_events_batch_impl bns w)))
  = sleeps (trace w).
Proof.
  rewrite impl_run.
  pose proof (get_block_hashes_batch_sleeps bns w) as H1.
  destruct (get_block_hashes_batch bns w) as [[hash_map|e] w1]; cbn [fst snd] in *;
    [|assumption].
  destruct (valid_blocks_of hash_map) as [|v vs]; [assumption|].
  pose proof (batch_call_sleeps (block_calls (v :: vs)) w1) as H2.
  destruct (batch_call (block_calls (v :: vs)) w1) as [[brs|e] w2]; cbn [fst snd] in *;
    [|congruence].
  pose proof (batch_call_sleeps (event_calls (v :: vs)) w2) as H3.
  destruct (batch_call (event_calls (v :: vs)) w2) as [[ers|e] w3]; cbn [fst snd] in *;
    congruence.
Qed.

Lemma attempt_once_run k bns w :
  attempt_once k bns w =
  let r := fst (_fetch_block_and_events_batch_impl bns w) in
  let w1 := snd (_fetch_block_and_events_batch_impl bns w) in
  if complete bns r then (Ok (match r with Ok be => Some be | Raise _ => None end), w1)
  else if (k =? MAX_RETRIES - 1)%nat
  then (Ok (Some (match r with Ok be => be | Raise _ => ([], []) end)), w1)
  else (Ok None, record_event (Sleep (RETRY_DELAY * (Z.of_nat k + 1))) w1).
Proof.
  unfold attempt_once, try_except, bind at 1. cbv zeta.
  destruct (_fetch_block_and_events_batch_impl bns w) as [[be|e] w1];
    cbn [fst snd complete].
  - destruct (length (fst be) =? length bns)%nat; [reflexivity|].
    destruct (k =? MAX_RETRIES - 1)%nat; reflexivity.
  - destruct (k =? MAX_RETRIES - 1)%nat; reflexivity.
Qed.

(** The retry loop unrolled over its three attempts. *)
Lemma retry_loop_unrolled (block_numbers : list Z) (w0 : world) :
  let attempt := _fetch_block_and_events_batch_impl block_numbers in
  let r1 := fst (attempt w0) in
  let w1 := snd (attempt w0) in
  let w1' := record_event (Sleep (RETRY_DELAY * 1)) w1 in
  let r2 := fst (attempt w1') in
  let w2 := snd (attempt w1') in
  let w2' := record_event (Sleep (RETRY_DELAY * 2)) w2 in
  let r3 := fst (attempt w2') in
  let w3 := snd (attempt w2') in
  fetch_block_and_events_batch block_numbers w0 =
    (if complete block_numbers r1 then (r1, w1)
     else if complete block_numbers r2 then (r2, w2)
     else (match r3 with Ok be => Ok be | Raise _ => Ok ([], []) end, w3)).
Proof.
  intros attempt r1 w1 w1' r2 w2 w2' r3 w3.
  unfold fetch_block_and_events_batch.
  cbn [seq MAX_RETRIES retry_loop].
  unfold bind at 1. rewrite attempt_once_run. cbv zeta.
  fold attempt. fold r1 w1.
  destruct (complete block_numbers r1) eqn:C1.
  { destruct r1; [reflexivity | discriminate]. }
  change (0 =? MAX_RETRIES - 1)%nat with false. cbv iota.
  change (Z.of_nat 0 + 1) with 1. fold w1'.
  unfold bind at 1. rewrite attempt_once_run. cbv zeta.
  fold attempt. fold r2 w2.
  destruct (complete block_numbers r2) eqn:C2.
  { destruct r2; [reflexivity | discriminate]. }
  change (1 =? MAX_RETRIES - 1)%nat with false. cbv iota.
  change (Z.of_nat 1 + 1) with 2. fold w2'.
  unfold bind at 1. rewrite attempt_once_run. cbv zeta.
  fold attempt. fold r3 w3.
  destruct (complete block_numbers r3) eqn:C3.
  { destruct r3; [reflexivity | discriminate]. }
  change (2 =? MAX_RETRIES - 1)%nat with true. cbv iota. now destruct r3.
Qed.

Lemma fetch_never_raises bns w :
  exists be, fst (fetch_block_and_events_batch bns w) = Ok be.
Proof.
  rewrite retry_loop_unrolled. cbv zeta.
  set (attempt := _fetch_block_and_events_batch_impl bns).
  destruct (complete bns (fst (attempt w))) eqn:C1.
  { destruct (fst (attempt w)); [eauto | discriminate]. }
  match goal with |- context [complete bns ?r] => destruct (complete bns r) eqn:C2 end.
  { match goal with |- context [(?r, _).1] => destruct r; [eauto | discriminate] end. }
  match goal with |- context [match ?r with Ok _ => _ | Raise _ => _ end] =>
    destruct r; eauto end.
Qed.

(** C2: the retry loop, attempt by attempt.  The first attempt runs in the
    initial world; if it is complete its result is returned at once.
    Otherwise (incomplete or raised, alike) the client sleeps
    [RETRY_DELAY * 1] and runs the second attempt on the same numbers; if
    that is complete it is returned.  Otherwise the client sleeps
    [RETRY_DELAY * 2] and runs the third and last attempt, whose result is
    returned as it is, complete or not, and replaced by two empty lists if
    it raised.  So there are at most three attempts, the function never
    raises, and the delays it adds to the trace are none, [1], or [1; 2]. *)
Theorem fetch_retry_schedule (block_numbers : list Z) (w0 : world) :
  let attempt := _fetch_block_and_events_batch_impl block_numbers in
  let r1 := fst (attempt w0) in
  let w1 := snd (attempt w0) in
  let w1' := record_event (Sleep (RETRY_DELAY * 1)) w1 in
  let r2 := fst (attempt w1') in
  let w2 := snd (attempt w1') in
  let w2' := record_event (Sleep (RETRY_DELAY * 2)) w2 in
  let r3 := fst (attempt w2') in
  let w3 := snd (attempt w2') in
  let final := fetch_block_and_events_batch block_numbers w0 in
  final =
    (if complete block_numbers r1 then (r1, w1)
     else if complete block_numbers r2 then (r2, w2)
     else (match r3 with Ok be => Ok be | Raise _ => Ok ([], []) end, w3)) /\
  (exists be, fst final = Ok be) /\
  sleeps (trace (snd final)) =
    sleeps (trace w0) ++
    (if complete block_numbers r1 then []
     else if complete block_numbers r2 then [1]
     else [1; 2]).
Proof.
  intros attempt r1 w1 w1' r2 w2 w2' r3 w3 final.
  pose proof (retry_loop_unrolled block_numbers w0) as Hfinal.
  change (final =
    (if complete block_numbers r1 then (r1, w1)
     else if complete block_numbers r2 then (r2, w2)
     else (match r3 with Ok be => Ok be | Raise _ => Ok ([], []) end, w3)))
    in Hfinal.
  split; [exact Hfinal|]. split; [apply fetch_never_raises|].
  rewrite Hfinal.
  assert (sleeps (trace w1) = sleeps (trace w0)) as S1 by apply impl_sleeps.
  assert (sleeps (trace w2) = sleeps (trace w0) ++ [1]) as S2.
  { unfold w2, attempt. rewrite impl_sleeps. unfold w1'. simpl.
    rewrite sleeps_app, S1. reflexivity. }
  assert (sleeps (trace w3) = sleeps (trace w0) ++ [1; 2]) as S3.
  { unfold w3, attempt. rewrite impl_sleeps. unfold w2'. simpl.
    rewrite sleeps_app, S2. rewrite <- app_assoc. reflexivity. }
  destruct (complete block_numbers r1); [now rewrite app_nil_r|].
  destruct (complete block_numbers r2); cbn [snd]; assumption.
Qed.

(** ** Sorting and aggregation *)

Section Sorting.
Context {A : Type} (key : A -> Z).

Lemma insert_by_Permutation x l : insert_by key x l ≡ₚ x :: l.
Proof.
  induction l as [|y l IH]; simpl; [reflexivity|].
  destruct (key x <=? key y); [reflexivity|].
  rewrite IH. apply Permutation_swap.
Qed.

Lemma insert_by_HdRel a x l :
  key_le key a x -> HdRel (key_le key) a l ->
  HdRel (key_le key) a (insert_by key x l).
Proof.
  intros Hax Hal. destruct l as [|y l]; simpl; [now constructor|].
  destruct (key x <=? key y); constructor; [assumption|].
  now inversion Hal.
Qed.

Lemma insert_by_Sorted x l :
  Sorted (key_le key) l -> Sorted (key_le key) (insert_by key x l).
Proof.
  induction 1 as [|y l Hl IH Hy]; simpl; [repeat constructor|].
  destruct (Z.leb_spec (key x) (key y)) as [Hle|Hgt].
  - constructor; [now constructor|]. now constructor.
  - constructor; [assumption|]. apply insert_by_HdRel; [|assumption].
    unfold key_le. lia.
Qed.

Lemma py_sorted_Sorted l : Sorted (key_le key) (py_sorted key l).
Proof.
  induction l as [|x l IH]; simpl; [constructor|]. now apply insert_by_Sorted.
Qed.

Lemma py_sorted_Permutation l : py_sorted key l ≡ₚ l.
Proof.
  induction l as [|x l IH]; simpl; [reflexivity|].
  now rewrite insert_by_Permutation, IH.
Qed.

Lemma Sorted_keys l : Sorted (key_le key) l -> Sorted Z.le (key <$> l).
Proof.
  induction 1 as [|x l Hl IH Hx]; simpl; constructor; [assumption|].
  destruct Hx; simpl; now constructor.
Qed.

Lemma key_le_transitive : Transitive (key_le key).
Proof. intros x y z. unfold key_le. lia. Qed.

Lemma NoDup_keys_inj l x y :
  NoDup (key <$> l) -> x ∈ l -> y ∈ l -> key x = key y -> x = y.
Proof.
  induction l as [|a l IH]; intros Hnd Hx Hy Hk.
  - now apply elem_of_nil in Hx.
  - rewrite fmap_cons in Hnd. apply NoDup_cons in Hnd as [Ha Hnd].
    apply elem_of_cons in Hx as [->|Hx]; apply elem_of_cons in Hy as [->|Hy].
    + reflexivity.
    + exfalso. apply Ha. rewrite Hk. now apply list_elem_of_fmap_2.
    + exfalso. apply Ha. rewrite <- Hk. now apply list_elem_of_fmap_2.
    + now apply IH.
Qed.

(** With distinct keys the sorted list does not depend on the order of
    the input. *)
Lemma py_sorted_order_independent l l' :
  NoDup (key <$> l) -> l ≡ₚ l' -> py_sorted key l = py_sorted key l'.
Proof.
  intros Hnd Hperm.
  apply (@Sorted_unique_strong _ (key_le key) key_le_transitive).
  - intros x1 x2 H1 H2 H12 H21.
    apply (NoDup_keys_inj l); [assumption| | |unfold key_le in *; lia].
    + now rewrite <- (py_sorted_Permutation l).
    + now rewrite Hperm, <- (py_sorted_Permutation l').
  - apply py_sorted_Sorted.
  - apply py_sorted_Sorted.
  - now rewrite !py_sorted_Permutation.
Qed.
End Sorting.

Lemma aggregate_concat completed :
  aggregate completed = (concat (fst <$> completed), concat (snd <$> completed)).
Proof.
  unfold aggregate.
  assert (forall (acc : list BlockRecord.t * list EventRecord.t),
    foldl (fun all r => (fst all ++ fst r, snd all ++ snd r)) acc completed =
    (fst acc ++ concat (fst <$> completed), snd acc ++ concat (snd <$> completed)))
    as H.
  { induction completed as [|r rs IH]; intros acc; simpl.
    - rewrite !app_nil_r. now destruct acc.
    - rewrite IH. simpl. now rewrite <- !app_assoc. }
  apply H.
Qed.

Lemma concat_Permutation_proper {A} (l l' : list (list A)) :
  l ≡ₚ l' -> concat l ≡ₚ concat l'.
Proof.
  induction 1 as [|x l l' _ IH|x y l|l l' l'' _ IH1 _ IH2]; simpl.
  - reflexivity.
  - now rewrite IH.
  - rewrite !app_assoc. f_equiv. apply Permutation_app_comm.
  - now rewrite IH1.
Qed.

Lemma run_batches_never_raises order batches w :
  exists rs, fst (run_batches order batches w) = Ok rs.
Proof.
  revert w. induction order as [|i order IH]; intros w; simpl.
  - now exists [].
  - destruct (batches !! i) as [batch|]; [|apply IH].
    unfold bind at 1.
    destruct (fetch_never_raises batch w) as [be Hbe].
    destruct (fetch_block_and_events_batch batch w) as [r w1]. simpl in Hbe.
    subst r. unfold bind at 1. destruct (IH w1) as [rs Hrs].
    destruct (run_batches order batches w1) as [r w2]. simpl in Hrs. subst r.
    now exists (be :: rs).
Qed.

Lemma main_fetch_and_write_run order bns w :
  exists completed,
    fst (run_batches order (batches_of bns) w) = Ok completed /\
    fst (main_fetch_and_write order bns w) =
    Ok (blocks_jsonl (fst (aggregate completed)),
        events_jsonl (snd (aggregate completed))).
Proof.
  destruct (run_batches_never_raises order (batches_of bns) w) as [rs Hrs].
  exists rs. split; [assumption|].
  unfold main_fetch_and_write, fetch_blocks_parallel, bind.
  destruct (run_batches order (batches_of bns) w) as [r w1]. simpl in Hrs.
  now subst r.
Qed.

(** C8: the block records and the event records written to the output
    files are each in ascending order of block number, for every order in
    which the batches complete.  This holds for whatever results the
    workers deliver: the written records are the aggregated ones, sorted;
    and when the block numbers of the aggregated records are distinct, the
    written sequence is the same for every completion order. *)
Theorem output_sorted_by_block_number
    (completion_order : list nat) (block_numbers : list Z) (w : world) :
  (exists blocks events,
     fst (main_fetch_and_write completion_order block_numbers w)
       = Ok (blocks, events) /\
     Sorted Z.le (BlockRecord.blockNumber <$> blocks) /\
     Sorted Z.le (EventRecord.blockNumber <$> events)) /\
  (forall completed,
     Sorted Z.le (BlockRecord.blockNumber <$> blocks_jsonl (fst (aggregate completed))) /\
     Sorted Z.le (EventRecord.blockNumber <$> events_jsonl (snd (aggregate completed))) /\
     blocks_jsonl (fst (aggregate completed)) ≡ₚ concat (fst <$> completed) /\
     events_jsonl (snd (aggregate completed)) ≡ₚ concat (snd <$> completed)) /\
  (forall completed completed',
     completed ≡ₚ completed' ->
     (NoDup (BlockRecord.blockNumber <$> fst (aggregate completed)) ->
      blocks_jsonl (fst (aggregate completed))
        = blocks_jsonl (fst (aggregate completed'))) /\
     (NoDup (EventRecord.blockNumber <$> snd (aggregate completed)) ->
      events_jsonl (snd (aggregate completed))
        = events_jsonl (snd (aggregate completed')))).
Proof.
  assert (forall completed,
     Sorted Z.le (BlockRecord.blockNumber <$> blocks_jsonl (fst (aggregate completed))) /\
     Sorted Z.le (EventRecord.blockNumber <$> events_jsonl (snd (aggregate completed))))
    as Hsorted.
  { intros completed. split; apply Sorted_keys, py_sorted_Sorted. }
  split; [|split].
  - destruct (main_fetch_and_write_run completion_order block_numbers w)
      as (completed & _ & Hrun).
    eexists _, _. split; [exact Hrun|]. apply Hsorted.
  - intros completed. destruct (Hsorted completed) as [Hb He].
    split; [assumption|]. split; [assumption|].
    unfold blocks_jsonl, events_jsonl. rewrite !py_sorted_Permutation.
    now rewrite aggregate_concat.
  - intros completed completed' Hperm. unfold blocks_jsonl, events_jsonl.
    rewrite !aggregate_concat. cbn [fst snd].
    split; intros Hnd; apply py_sorted_order_independent; try assumption;
      apply concat_Permutation_proper; now rewrite Hperm.
Qed.

(** ** One fetch attempt *)

Lemma make_block_record_well_formed bn block_data :
  well_formed_block block_data = true ->
  exists r, make_block_record bn block_data = Ok r /\
            BlockRecord.blockNumber r = bn.
Proof.
  unfold well_formed_block, make_block_record.
  destruct block_data as [| | | | | |members]; try discriminate.
  cbn [py_getitem].
  destruct (dict_lookup members "block") as [[| | | | | |block]|]; try discriminate.
  cbn [obind py_getitem].
  destruct (dict_lookup block "header") as [[| | | | | |h]|]; try discriminate.
  destruct (dict_lookup block "extrinsics") as [ex|]; [|discriminate].
  intros _. cbn [obind]. eexists. split; reflexivity.
Qed.

Lemma make_block_record_ill_formed bn block_data :
  well_formed_block block_data = false ->
  exists e, make_block_record bn block_data = Raise e.
Proof.
  unfold well_formed_block, make_block_record.
  destruct block_data as [| | | | | |members]; try (intros _; eexists; reflexivity).
  cbn [py_getitem].
  destruct (dict_lookup members "block") as [[| | | | | |block]|];
    try (intros _; eexists; reflexivity).
  cbn [obind py_getitem].
  destruct (dict_lookup block "header") as [[| | | | | |h]|];
    destruct (dict_lookup block "extrinsics") as [ex|];
    try discriminate; intros _; eexists; reflexivity.
Qed.

Lemma make_block_record_number bn block_data r :
  make_block_record bn block_data = Ok r -> BlockRecord.blockNumber r = bn.
Proof.
  intros H. destruct (well_formed_block block_data) eqn:E.
  - destruct (make_block_record_well_formed bn _ E) as (r' & Hr & Hn). congruence.
  - destruct (make_block_record_ill_formed bn _ E) as [e He]. congruence.
Qed.

Lemma ofold_emit_records rows acc :
  (forall row, row ∈ rows -> py_truthy (fst (snd row)) = true ->
               well_formed_block (fst (snd row)) = true) ->
  exists blocks events,
    ofold emit_records acc rows = Ok (fst acc ++ blocks, snd acc ++ events) /\
    Forall2 (fun r row => make_block_record (fst (fst row)) (fst (snd row)) = Ok r)
      blocks (block_rows rows) /\
    events = (fun row => EventRecord.Make (fst (fst row)) (snd (snd row)))
               <$> event_rows rows.
Proof.
  revert acc. induction rows as [|row rows IH]; intros acc Hwf.
  - exists [], []. simpl. rewrite !app_nil_r. destruct acc.
    repeat split; constructor.
  - assert (forall row', row' ∈ rows -> py_truthy (fst (snd row')) = true ->
                         well_formed_block (fst (snd row')) = true) as Hwf'.
    { intros row' Hin. apply Hwf. now right. }
    cbn [ofold]. unfold emit_records at 1. unfold block_rows, event_rows.
    rewrite !filter_cons.
    destruct (py_truthy (fst (snd row))) eqn:Hb.
    + destruct (make_block_record_well_formed (fst (fst row)) (fst (snd row)))
        as (r & Hr & _); [apply Hwf; [left | assumption]|].
      rewrite Hr. cbn [obind].
      destruct (py_truthy (snd (snd row))) eqn:He.
      * destruct (IH (fst acc ++ [r],
                      snd acc ++ [EventRecord.Make (fst (fst row)) (snd (snd row))])
                    Hwf') as (blocks & events & Hrun & Hblocks & Hevents).
        exists (r :: blocks),
          (EventRecord.Make (fst (fst row)) (snd (snd row)) :: events).
        rewrite Hrun. cbn [fst snd]. rewrite <- !app_assoc.
        rewrite decide_True by reflexivity. rewrite decide_True by reflexivity.
        repeat split; [now constructor | now rewrite Hevents].
      * destruct (IH (fst acc ++ [r], snd acc) Hwf')
          as (blocks & events & Hrun & Hblocks & Hevents).
        exists (r :: blocks), events.
        rewrite Hrun. cbn [fst snd]. rewrite <- !app_assoc.
        rewrite decide_True by reflexivity.
        rewrite decide_False by discriminate.
        repeat split; [now constructor | assumption].
    + cbn [obind]. destruct (py_truthy (snd (snd row))) eqn:He.
      * destruct (IH (fst acc,
                      snd acc ++ [EventRecord.Make (fst (fst row)) (snd (snd row))])
                    Hwf') as (blocks & events & Hrun & Hblocks & Hevents).
        exists blocks, (EventRecord.Make (fst (fst row)) (snd (snd row)) :: events).
        rewrite Hrun. cbn [fst snd]. rewrite <- !app_assoc.
        rewrite decide_False by discriminate.
        rewrite decide_True by reflexivity.
        repeat split; [assumption | now rewrite Hevents].
      * destruct (IH (fst acc, snd acc) Hwf')
          as (blocks & events & Hrun & Hblocks & Hevents).
        exists blocks, events. rewrite Hrun. cbn [fst snd].
        rewrite !decide_False by discriminate.
        repeat split; assumption.
Qed.

Lemma block_rows_keys blocks rows :
  Forall2 (fun r row => make_block_record (fst (fst row)) (fst (snd row)) = Ok r)
    blocks (block_rows rows) ->
  BlockRecord.blockNumber <$> blocks = (fun row => fst (fst row)) <$> block_rows rows.
Proof.
  induction 1 as [|r row blocks rows' Hr _ IH]; [reflexivity|].
  rewrite !fmap_cons, IH. f_equal. eapply make_block_record_number, Hr.
Qed.

Lemma rows_elem (valid : list (Z * json)) (brs ers : list json) p bd ed :
  (p, (bd, ed)) ∈ zip valid (zip brs ers) <->
  exists i, valid !! i = Some p /\ brs !! i = Some bd /\ ers !! i = Some ed.
Proof.
  split.
  - intros H. apply zip_elem_lookup in H as (i & Hp & H).
    apply lookup_zip_with_Some in H as (x & y & [= -> ->] & Hx & Hy). eauto.
  - intros (i & Hp & Hb & He). eapply elem_of_zip_lookup; [eassumption|].
    apply lookup_zip_with_Some. eauto.
Qed.

Lemma valid_blocks_of_elem hash_map bn h :
  (bn, h) ∈ valid_blocks_of hash_map <-> (bn, h) ∈ hash_map /\ py_truthy h = true.
Proof.
  unfold valid_blocks_of.
  rewrite (list_elem_of_filter (fun p => py_truthy (snd p) = true)). simpl. tauto.
Qed.

Lemma block_payload valid :
  batch_payload (block_calls valid)
  = JArr (imap (fun i p => request "chain_getBlock" [snd p] (Z.of_nat i)) valid).
Proof.
  unfold batch_payload, block_calls. f_equal.
  change (map ?f ?l) with (f <$> l). now rewrite imap_fmap.
Qed.

Lemma event_payload valid :
  batch_payload (event_calls valid)
  = JArr (imap (fun i p => request "state_getStorage" [JStr events_key; snd p]
                             (Z.of_nat i)) valid).
Proof.
  unfold batch_payload, event_calls. f_equal.
  change (map ?f ?l) with (f <$> l). now rewrite imap_fmap.
Qed.

(** An attempt whose three steps return, with well-formed block data. *)
Lemma impl_returns bns w hash_map w1 block_results w2 event_results w3 :
  get_block_hashes_batch bns w = (Ok hash_map, w1) ->
  batch_call (block_calls (valid_blocks_of hash_map)) w1 = (Ok block_results, w2) ->
  batch_call (event_calls (valid_blocks_of hash_map)) w2 = (Ok event_results, w3) ->
  (forall bd, bd ∈ block_results -> py_truthy bd = true ->
              well_formed_block bd = true) ->
  let rows := zip (valid_blocks_of hash_map) (zip block_results event_results) in
  exists blocks events,
    _fetch_block_and_events_batch_impl bns w = (Ok (blocks, events), w3) /\
    Forall2 (fun r row => make_block_record (fst (fst row)) (fst (snd row)) = Ok r)
      blocks (block_rows rows) /\
    events = (fun row => EventRecord.Make (fst (fst row)) (snd (snd row)))
               <$> event_rows rows.
Proof.
  intros Hh Hb He Hwf rows. subst rows. rewrite impl_run, Hh.
  destruct (valid_blocks_of hash_map) as [|v vs] eqn:Ev.
  - injection Hb as <- <-. injection He as <- <-.
    exists [], []. repeat split; constructor.
  - rewrite Hb, He.
    destruct (ofold_emit_records (zip (v :: vs) (zip block_results event_results))
                ([], [])) as (blocks & events & Hrun & H).
    { intros [p [bd ed]] Hin. apply Hwf. apply elem_of_zip_r in Hin.
      now apply elem_of_zip_l in Hin. }
    exists blocks, events. split; [|exact H]. now rewrite Hrun.
Qed.

(** What an attempt sends and returns, given the results of its three
    steps. *)
Lemma attempt_contents
    (bns : list Z) (w : world) (hash_map : list (Z * json)) (w1 : world)
    (block_results : list json) (w2 : world)
    (event_results : list json) (w3 : world) :
  get_block_hashes_batch bns w = (Ok hash_map, w1) ->
  batch_call (block_calls (valid_blocks_of hash_map)) w1 = (Ok block_results, w2) ->
  batch_call (event_calls (valid_blocks_of hash_map)) w2 = (Ok event_results, w3) ->
  (forall bd, bd ∈ block_results -> py_truthy bd = true ->
              well_formed_block bd = true) ->
  let valid := valid_blocks_of hash_map in
  (forall bn h, (bn, h) ∈ valid <-> (bn, h) ∈ hash_map /\ py_truthy h = true) /\
  batch_payload (block_calls valid)
    = JArr (imap (fun i p => request "chain_getBlock" [snd p] (Z.of_nat i)) valid) /\
  batch_payload (event_calls valid)
    = JArr (imap (fun i p => request "state_getStorage" [JStr events_key; snd p]
                               (Z.of_nat i)) valid) /\
  trace w3 =
    trace w1 ++
    (if decide (valid = []) then []
     else [NetCall (endpoint w1) (batch_payload (block_calls valid));
           NetCall (endpoint w1) (batch_payload (event_calls valid))]) /\
  length block_results = length valid /\
  length event_results = length valid /\
  exists blocks events,
    _fetch_block_and_events_batch_impl bns w = (Ok (blocks, events), w3) /\
    (forall bn, bn ∈ (BlockRecord.blockNumber <$> blocks) <->
       exists i h bd, valid !! i = Some (bn, h) /\
                      block_results !! i = Some bd /\ py_truthy bd = true) /\
    (forall bn, bn ∈ (EventRecord.blockNumber <$> events) <->
       exists i h ed, valid !! i = Some (bn, h) /\
                      event_results !! i = Some ed /\ py_truthy ed = true) /\
    (forall bn h, (bn, h) ∈ hash_map -> py_truthy h = false ->
       (bn ∉ BlockRecord.blockNumber <$> blocks) /\
       (bn ∉ EventRecord.blockNumber <$> events)).
Proof.
  intros Hh Hb He Hwf valid.
  assert (length block_results = length valid) as Lb.
  { rewrite (batch_call_length _ _ _ _ Hb). apply length_map. }
  assert (length event_results = length valid) as Le.
  { rewrite (batch_call_length _ _ _ _ He). apply length_map. }
  split; [intros bn h; apply valid_blocks_of_elem|].
  split; [apply block_payload|]. split; [apply event_payload|].
  split.
  { pose proof (batch_call_world (block_calls valid) w1) as W2.
    pose proof (batch_call_world (event_calls valid) w2) as W3.
    fold valid in Hb, He. rewrite Hb in W2. rewrite He in W3. cbn [snd] in W2, W3.
    destruct valid as [|v vs]; cbn [block_calls event_calls map] in W2, W3.
    - subst w3 w2. now rewrite app_nil_r.
    - subst w3 w2. rewrite decide_False by discriminate. simpl.
      now rewrite <- app_assoc. }
  split; [assumption|]. split; [assumption|].
  destruct (impl_returns _ _ _ _ _ _ _ _ Hh Hb He Hwf)
    as (blocks & events & Hrun & Hblocks & Hevents).
  fold valid in Hblocks, Hevents.
  set (rows := zip valid (zip block_results event_results)) in *.
  exists blocks, events. split; [assumption|].
  assert (forall bn, bn ∈ (BlockRecord.blockNumber <$> blocks) <->
       exists i h bd, valid !! i = Some (bn, h) /\
                      block_results !! i = Some bd /\ py_truthy bd = true) as Hbk.
  { intros bn. rewrite (block_rows_keys _ _ Hblocks), list_elem_of_fmap. split.
    - intros ([[bn' h] [bd ed]] & -> & Hin). unfold block_rows in Hin.
      apply (list_elem_of_filter (fun row => py_truthy (fst (snd row)) = true))
        in Hin as [Ht Hin].
      apply rows_elem in Hin as (i & Hv & Hbd & _). exists i, h, bd. auto.
    - intros (i & h & bd & Hv & Hbd & Ht).
      destruct (lookup_lt_is_Some_2 event_results i) as [ed Hed].
      { rewrite Le. now apply lookup_lt_Some in Hv. }
      exists ((bn, h), (bd, ed)). split; [reflexivity|]. unfold block_rows.
      apply (list_elem_of_filter (fun row => py_truthy (fst (snd row)) = true)).
      split; [assumption|]. apply rows_elem. eauto. }
  assert (forall bn, bn ∈ (EventRecord.blockNumber <$> events) <->
       exists i h ed, valid !! i = Some (bn, h) /\
                      event_results !! i = Some ed /\ py_truthy ed = true) as Hev.
  { intros bn. rewrite Hevents, <- list_fmap_compose, list_elem_of_fmap. split.
    - intros ([[bn' h] [bd ed]] & -> & Hin). unfold event_rows in Hin.
      apply (list_elem_of_filter (fun row => py_truthy (snd (snd row)) = true))
        in Hin as [Ht Hin].
      apply rows_elem in Hin as (i & Hv & _ & Hed). exists i, h, ed. auto.
    - intros (i & h & ed & Hv & Hed & Ht).
      destruct (lookup_lt_is_Some_2 block_results i) as [bd Hbd].
      { rewrite Lb. now apply lookup_lt_Some in Hv. }
      exists ((bn, h), (bd, ed)). split; [reflexivity|]. unfold event_rows.
      apply (list_elem_of_filter (fun row => py_truthy (snd (snd row)) = true)).
      split; [assumption|]. apply rows_elem. eauto. }
  split; [assumption|]. split; [assumption|].
  intros bn h Hin Hf.
  assert (forall h', (bn, h') ∈ valid -> False) as Hnot.
  { intros h' Hv. apply valid_blocks_of_elem in Hv as [Hin' Ht].
    pose proof (get_block_hashes_batch_returns _ _ _ _ Hh) as ->.
    apply hash_map_of_elem in Hin as [_ ->].
    apply hash_map_of_elem in Hin' as [_ ->]. congruence. }
  split.
  - rewrite Hbk. intros (i & h' & bd & Hv & _). apply (Hnot h').
    apply list_elem_of_lookup. eauto.
  - rewrite Hev. intros (i & h' & ed & Hv & _). apply (Hnot h').
    apply list_elem_of_lookup. eauto.
Qed.

Lemma ofold_emit_records_inv rows acc r :
  ofold emit_records acc rows = Ok r ->
  forall row, row ∈ rows -> py_truthy (fst (snd row)) = true ->
              well_formed_block (fst (snd row)) = true.
Proof.
  revert acc. induction rows as [|row0 rows IH]; intros acc Hrun row Hin Ht.
  - now apply elem_of_nil in Hin.
  - cbn [ofold] in Hrun. unfold emit_records at 1 in Hrun.
    destruct (well_formed_block (fst (snd row0))) eqn:Hwf0.
    + destruct (py_truthy (fst (snd row0))) eqn:Ht0.
      * destruct (make_block_record_well_formed (fst (fst row0)) _ Hwf0)
          as (r0 & Hr0 & _).
        rewrite Hr0 in Hrun. cbn [obind] in Hrun.
        apply elem_of_cons in Hin as [->|Hin]; [assumption|]. eapply IH; eassumption.
      * cbn [obind] in Hrun.
        apply elem_of_cons in Hin as [->|Hin]; [congruence|]. eapply IH; eassumption.
    + destruct (py_truthy (fst (snd row0))) eqn:Ht0.
      * destruct (make_block_record_ill_formed (fst (fst row0)) _ Hwf0) as [e He].
        rewrite He in Hrun. discriminate.
      * cbn [obind] in Hrun.
        apply elem_of_cons in Hin as [->|Hin]; [congruence|]. eapply IH; eassumption.
Qed.

(** An attempt that returns went through its three steps, and every truthy
    block result it met was a well-formed block. *)
Lemma impl_returned_steps bns w blocks events w3 :
  _fetch_block_and_events_batch_impl bns w = (Ok (blocks, events), w3) ->
  exists hash_map w1 block_results w2 event_results,
    get_block_hashes_batch bns w = (Ok hash_map, w1) /\
    batch_call (block_calls (valid_blocks_of hash_map)) w1 = (Ok block_results, w2) /\
    batch_call (event_calls (valid_blocks_of hash_map)) w2 = (Ok event_results, w3) /\
    (forall bd, bd ∈ block_results -> py_truthy bd = true ->
                well_formed_block bd = true).
Proof.
  rewrite impl_run.
  destruct (get_block_hashes_batch bns w) as [[hash_map|e] w1]; [|discriminate].
  destruct (valid_blocks_of hash_map) as [|v vs] eqn:Ev.
  - intros [= <- <- <-]. exists hash_map, w1, [], w1, []. rewrite Ev.
    repeat split. intros bd Hbd. now apply elem_of_nil in Hbd.
  - destruct (batch_call (block_calls (v :: vs)) w1) as [[brs|e] w2] eqn:Hb;
      [|discriminate].
    destruct (batch_call (event_calls (v :: vs)) w2) as [[ers|e] w3'] eqn:He;
      [|discriminate].
    intros [= Hrun <-]. exists hash_map, w1, brs, w2, ers. rewrite Ev.
    repeat split; try assumption.
    intros bd Hbd Ht.
    assert (length brs = length (v :: vs)) as Lb.
    { rewrite (batch_call_length _ _ _ _ Hb). apply length_map. }
    assert (length ers = length (v :: vs)) as Le.
    { rewrite (batch_call_length _ _ _ _ He). apply length_map. }
    apply list_elem_of_lookup in Hbd as [i Hi].
    destruct (lookup_lt_is_Some_2 (v :: vs) i) as [p Hp].
    { rewrite <- Lb. now apply lookup_lt_Some in Hi. }
    destruct (lookup_lt_is_Some_2 ers i) as [ed Hed].
    { rewrite Le, <- Lb. now apply lookup_lt_Some in Hi. }
    apply (ofold_emit_records_inv (zip (v :: vs) (zip brs ers)) _ _ Hrun
             (p, (bd, ed))); [|assumption].
    apply rows_elem. eauto.
Qed.

(** C6: one fetch attempt.  An attempt that returns has gone through a
    hash lookup and two batch calls that returned.  The
    valid pairs are the pairs of the hash map whose hash is truthy.  After
    the hash lookup the attempt sends nothing if there is no valid pair,
    and otherwise exactly two batch requests: [chain_getBlock] for each
    valid hash and [state_getStorage] (events key) for each valid hash, in
    the same order, so each has as many entries as there are valid pairs.
    A number has a block record exactly when it is in a valid pair whose
    block result is truthy, and an event record exactly when it is in a
    valid pair whose storage result is truthy; a number whose hash is not
    truthy has neither.  And the attempt does return whenever the three
    steps return and every truthy block result has the shape of a block
    (a [block] dict with a [header] dict and [extrinsics]). *)
Theorem fetch_attempt_spec (bns : list Z) (w : world) :
  (forall blocks events w3,
     _fetch_block_and_events_batch_impl bns w = (Ok (blocks, events), w3) ->
     exists hash_map w1 block_results w2 event_results,
       get_block_hashes_batch bns w = (Ok hash_map, w1) /\
       batch_call (block_calls (valid_blocks_of hash_map)) w1
         = (Ok block_results, w2) /\
       batch_call (event_calls (valid_blocks_of hash_map)) w2
         = (Ok event_results, w3) /\
       let valid := valid_blocks_of hash_map in
       (forall bn h, (bn, h) ∈ valid <-> (bn, h) ∈ hash_map /\ py_truthy h = true) /\
       batch_payload (block_calls valid)
         = JArr (imap (fun i p => request "chain_getBlock" [snd p] (Z.of_nat i))
                   valid) /\
       batch_payload (event_calls valid)
         = JArr (imap (fun i p => request "state_getStorage"
                                    [JStr events_key; snd p] (Z.of_nat i))
                   valid) /\
       trace w3 =
         trace w1 ++
         (if decide (valid = []) then []
          else [NetCall (endpoint w1) (batch_payload (block_calls valid));
                NetCall (endpoint w1) (batch_payload (event_calls valid))]) /\
       length block_results = length valid /\
       length event_results = length valid /\
       (forall bn, bn ∈ (BlockRecord.blockNumber <$> blocks) <->
          exists i h bd, valid !! i = Some (bn, h) /\
                         block_results !! i = Some bd /\ py_truthy bd = true) /\
       (forall bn, bn ∈ (EventRecord.blockNumber <$> events) <->
          exists i h ed, valid !! i = Some (bn, h) /\
                         event_results !! i = Some ed /\ py_truthy ed = true) /\
       (forall bn h, (bn, h) ∈ hash_map -> py_truthy h = false ->
          (bn ∉ BlockRecord.blockNumber <$> blocks) /\
          (bn ∉ EventRecord.blockNumber <$> events))) /\
  (forall hash_map w1 block_results w2 event_results w3,
     get_block_hashes_batch bns w = (Ok hash_map, w1) ->
     batch_call (block_calls (valid_blocks_of hash_map)) w1
       = (Ok block_results, w2) ->
     batch_call (event_calls (valid_blocks_of hash_map)) w2
       = (Ok event_results, w3) ->
     (forall bd, bd ∈ block_results -> py_truthy bd = true ->
                 well_formed_block bd = true) ->
     exists blocks events,
       _fetch_block_and_events_batch_impl bns w = (Ok (blocks, events), w3)).
Proof.
  split.
  - intros blocks events w3 Hrun.
    destruct (impl_returned_steps _ _ _ _ _ Hrun)
      as (hash_map & w1 & brs & w2 & ers & Hh & Hb & He & Hwf).
    exists hash_map, w1, brs, w2, ers.
    split; [assumption|]. split; [assumption|]. split; [assumption|].
    destruct (attempt_contents _ _ _ _ _ _ _ _ Hh Hb He Hwf)
      as (H1 & H2 & H3 & H4 & H5 & H6 & blocks' & events' & Hrun' & H7 & H8 & H9).
    rewrite Hrun in Hrun'. injection Hrun' as <- <-.
    exact (conj H1 (conj H2 (conj H3 (conj H4 (conj H5 (conj H6
             (conj H7 (conj H8 H9)))))))).
  - intros hash_map w1 brs w2 ers w3 Hh Hb He Hwf.
    destruct (impl_returns _ _ _ _ _ _ _ _ Hh Hb He Hwf)
      as (blocks & events & Hrun & _).
    now exists blocks, events.
Qed.


(** ** An endpoint that does not fail *)

Lemma batch_call_answered answer calls w :
  batches_answered (remote w) answer ->
  batch_call calls w =
  (Ok ((fun c => answer (fst c) (snd c)) <$> calls),
   match calls with
   | [] => w
   | _ :: _ => record_event (NetCall (endpoint w) (batch_payload calls)) w
   end).
Proof.
  intros Hsrv. destruct calls as [|c calls]; [reflexivity|].
  destruct (Hsrv (trace w) (endpoint w) (c :: calls)) as [Hacc Hfill];
    [discriminate|].
  rewrite batch_call_accepted by (assumption || discriminate).
  now rewrite Hfill.
Qed.

(** The endpoint [serve answer] is one that does not fail. *)
Lemma item_slot_reply n (k : nat) v :
  (k < n)%nat ->
  item_slot n (reply_item k v) = Some (k, v).
Proof.
  intros Hk. unfold item_slot, reply_item. cbn. assert (((0 <=? Z.of_nat k) && (Z.of_nat k <? Z.of_nat n)) = true) as ->.
  { apply andb_true_iff. split; lia. }
  now rewrite Nat2Z.id.
Qed.

Lemma foldl_reply_items (ans : string * list json -> json) cs :
  forall k prefix, length prefix = k ->
    foldl (slot_step (k + length cs)) (prefix ++ replicate (length cs) JNull)
      (imap (fun j c => reply_item (k + j) (ans c)) cs)
    = prefix ++ (ans <$> cs).
Proof.
  induction cs as [|c cs IH]; intros k prefix Hlen.
  - reflexivity.
  - rewrite imap_cons. cbn [foldl length replicate fmap list_fmap].
    unfold slot_step at 2. rewrite item_slot_reply by lia.
    rewrite insert_app_r_alt by lia.
    replace (k + 0 - length prefix)%nat with 0%nat by lia. cbn [insert list_insert].
    replace (k + S (length cs))%nat with (S k + length cs)%nat by lia.
    rewrite (imap_ext _ (fun j c => reply_item (S k + j) (ans c)));
      [|intros; cbn; f_equal; lia].
    change (prefix ++ ans c :: replicate (length cs) JNull)
      with (prefix ++ [ans c] ++ replicate (length cs) JNull).
    rewrite app_assoc, IH by (rewrite length_app; simpl; lia).
    now rewrite <- app_assoc.
Qed.

Lemma serve_batch answer hist ep calls :
  serve answer hist ep (batch_payload calls)
  = JArr (imap (fun j c => reply_item j (answer (fst c) (snd c))) calls).
Proof.
  unfold serve, batch_payload. f_equal.
  change (map ?f ?l) with (f <$> l). rewrite fmap_imap.
  apply imap_ext. intros i [m p] _. reflexivity.
Qed.

Lemma serve_answers answer : batches_answered (serve answer) answer.
Proof.
  intros hist ep calls Hne. rewrite serve_batch. split.
  - cbn [response_accepted]. apply forallb_forall. intros item Hin.
    apply list_elem_of_In, list_elem_of_lookup in Hin as [i Hi].
    rewrite list_lookup_imap in Hi.
    destruct (calls !! i) as [c|]; [|discriminate]. now injection Hi as <-.
  - unfold response_items.
    destruct calls as [|c calls]; [contradiction|].
    cbn [py_truthy imap]. unfold fill_slots.
    apply (foldl_reply_items (fun c => answer (fst c) (snd c)) (c :: calls) 0 []).
    reflexivity.
Qed.

Section Chain.
Context (answer : string -> list json -> json).


Lemma zip_fmap3 {A B C D} (f : A -> B) (g : A -> C) (h : A -> D) (l : list A) :
  zip (f <$> l) (zip (g <$> l) (h <$> l)) = (fun x => (f x, (g x, h x))) <$> l.
Proof. induction l as [|x l IH]; [reflexivity|]. simpl. f_equal. exact IH. Qed.

Lemma zip_fmap_r {A B} (g : A -> B) (l : list A) :
  zip l (g <$> l) = (fun x => (x, g x)) <$> l.
Proof. induction l as [|x l IH]; [reflexivity|]. simpl. f_equal. exact IH. Qed.

Lemma merge_hashes_agrees cache pairs :
  cache_agrees answer cache ->
  (forall n h, (n, h) ∈ pairs -> h = hash_of answer n) ->
  cache_agrees answer (merge_hashes cache pairs).
Proof.
  intros Hc Hp n h Hh.
  destruct (merge_hashes_lookup cache pairs n) as [Heq | (_ & h' & Hh' & _ & Hin)].
  - apply Hc. congruence.
  - apply Hp. congruence.
Qed.

Lemma filter_valid_pairs (v hsh : Z -> json) (l : list Z) :
  (forall n, n ∈ l ->
     (py_truthy (hsh n) = true -> v n = hsh n) /\
     (py_truthy (hsh n) = false -> py_truthy (v n) = false)) ->
  valid_blocks_of ((fun n => (n, v n)) <$> l)
  = (fun n => (n, hsh n)) <$> filter (fun n => py_truthy (hsh n) = true) l.
Proof.
  unfold valid_blocks_of. induction l as [|n l IH]; intros H; [reflexivity|].
  rewrite fmap_cons, !filter_cons. cbn [snd].
  destruct (H n) as [Ht Hf]; [left|].
  rewrite IH by (intros m Hm; apply H; now right).
  destruct (py_truthy (hsh n)) eqn:E.
  - rewrite (Ht eq_refl), E. rewrite !decide_True by reflexivity. reflexivity.
  - rewrite (Hf eq_refl). rewrite !decide_False by discriminate. reflexivity.
Qed.

Lemma get_block_hashes_batch_ideal bns w :
  batches_answered (remote w) answer ->
  cache_agrees answer (block_hash_cache w) ->
  NoDup bns ->
  exists hash_map w1,
    get_block_hashes_batch bns w = (Ok hash_map, w1) /\
    valid_blocks_of hash_map
      = (fun n => (n, hash_of answer n)) <$> resolved answer bns /\
    remote w1 = remote w /\ endpoint w1 = endpoint w /\
    cache_agrees answer (block_hash_cache w1) /\
    sleeps (trace w1) = sleeps (trace w).
Proof.
  intros Hsrv Hc Hnd.
  set (uncached := uncached_of (block_hash_cache w) bns).
  set (cache' := merge_hashes (block_hash_cache w)
                   (zip uncached (hash_of answer <$> uncached))).
  assert (forall n h, (n, h) ∈ zip uncached (hash_of answer <$> uncached) ->
                      h = hash_of answer n) as Hpairs.
  { intros n h. rewrite zip_fmap_r, list_elem_of_fmap.
    now intros (x & [= -> ->] & _). }
  assert (cache_agrees answer cache') as Hc' by now apply merge_hashes_agrees.
  assert (forall n, n ∈ bns -> py_truthy (hash_of answer n) = true ->
                    cache' !! n = Some (hash_of answer n)) as Hall.
  { intros n Hn Ht. destruct (block_hash_cache w !! n) as [h|] eqn:E.
    - rewrite (Hc _ _ E) in E. apply merge_hashes_keeps; [assumption|].
      intros Hin. apply zip_fst_subset, uncached_of_elem in Hin as [Hnone _].
      congruence.
    - apply merge_hashes_stores_NoDup.
      + apply zip_fst_NoDup. unfold uncached, uncached_of. now apply NoDup_filter.
      + rewrite zip_fmap_r. apply list_elem_of_fmap. exists n.
        split; [reflexivity|]. now apply uncached_of_elem.
      + assumption. }
  assert (valid_blocks_of (hash_map_of cache' bns)
          = (fun n => (n, hash_of answer n)) <$> resolved answer bns) as Hvalid.
  { rewrite hash_map_of_keys, keys_in_order_id by assumption.
    apply filter_valid_pairs. intros n Hn. split.
    - intros Ht. now rewrite (Hall n Hn Ht).
    - intros Hf. destruct (cache' !! n) as [h|] eqn:E; [|reflexivity].
      simpl. now rewrite (Hc' _ _ E). }
  pose proof (get_block_hashes_batch_sleeps bns w) as Hsl.
  rewrite get_block_hashes_batch_run in *. fold uncached in Hsl |- *.
  pose proof (batch_call_answered answer (hash_calls uncached) w Hsrv) as Hcall.
  assert ((fun c : string * list json => answer (fst c) (snd c)) <$> hash_calls uncached
          = hash_of answer <$> uncached) as Hres.
  { unfold hash_calls. change (map ?f ?l) with (f <$> l).
    now rewrite <- list_fmap_compose. }
  rewrite Hres in Hcall.
  destruct uncached as [|u us] eqn:Eu.
  - exists (hash_map_of (block_hash_cache w) bns), w.
    split; [reflexivity|]. split; [exact Hvalid|].
    repeat split; assumption.
  - rewrite Hcall in Hsl |- *. cbv zeta in Hsl |- *.
    cbn [hash_calls map block_hash_cache record_event] in Hsl |- *.
    fold cache' in Hsl |- *. eexists _, _. split; [reflexivity|].
    split; [exact Hvalid|]. repeat split; assumption.
Qed.

Lemma ofold_emit_records_ideal bns acc :
  chain_well_formed answer bns ->
  ofold emit_records acc
    ((fun n => ((n, hash_of answer n), (block_of answer n, events_of answer n)))
       <$> resolved answer bns)
  = Ok (fst acc ++ chain_blocks answer bns, snd acc ++ chain_events answer bns).
Proof.
  unfold chain_blocks, chain_events, resolved.
  revert acc. induction bns as [|n bns IH]; intros acc Hok.
  - simpl. rewrite !app_nil_r. now destruct acc.
  - assert (chain_well_formed answer bns) as Hok'
      by (intros m Hm; apply Hok; now right).
    rewrite filter_cons. destruct (py_truthy (hash_of answer n)) eqn:Hh.
    + rewrite decide_True by reflexivity.
      rewrite fmap_cons. cbn [ofold omap list_omap].
      unfold emit_records at 1. cbn [fst snd].
      destruct (py_truthy (block_of answer n)) eqn:Hb.
      * destruct (make_block_record_well_formed n (block_of answer n))
          as (r & Hr & _); [apply Hok; [left | assumption | assumption]|].
        rewrite Hr. cbn [obind]. rewrite IH by assumption. cbn [fst snd].
        destruct (py_truthy (events_of answer n)); cbn [fst snd];
          now rewrite <- !app_assoc.
      * cbn [obind]. rewrite IH by assumption. cbn [fst snd].
        destruct (py_truthy (events_of answer n)); cbn [fst snd];
          now rewrite <- ?app_assoc.
    + rewrite decide_False by discriminate. now apply IH.
Qed.

Lemma impl_ideal bns w :
  batches_answered (remote w) answer ->
  cache_agrees answer (block_hash_cache w) ->
  NoDup bns ->
  chain_well_formed answer bns ->
  exists w1,
    _fetch_block_and_events_batch_impl bns w
      = (Ok (chain_blocks answer bns, chain_events answer bns), w1) /\
    remote w1 = remote w /\ endpoint w1 = endpoint w /\
    cache_agrees answer (block_hash_cache w1).
Proof.
  intros Hsrv Hc Hnd Hok.
  destruct (get_block_hashes_batch_ideal bns w Hsrv Hc Hnd)
    as (hash_map & w1 & Hrun & Hvalid & Hr1 & He1 & Hc1 & _).
  rewrite impl_run, Hrun, Hvalid.
  set (valid := (fun n => (n, hash_of answer n)) <$> resolved answer bns).
  assert (batches_answered (remote w1) answer) as Hsrv1 by now rewrite Hr1.
  pose proof (batch_call_answered answer (block_calls valid) w1 Hsrv1) as Hb.
  set (w2 := match block_calls valid with
             | [] => w1
             | _ :: _ =>
                 record_event
                   (NetCall (endpoint w1) (batch_payload (block_calls valid))) w1
             end) in *.
  assert (remote w2 = remote w1 /\ endpoint w2 = endpoint w1 /\
          block_hash_cache w2 = block_hash_cache w1) as (Hr2 & He2 & Hc2).
  { subst w2. now destruct (block_calls valid). }
  assert (batches_answered (remote w2) answer) as Hsrv2 by now rewrite Hr2.
  pose proof (batch_call_answered answer (event_calls valid) w2 Hsrv2) as He.
  set (w3 := match event_calls valid with
             | [] => w2
             | _ :: _ =>
                 record_event
                   (NetCall (endpoint w2) (batch_payload (event_calls valid))) w2
             end) in *.
  assert (remote w3 = remote w2 /\ endpoint w3 = endpoint w2 /\
          block_hash_cache w3 = block_hash_cache w2) as (Hr3 & He3 & Hc3).
  { subst w3. now destruct (event_calls valid). }
  pose proof (ofold_emit_records_ideal bns ([], []) Hok) as Hfold.
  cbn [fst snd app] in Hfold.
  destruct valid as [|p ps] eqn:Ev.
  - exists w1. unfold valid in Ev. apply fmap_nil_inv in Ev.
    rewrite Ev in Hfold. cbn in Hfold. injection Hfold as <- <-.
    repeat split; assumption.
  - rewrite Hb, He. exists w3.
    split; [|split; [congruence | split; [congruence | now rewrite Hc3, Hc2]]].
    f_equal. rewrite <- Hfold.
    unfold block_calls, event_calls. change (map ?f ?l) with (f <$> l).
    rewrite <- !list_fmap_compose. rewrite <- Ev. unfold valid.
    rewrite <- !list_fmap_compose.
    now rewrite (zip_fmap3 (fun n => (n, hash_of answer n))
                   (fun n => block_of answer n) (fun n => events_of answer n)).
Qed.

(** Behind such an endpoint every attempt returns the same records, so the
    retry loop returns them whether or not it retries. *)
Lemma fetch_ideal bns w :
  batches_answered (remote w) answer ->
  cache_agrees answer (block_hash_cache w) ->
  NoDup bns ->
  chain_well_formed answer bns ->
  exists w1,
    fetch_block_and_events_batch bns w
      = (Ok (chain_blocks answer bns, chain_events answer bns), w1) /\
    remote w1 = remote w /\ endpoint w1 = endpoint w /\
    cache_agrees answer (block_hash_cache w1).
Proof.
  intros Hsrv Hc Hnd Hok.
  destruct (impl_ideal bns w Hsrv Hc Hnd Hok) as (w1 & Hrun1 & Hr1 & He1 & Hc1).
  set (w1' := record_event (Sleep (RETRY_DELAY * 1)) w1).
  assert (batches_answered (remote w1') answer) as Hsrv1 by (cbn; now rewrite Hr1).
  destruct (impl_ideal bns w1' Hsrv1 Hc1 Hnd Hok)
    as (w2 & Hrun2 & Hr2 & He2 & Hc2).
  set (w2' := record_event (Sleep (RETRY_DELAY * 2)) w2).
  assert (batches_answered (remote w2') answer) as Hsrv2
    by (cbn; rewrite Hr2; cbn; now rewrite Hr1).
  destruct (impl_ideal bns w2' Hsrv2 Hc2 Hnd Hok)
    as (w3 & Hrun3 & Hr3 & He3 & Hc3).
  rewrite retry_loop_unrolled. cbv zeta. fold w1'. rewrite Hrun1. cbn [fst snd].
  fold w1'. rewrite Hrun2. cbn [fst snd]. fold w2'. rewrite Hrun3. cbn [fst snd].
  destruct (complete bns _).
  - exists w1. repeat split; assumption.
  - exists w3. split; [reflexivity|].
    split; [rewrite Hr3; cbn; rewrite Hr2; cbn; assumption|].
    split; [rewrite He3; cbn; rewrite He2; cbn; assumption|]. assumption.
Qed.

Lemma omap_Permutation_proper {A B} (f : A -> option B) (l l' : list A) :
  l ≡ₚ l' -> omap f l ≡ₚ omap f l'.
Proof.
  induction 1 as [|x l l' _ IH|x y l|l l' l'' _ IH1 _ IH2]; cbn [omap list_omap].
  - reflexivity.
  - destruct (f x); [now rewrite IH | assumption].
  - destruct (f x), (f y); try reflexivity. apply Permutation_swap.
  - now rewrite IH1.
Qed.

Lemma resolved_app l1 l2 :
  resolved answer (l1 ++ l2) = resolved answer l1 ++ resolved answer l2.
Proof. unfold resolved. apply filter_app. Qed.

Lemma chain_records_app l1 l2 :
  chain_blocks answer (l1 ++ l2) = chain_blocks answer l1 ++ chain_blocks answer l2 /\
  chain_events answer (l1 ++ l2) = chain_events answer l1 ++ chain_events answer l2.
Proof.
  unfold chain_blocks, chain_events. rewrite resolved_app, !omap_app. now split.
Qed.

Lemma chain_records_Permutation l l' :
  l ≡ₚ l' ->
  chain_blocks answer l ≡ₚ chain_blocks answer l' /\
  chain_events answer l ≡ₚ chain_events answer l'.
Proof.
  intros H. unfold chain_blocks, chain_events, resolved.
  split; apply omap_Permutation_proper; now rewrite H.
Qed.

End Chain.

(** C7, as amended: partition invariance when no call fails and the
    block data is well formed.  Behind an endpoint that
    answers every batch in full, with a cache that holds only hashes of the
    chain, and for distinct block numbers whose block data, where there is
    any, is well formed: fetching batch [B1] and then batch [B2], where the
    two batches split [numbers], returns block records and event records
    whose union is what one fetch of all [numbers] returns, as lists equal
    up to order, and equal outright when [numbers] is [B1] followed by
    [B2].  [B2] returns the same records whether it runs after [B1] or
    alone.  Numbers without a hash or without block data are allowed: they
    make the fetcher retry, and the records come out the same. *)
Theorem partition_invariance
    (answer : string -> list json -> json) (numbers B1 B2 : list Z)
    (w : world) :
  batches_answered (remote w) answer ->
  cache_agrees answer (block_hash_cache w) ->
  chain_well_formed answer numbers ->
  NoDup numbers ->
  numbers ≡ₚ B1 ++ B2 ->
  let r1 := fetch_block_and_events_batch B1 w in
  let r2 := fetch_block_and_events_batch B2 (snd r1) in
  let rS := fetch_block_and_events_batch numbers w in
  exists b1 e1 b2 e2 bS eS,
    fst r1 = Ok (b1, e1) /\ fst r2 = Ok (b2, e2) /\ fst rS = Ok (bS, eS) /\
    fst (fetch_block_and_events_batch B2 w) = Ok (b2, e2) /\
    bS ≡ₚ b1 ++ b2 /\ eS ≡ₚ e1 ++ e2 /\
    (numbers = B1 ++ B2 -> bS = b1 ++ b2 /\ eS = e1 ++ e2).
Proof.
  intros Hsrv Hc Hok Hnd Hperm r1 r2 rS.
  assert (NoDup (B1 ++ B2)) as Hnd12 by now rewrite <- Hperm.
  apply NoDup_app in Hnd12 as (Hnd1 & _ & Hnd2).
  assert (chain_well_formed answer B1) as Hok1.
  { intros n Hn. apply Hok. rewrite Hperm. apply elem_of_app. now left. }
  assert (chain_well_formed answer B2) as Hok2.
  { intros n Hn. apply Hok. rewrite Hperm. apply elem_of_app. now right. }
  destruct (fetch_ideal answer B1 w Hsrv Hc Hnd1 Hok1)
    as (w1 & Hr1 & Hrem1 & _ & Hc1).
  destruct (fetch_ideal answer B2 w Hsrv Hc Hnd2 Hok2) as (w2' & Hr2' & _).
  destruct (fetch_ideal answer numbers w Hsrv Hc Hnd Hok) as (wS & HrS & _).
  assert (batches_answered (remote w1) answer) as Hsrv1 by now rewrite Hrem1.
  destruct (fetch_ideal answer B2 w1 Hsrv1 Hc1 Hnd2 Hok2) as (w2 & Hr2 & _).
  exists (chain_blocks answer B1), (chain_events answer B1),
    (chain_blocks answer B2), (chain_events answer B2),
    (chain_blocks answer numbers), (chain_events answer numbers).
  subst r1 r2 rS. rewrite Hr1. cbn [fst snd]. rewrite Hr2, HrS, Hr2'. cbn [fst].
  destruct (chain_records_app answer B1 B2) as [Hb He].
  destruct (chain_records_Permutation answer _ _ Hperm) as [Hpb Hpe].
  rewrite <- Hb, <- He.
  repeat split; try assumption; now subst numbers.
Qed.

(** ** The properties at concrete inputs *)

Lemma cached_hash_never_changes_witness :
  block_hash_cache toy_after_batch !! 7 = Some (JStr "0x07") /\
  get_block_hash 7 toy_after_batch = (Ok (JStr "0x07"), toy_after_batch).
Proof.
  destruct (cached_hash_never_changes toy_client toy_after_lookup
              toy_after_batch 7 (JStr "0x07")) as (Hkept & Hagain & _).
  - right. split; reflexivity.
  - apply later_get_block_hashes_batch, later_now.
  - split; assumption.
Defined.

Lemma metadata_at_version_spec_witness :
  _decode_opaque_metadata "08abcd" = JStr "0xabcd".
Proof.
  destruct (metadata_at_version_spec JNull 15 toy_client "08abcd")
    as (_ & _ & _ & _ & _ & _ & _ & _ & H & _).
  destruct (H "0"%char "8"%char 0 8 "abcd") as (_ & Hdecode & _);
    [reflexivity..|].
  exact Hdecode.
Defined.

Lemma get_block_hashes_batch_spec_witness :
  exists hash_map,
    fst (get_block_hashes_batch [7; 9; 7] toy_after_lookup) = Ok hash_map /\
    NoDup hash_map.*1.
Proof.
  destruct (get_block_hashes_batch_spec [7; 9; 7] toy_after_lookup)
    as (_ & _ & _ & H & _).
  destruct H as ((hash_map & Hrun & Hnd & _) & _).
  - right. vm_compute. reflexivity.
  - exists hash_map. split; assumption.
Defined.

Lemma absent_hash_is_not_cached_witness :
  block_hash_cache (snd (get_block_hash (-3) toy_client)) !! (-3) = None.
Proof.
  destruct (absent_hash_is_not_cached toy_client (-3)) as (H & _).
  - reflexivity.
  - apply (H JNull). reflexivity.
Defined.

Lemma fetch_attempt_spec_witness :
  exists blocks events,
    _fetch_block_and_events_batch_impl toy_numbers toy_client
      = (Ok (blocks, events), toy_w3) /\
    (-2 ∉ BlockRecord.blockNumber <$> blocks) /\
    (-2 ∉ EventRecord.blockNumber <$> events).
Proof.
  destruct (fetch_attempt_spec toy_numbers toy_client) as [Hcontents Hreturns].
  destruct (Hreturns toy_hash_map toy_w1 toy_block_results toy_w2
              toy_event_results toy_w3) as (blocks & events & Hrun).
  - reflexivity.
  - reflexivity.
  - reflexivity.
  - intros bd Hbd _.
    repeat (apply elem_of_cons in Hbd as [->|Hbd]; [reflexivity|]).
    now apply elem_of_nil in Hbd.
  - exists blocks, events. split; [assumption|].
    destruct (Hcontents blocks events toy_w3 Hrun)
      as (hash_map & w1 & brs & w2 & ers & Hh & _ & _ & H).
    cbv zeta in H. destruct H as (_ & _ & _ & _ & _ & _ & _ & _ & Hnone).
    apply (Hnone (-2) JNull); [|reflexivity].
    assert (hash_map = toy_hash_map) as ->.
    { assert (get_block_hashes_batch toy_numbers toy_client
              = (Ok toy_hash_map, toy_w1)) as Hh' by reflexivity.
      congruence. }
    right. left.
Defined.

Lemma partition_invariance_witness :
  exists b1 e1 b2 e2 bS eS,
    fst (fetch_block_and_events_batch [1; -2] toy_client) = Ok (b1, e1) /\
    fst (fetch_block_and_events_batch [0; 4; 5] toy_client) = Ok (b2, e2) /\
    fst (fetch_block_and_events_batch [1; -2; 0; 4; 5] toy_client) = Ok (bS, eS) /\
    bS = b1 ++ b2 /\ eS = e1 ++ e2.
Proof.
  destruct (partition_invariance toy_chain [1; -2; 0; 4; 5] [1; -2] [0; 4; 5]
              toy_client)
    as (b1 & e1 & b2 & e2 & bS & eS & H1 & _ & HS & H2 & _ & _ & Heq).
  - apply serve_answers.
  - intros n h. unfold toy_client, fresh_client. cbn [block_hash_cache].
    rewrite lookup_empty. discriminate.
  - intros n Hn.
    repeat (apply elem_of_cons in Hn as [->|Hn]; [intros; reflexivity|]).
    now apply elem_of_nil in Hn.
  - apply (bool_decide_unpack _). vm_compute. reflexivity.
  - reflexivity.
  - exists b1, e1, b2, e2, bS, eS. destruct (Heq eq_refl). auto.
Defined.

(** C7, as stated, fails where block data is not well formed: the
    endpoint that serves the chain whose block 2 has no header answers
    every batch in full, so no network call fails.  The batch [[1; 2]]
    returns nothing and the batch [[3; 5]] returns the records of 3 and 5,
    while the one batch [[1; 2; 3; 5]] returns nothing at all, because every
    one of its attempts raises at block 2. *)
Lemma partition_fails_on_headerless_block :
  batches_answered (remote headerless_client) headerless_chain /\
  fst (fetch_block_and_events_batch [1; 2] headerless_client) = Ok ([], []) /\
  (BlockRecord.blockNumber <$>
     fst (returned ([], [])
            (fst (fetch_block_and_events_batch [3; 5]
                    (snd (fetch_block_and_events_batch [1; 2] headerless_client))))))
    = [3; 5] /\
  fst (fetch_block_and_events_batch [1; 2; 3; 5] headerless_client) = Ok ([], []).
Proof.
  split; [apply serve_answers|]. repeat split; vm_compute; reflexivity.
Qed.

Lemma output_sorted_by_block_number_witness :
  blocks_jsonl (fst (aggregate [second_batch; first_batch]))
  = blocks_jsonl (fst (aggregate [first_batch; second_batch])).
Proof.
  destruct (output_sorted_by_block_number [] [] toy_client) as (_ & _ & H).
  destruct (H [second_batch; first_batch] [first_batch; second_batch]) as [Hb _].
  - apply Permutation_swap.
  - apply Hb. apply (bool_decide_unpack _). vm_compute. reflexivity.
Defined.

(** ** [batch_call] on every reply *)

(** For a non-empty batch, [batch_call] sends one request and then either
    returns the filled slots (the reply is accepted) or raises [TypeError]
    (it is not).  A returned list has one slot per call; a slot holds the
    ["result"] of a reply item whose id is the slot's index, and [None]
    when there is no such item; a reply that is falsy or a single object
    fills no slot at all. *)
Lemma batch_call_on_reply calls w :
  calls <> [] ->
  let reply := remote w (trace w) (endpoint w) (batch_payload calls) in
  let results := fill_slots (length calls) (response_items reply) in
  fst (batch_call calls w) =
    (if response_accepted (length calls) reply then Ok results else Raise TypeError) /\
  length results = length calls /\
  (forall i v, results !! i = Some v ->
     (exists item, item ∈ response_items reply /\
                   item_slot (length calls) item = Some (i, v)) \/
     (v = JNull /\
      forall item, item ∈ response_items reply ->
        forall x, item_slot (length calls) item <> Some (i, x))) /\
  (py_truthy reply = false \/ (exists members, reply = JObj members) ->
   response_accepted (length calls) reply = true /\
   results = replicate (length calls) JNull).
Proof.
  intros Hne reply results. rewrite batch_call_nonempty by assumption.
  fold reply. cbn [fst]. split; [|split; [|split]].
  - destruct (response_accepted (length calls) reply) eqn:E.
    + now apply collect_results_accepted.
    + now apply collect_results_rejected.
  - apply fill_slots_length.
  - intros i v. apply fill_slots_slot.
  - intros [Hf | [members Hm]].
    + subst results. unfold response_items. rewrite Hf. split; [|reflexivity].
      destruct reply as [|[]| | | |[|]|]; try reflexivity; try discriminate;
        simpl in *; now rewrite Hf.
    + subst results. rewrite Hm. unfold response_items.
      split; [reflexivity|]. now destruct (py_truthy (JObj members)).
Qed.

(** Calls [A, B, C] answered in the order [C, B, A], each item under its
    own id, give [resultA, resultB, resultC]. *)
Example batch_call_reordered :
  fst (batch_call [("A", []); ("B", []); ("C", [])]
         (fresh_client (fun _ _ _ => reversed_reply)))
  = Ok [JStr "resultA"; JStr "resultB"; JStr "resultC"].
Proof. reflexivity. Qed.

(** On the small chain, block 0 has a block record and no event record,
    and the number -2, which has no hash, has neither. *)
Example attempt_on_toy_chain :
  exists blocks events,
    fst (_fetch_block_and_events_batch_impl toy_numbers toy_client)
      = Ok (blocks, events) /\
    BlockRecord.blockNumber <$> blocks = [1; 0] /\
    EventRecord.blockNumber <$> events = [1].
Proof. eexists _, _. repeat split. Qed.

(** The same numbers through the retry loop: block -2 never resolves, so
    all three attempts run, with delays of 1 and then 2 seconds. *)
Example retries_on_toy_chain :
  sleeps (trace (snd (fetch_block_and_events_batch toy_numbers toy_client)))
  = [1; 2].
Proof. reflexivity. Qed.

(** Eight of ten numbers resolve: the hash batch has ten entries, the block
    batch and the event batch eight each, and eight block records come
    back. *)
Example eight_of_ten_resolve :
  batch_sizes (trace (snd (_fetch_block_and_events_batch_impl ten_numbers toy_client)))
    = [10; 8; 8]%nat /\
  (BlockRecord.blockNumber <$>
     fst (returned ([], [])
            (fst (_fetch_block_and_events_batch_impl ten_numbers toy_client))))
    = [3; 4; 1; 5; 9; 6; 8; 7].
Proof. split; reflexivity. Qed.

(** An endpoint that fails every call of the first two attempts and
    answers on the third: the fetcher returns the full result after
    sleeping 1 and then 2 seconds. *)
Example third_attempt_succeeds :
  let final := fetch_block_and_events_batch [1; 2] (fresh_client flaky_then_toy) in
  (BlockRecord.blockNumber <$> fst (returned ([], []) (fst final))) = [1; 2] /\
  sleeps (trace (snd final)) = [1; 2].
Proof. split; reflexivity. Qed.

(** * Further properties *)

(** ** [expand_test_blocks] *)

Lemma py_range_elem start stop n : n ∈ py_range start stop <-> start <= n < stop.
Proof. unfold py_range. rewrite elem_of_seqZ. lia. Qed.

Lemma ofold_expand_items items acc :
  forallb well_formed_entry items = true ->
  ofold expand_item acc items = Ok (acc ++ concat (numbers_of <$> items)).
Proof.
  revert acc. induction items as [|item items IH]; intros acc Hwf.
  - simpl. now rewrite app_nil_r.
  - cbn [forallb] in Hwf. apply andb_true_iff in Hwf as [Hitem Hwf].
    cbn [ofold fmap list_fmap concat].
    destruct item as [n|[|start [|count [|x l]]]]; try discriminate;
      cbn [expand_item obind numbers_of]; rewrite IH by assumption;
      now rewrite <- app_assoc.
Qed.

Lemma ofold_expand_items_raises items acc :
  forallb well_formed_entry items = false ->
  ofold expand_item acc items = Raise ValueError.
Proof.
  revert acc. induction items as [|item items IH]; intros acc Hwf;
    [discriminate|].
  cbn [forallb] in Hwf. cbn [ofold].
  destruct item as [n|[|start [|count [|x l]]]]; try reflexivity;
    cbn [expand_item obind well_formed_entry andb] in *; now apply IH.
Qed.

Lemma well_formed_entries items :
  forallb well_formed_entry items = true <->
  (forall l, Listed l ∈ items -> length l = 2%nat).
Proof.
  rewrite forallb_forall. split.
  - intros H l Hl. apply list_elem_of_In, H in Hl.
    now destruct l as [|a [|b [|c l]]].
  - intros H item Hitem. apply list_elem_of_In in Hitem.
    destruct item as [n|l]; [reflexivity|].
    apply H in Hitem. now destruct l as [|a [|b [|c l]]].
Qed.

Lemma elem_of_concat {A} (x : A) (ls : list (list A)) :
  x ∈ concat ls <-> exists l, x ∈ l /\ l ∈ ls.
Proof.
  rewrite list_elem_of_In, in_concat. split.
  - intros (l & Hl & Hx). exists l. now rewrite !list_elem_of_In.
  - intros (l & Hx & Hl). exists l. now rewrite <- !list_elem_of_In.
Qed.

Lemma numbers_of_covered items n :
  forallb well_formed_entry items = true ->
  n ∈ concat (numbers_of <$> items) <-> covered items n.
Proof.
  intros Hwf. rewrite elem_of_concat. unfold covered. split.
  - intros (l & Hn & Hl). apply list_elem_of_fmap in Hl as (item & -> & Hitem).
    destruct item as [m|[|start [|count [|x l]]]]; cbn [numbers_of] in Hn;
      try (now apply elem_of_nil in Hn).
    + apply list_elem_of_singleton in Hn as ->. now left.
    + right. exists start, count. split; [assumption|].
      now apply py_range_elem in Hn.
  - intros [Hs | (start & count & Hl & Hn)].
    + exists [n]. split; [now left|]. apply list_elem_of_fmap.
      now exists (Single n).
    + exists (py_range start (start + count)). split; [now apply py_range_elem|].
      apply list_elem_of_fmap. now exists (Listed [start; count]).
Qed.

Lemma sorted_set_elem result n : n ∈ sorted_set result <-> n ∈ result.
Proof.
  unfold sorted_set. rewrite (py_sorted_Permutation (fun n => n)).
  apply elem_of_remove_dups.
Qed.

Lemma sorted_set_NoDup result : NoDup (sorted_set result).
Proof.
  unfold sorted_set. rewrite (py_sorted_Permutation (fun n => n)).
  apply NoDup_remove_dups.
Qed.

Lemma sorted_set_ascending result : StronglySorted Z.lt (sorted_set result).
Proof.
  pose proof (sorted_set_NoDup result) as Hnd.
  assert (Sorted Z.le (sorted_set result)) as Hs.
  { unfold sorted_set.
    pose proof (py_sorted_Sorted (fun n : Z => n) (remove_dups result)) as H.
    apply Sorted_keys in H. now rewrite list_fmap_id in H. }
  apply Sorted_StronglySorted in Hs; [|intros x y z; lia].
  induction Hs as [|x l Hl IH Hx]; constructor.
  - apply IH. now apply NoDup_cons in Hnd as [_ Hnd].
  - apply NoDup_cons in Hnd as [Hx' _].
    rewrite Forall_forall in Hx |- *. intros y Hy.
    assert (x <> y) by (intros ->; contradiction).
    specialize (Hx y Hy). lia.
Qed.

(** Two strictly ascending lists with the same elements are the same list. *)
Lemma ascending_unique (l k : list Z) :
  StronglySorted Z.lt l -> StronglySorted Z.lt k ->
  (forall n, n ∈ l <-> n ∈ k) -> l = k.
Proof.
  intros Hl. revert k. induction Hl as [|x l Hl IH Hx]; intros k Hk Hsame.
  - destruct k as [|y k]; [reflexivity|].
    exfalso. apply (not_elem_of_nil y), Hsame. now left.
  - destruct Hk as [|y k Hk Hy].
    { exfalso. apply (not_elem_of_nil x), Hsame. now left. }
    rewrite Forall_forall in Hx, Hy.
    assert (x = y) as ->.
    { assert (x ∈ y :: k) as Hxk by (apply Hsame; now left).
      assert (y ∈ x :: l) as Hyl by (apply Hsame; now left).
      apply elem_of_cons in Hxk as [?|Hxk]; [assumption|].
      apply elem_of_cons in Hyl as [?|Hyl]; [congruence|].
      specialize (Hx y Hyl). specialize (Hy x Hxk). lia. }
    f_equal. apply IH; [assumption|]. intros n. split; intros Hn.
    + assert (n ∈ y :: k) as H by (apply Hsame; now right).
      apply elem_of_cons in H as [->|H]; [|assumption].
      specialize (Hx y Hn). lia.
    + assert (n ∈ y :: l) as H by (apply Hsame; now right).
      apply elem_of_cons in H as [->|H]; [|assumption].
      specialize (Hy y Hn). lia.
Qed.

(** The sorted list of a set does not depend on the order in which the set
    is iterated. *)
Lemma sorted_set_order result elements :
  NoDup elements -> (forall n, n ∈ elements <-> n ∈ result) ->
  py_sorted (fun n => n) elements = sorted_set result.
Proof.
  intros Hnd Hsame. unfold sorted_set.
  apply py_sorted_order_independent.
  - now rewrite list_fmap_id.
  - apply NoDup_Permutation; [assumption | apply NoDup_remove_dups|].
    intros n. now rewrite Hsame, elem_of_remove_dups.
Qed.

Lemma expand_test_blocks_run items :
  expand_test_blocks items =
  if forallb well_formed_entry items
  then Ok (sorted_set (concat (numbers_of <$> items)))
  else Raise ValueError.
Proof.
  unfold expand_test_blocks. destruct (forallb well_formed_entry items) eqn:E.
  - now rewrite ofold_expand_items.
  - now rewrite ofold_expand_items_raises.
Qed.

Lemma seqZ_ascending m n : StronglySorted Z.lt (seqZ m n).
Proof.
  destruct (Z.le_gt_cases n 0) as [Hn|Hn]; [rewrite seqZ_nil by lia; constructor|].
  rewrite <- (Z2Nat.id n) by lia. generalize (Z.to_nat n) as k. clear n Hn.
  intros k. revert m. induction k as [|k IH]; intros m; [constructor|].
  rewrite seqZ_cons by lia. constructor.
  - replace (Z.pred (Z.of_nat (S k))) with (Z.of_nat k) by lia. apply IH.
  - apply Forall_seqZ. intros m'. lia.
Qed.

Lemma sorted_set_ascending_id l : StronglySorted Z.lt l -> sorted_set l = l.
Proof.
  intros Hl. apply ascending_unique; [apply sorted_set_ascending | assumption|].
  intros n. apply sorted_set_elem.
Qed.

Lemma expand_same_covered items items' out :
  expand_test_blocks items = Ok out ->
  forallb well_formed_entry items' = true ->
  (forall n, covered items n <-> covered items' n) ->
  expand_test_blocks items' = Ok out.
Proof.
  rewrite !expand_test_blocks_run. intros Hrun Hwf' Hsame. rewrite Hwf'.
  destruct (forallb well_formed_entry items) eqn:Hwf; [|discriminate].
  injection Hrun as <-. f_equal.
  apply ascending_unique; try apply sorted_set_ascending.
  intros n. rewrite !sorted_set_elem, !numbers_of_covered by assumption.
  symmetry. apply Hsame.
Qed.

(** X1: the list [expand_test_blocks] returns is strictly ascending, so it
    holds no block number twice. *)
Theorem expand_test_blocks_ascending (test_blocks : list test_block)
    (block_numbers : list Z) :
  expand_test_blocks test_blocks = Ok block_numbers ->
  StronglySorted Z.lt block_numbers /\ NoDup block_numbers.
Proof.
  rewrite expand_test_blocks_run.
  destruct (forallb well_formed_entry test_blocks); [|discriminate].
  intros [= <-]. split; [apply sorted_set_ascending | apply sorted_set_NoDup].
Qed.

(** X2: a number is in the list [expand_test_blocks] returns exactly when
    the manifest names it: as a single block number, or inside a range
    [[start, count]], which stands for [start .. start + count - 1]. *)
Theorem expand_test_blocks_covers (test_blocks : list test_block)
    (block_numbers : list Z) :
  expand_test_blocks test_blocks = Ok block_numbers ->
  forall n, n ∈ block_numbers <-> covered test_blocks n.
Proof.
  rewrite expand_test_blocks_run.
  destruct (forallb well_formed_entry test_blocks) eqn:Hwf; [|discriminate].
  intros [= <-] n. rewrite sorted_set_elem. now apply numbers_of_covered.
Qed.

(** X3: [expand_test_blocks] returns when every list entry has exactly two
    elements, and raises [ValueError] as soon as one list entry has not,
    whatever the other entries are. *)
Theorem expand_test_blocks_malformed (test_blocks : list test_block) :
  ((forall l, Listed l ∈ test_blocks -> length l = 2%nat) ->
   exists block_numbers, expand_test_blocks test_blocks = Ok block_numbers) /\
  (forall l, Listed l ∈ test_blocks -> length l <> 2%nat ->
   expand_test_blocks test_blocks = Raise ValueError).
Proof.
  rewrite expand_test_blocks_run. split.
  - intros H. apply well_formed_entries in H. rewrite H. eauto.
  - intros l Hl Hlen.
    destruct (forallb well_formed_entry test_blocks) eqn:Hwf; [|reflexivity].
    exfalso. apply Hlen. now apply (proj1 (well_formed_entries test_blocks) Hwf).
Qed.

(** X4: what [expand_test_blocks] returns depends only on the set of block
    numbers the manifest names: two manifests that name the same numbers,
    in any order, with any repetition and any split into ranges, expand to
    the same list.  In particular the expansion is idempotent: the returned
    list, read as a manifest of single numbers, expands to itself. *)
Theorem expand_test_blocks_canonical (test_blocks test_blocks' : list test_block)
    (block_numbers : list Z) :
  expand_test_blocks test_blocks = Ok block_numbers ->
  (forall l, Listed l ∈ test_blocks' -> length l = 2%nat) ->
  (forall n, covered test_blocks n <-> covered test_blocks' n) ->
  expand_test_blocks test_blocks' = Ok block_numbers /\
  expand_test_blocks (Single <$> block_numbers) = Ok block_numbers.
Proof.
  intros Hrun Hwf Hsame. split.
  - eapply expand_same_covered; [eassumption | now apply well_formed_entries|].
    assumption.
  - rewrite expand_test_blocks_run in *.
    destruct (forallb well_formed_entry test_blocks); [|discriminate].
    injection Hrun as <-.
    assert (forallb well_formed_entry (Single <$> sorted_set (concat (numbers_of <$> test_blocks))) = true) as ->.
    { apply forallb_forall. intros item Hitem.
      apply list_elem_of_In, list_elem_of_fmap in Hitem as (n & -> & _).
      reflexivity. }
    f_equal. rewrite <- list_fmap_compose.
    apply ascending_unique; try apply sorted_set_ascending.
    intros n. rewrite sorted_set_elem, elem_of_concat. split.
    + intros (l & Hn & Hl). apply list_elem_of_fmap in Hl as (m & -> & Hm).
      cbn in Hn. now apply list_elem_of_singleton in Hn as ->.
    + intros Hn. exists [n]. split; [now left|].
      apply list_elem_of_fmap. now exists n.
Qed.

(** X5: a manifest that is one range [[start, count]] expands to the [count]
    consecutive numbers from [start] on, and to nothing when [count] is
    zero or negative. *)
Theorem expand_test_blocks_range (start count : Z) :
  expand_test_blocks [Listed [start; count]] = Ok (seqZ start count) /\
  length (seqZ start count) = Z.to_nat count.
Proof.
  split; [|apply length_seqZ].
  rewrite expand_test_blocks_run. cbn [forallb well_formed_entry andb].
  f_equal. cbn. rewrite app_nil_r. unfold py_range.
  replace (start + count - start) with count by lia.
  apply sorted_set_ascending_id, seqZ_ascending.
Qed.

(** ** The batches of [fetch_blocks_parallel] *)

Lemma concat_batches (l : list Z) m :
  concat (map (fun k => take BATCH_SIZE (drop (k * BATCH_SIZE) l)) (seq 0 m))
  = take (m * BATCH_SIZE) l.
Proof.
  induction m as [|m IH]; [reflexivity|].
  rewrite seq_S, map_app, concat_app, IH. cbn [map concat plus].
  rewrite app_nil_r, take_take_drop. f_equal. lia.
Qed.

Lemma batches_of_length (bns : list Z) :
  length (batches_of bns) = ((length bns + BATCH_SIZE - 1) / BATCH_SIZE)%nat.
Proof. unfold batches_of. now rewrite length_map, length_seq. Qed.

Lemma batches_of_lookup (bns : list Z) i b :
  batches_of bns !! i = Some b ->
  b = take BATCH_SIZE (drop (i * BATCH_SIZE) bns) /\
  (i * BATCH_SIZE < length bns)%nat.
Proof.
  unfold batches_of. change (map ?f ?l) with (f <$> l).
  rewrite list_lookup_fmap. intros H.
  destruct (seq 0 _ !! i) as [k|] eqn:E; [|discriminate].
  apply lookup_seq in E as [-> Hlt]. injection H as <-.
  split; [reflexivity|]. unfold BATCH_SIZE in *.
  pose proof (Nat.div_mod_eq (length bns + 4 - 1) 4).
  pose proof (Nat.mod_upper_bound (length bns + 4 - 1) 4). lia.
Qed.

(** X6: the batches of [fetch_blocks_parallel] split the block numbers
    without losing, repeating or reordering any: put one after the other
    they give the list back.  No batch is empty, none holds more than
    [BATCH_SIZE] numbers, and every batch but the last holds exactly
    [BATCH_SIZE]. *)
Theorem batches_of_partition (block_numbers : list Z) :
  concat (batches_of block_numbers) = block_numbers /\
  Forall (fun batch => (0 < length batch <= BATCH_SIZE)%nat)
    (batches_of block_numbers) /\
  (forall i batch,
     batches_of block_numbers !! i = Some batch ->
     (S i < length (batches_of block_numbers))%nat ->
     length batch = BATCH_SIZE).
Proof.
  split; [|split].
  - unfold batches_of. rewrite concat_batches. apply take_ge.
    unfold BATCH_SIZE.
    pose proof (Nat.div_mod_eq (length block_numbers + 4 - 1) 4).
    pose proof (Nat.mod_upper_bound (length block_numbers + 4 - 1) 4). lia.
  - apply Forall_lookup. intros i batch Hi.
    apply batches_of_lookup in Hi as [-> Hlt].
    rewrite length_take, length_drop. unfold BATCH_SIZE in *. lia.
  - intros i batch Hi Hnext. rewrite batches_of_length in Hnext.
    apply batches_of_lookup in Hi as [-> Hlt].
    rewrite length_take, length_drop. unfold BATCH_SIZE in *.
    pose proof (Nat.div_mod_eq (length block_numbers + 4 - 1) 4).
    pose proof (Nat.mod_upper_bound (length block_numbers + 4 - 1) 4). lia.
Qed.

(** ** The requests of the fetcher *)

Lemma net_calls_app t1 t2 : net_calls (t1 ++ t2) = net_calls t1 ++ net_calls t2.
Proof. unfold net_calls. apply omap_app. Qed.

Lemma runs_within_refl bound n w : runs_within bound n w w.
Proof.
  repeat split. exists []. rewrite app_nil_r. repeat split; [cbn; lia | constructor].
Qed.

Lemma runs_within_trans bound n1 n2 w w' w'' :
  runs_within bound n1 w w' -> runs_within bound n2 w' w'' ->
  runs_within bound (n1 + n2) w w''.
Proof.
  intros (He1 & Hr1 & a1 & Ht1 & Hn1 & Hf1) (He2 & Hr2 & a2 & Ht2 & Hn2 & Hf2).
  split; [congruence|]. split; [congruence|].
  exists (a1 ++ a2). split; [now rewrite Ht2, Ht1, app_assoc|].
  split; [rewrite net_calls_app, length_app; lia|].
  apply Forall_app. split; [assumption|]. now rewrite <- He1.
Qed.

Lemma runs_within_weaken bound bound' n n' w w' :
  (bound <= bound')%nat -> (n <= n')%nat ->
  runs_within bound n w w' -> runs_within bound' n' w w'.
Proof.
  intros Hb Hn (He & Hr & a & Ht & Hl & Hf).
  split; [assumption|]. split; [assumption|]. exists a.
  split; [assumption|]. split; [lia|].
  eapply Forall_impl; [exact Hf|]. intros [ep p|s]; cbn; [|tauto].
  intros (-> & calls & -> & Hc). split; [reflexivity|]. exists calls.
  split; [reflexivity | lia].
Qed.

Lemma runs_within_sleep bound w s :
  s = 1 \/ s = 2 -> runs_within bound 0 w (record_event (Sleep s) w).
Proof.
  intros Hs. repeat split. exists [Sleep s]. repeat split; [constructor|].
  constructor; [exact Hs | constructor].
Qed.

Lemma batch_call_runs_within calls w :
  runs_within (length calls) 1 w (snd (batch_call calls w)).
Proof.
  rewrite batch_call_world. destruct calls as [|c calls].
  - apply runs_within_refl.
  - repeat split. eexists [_]. split; [reflexivity|]. split; [cbn; lia|].
    constructor; [|constructor]. split; [reflexivity|].
    exists (c :: calls). split; [reflexivity|]. cbn. lia.
Qed.

Lemma keys_in_order_length bns : (length (keys_in_order bns) <= length bns)%nat.
Proof.
  unfold keys_in_order.
  assert (forall keys, (length (foldl add_key keys bns)
                        <= length keys + length bns)%nat) as H.
  { induction bns as [|bn bns IH]; intros keys; simpl; [lia|].
    etransitivity; [apply IH|]. unfold add_key.
    destruct (decide (bn ∈ keys)); rewrite ?length_app; simpl; lia. }
  apply (H []).
Qed.

Lemma get_block_hashes_batch_runs_within bns w :
  runs_within (length bns) 1 w (snd (get_block_hashes_batch bns w)).
Proof.
  rewrite get_block_hashes_batch_run.
  destruct (uncached_of (block_hash_cache w) bns) as [|u us] eqn:E.
  - apply runs_within_refl.
  - pose proof (batch_call_runs_within (hash_calls (u :: us)) w) as H.
    assert (length (hash_calls (u :: us)) <= length bns)%nat as Hlen.
    { unfold hash_calls. rewrite length_map, <- E. unfold uncached_of.
      apply length_filter. }
    eapply runs_within_weaken in H; [|exact Hlen|reflexivity].
    destruct (batch_call (hash_calls (u :: us)) w) as [[results|e] w1];
      exact H.
Qed.

Lemma valid_blocks_length bns w hash_map w1 :
  get_block_hashes_batch bns w = (Ok hash_map, w1) ->
  (length (valid_blocks_of hash_map) <= length bns)%nat.
Proof.
  intros H. apply get_block_hashes_batch_returns in H as ->.
  unfold valid_blocks_of. etransitivity; [apply length_filter|].
  rewrite <- (length_fmap fst), hash_map_of_fst. apply keys_in_order_length.
Qed.

(** One attempt: at most three batch requests, none larger than the list
    of block numbers. *)
Lemma impl_runs_within bns w :
  runs_within (length bns) 3 w (snd (_fetch_block_and_events_batch_impl bns w)).
Proof.
  rewrite impl_run.
  pose proof (get_block_hashes_batch_runs_within bns w) as H1.
  pose proof (valid_blocks_length bns w) as Hlen.
  destruct (get_block_hashes_batch bns w) as [[hash_map|e] w1]; cbn [snd] in *.
  2: { eapply runs_within_weaken; [| |exact H1]; lia. }
  specialize (Hlen _ _ eq_refl).
  destruct (valid_blocks_of hash_map) as [|v vs] eqn:Ev.
  { eapply runs_within_weaken; [| |exact H1]; lia. }
  pose proof (batch_call_runs_within (block_calls (v :: vs)) w1) as H2.
  eapply runs_within_weaken in H2;
    [|unfold block_calls; rewrite length_map; exact Hlen|reflexivity].
  pose proof (runs_within_trans _ _ _ _ _ _ H1 H2) as H12.
  destruct (batch_call (block_calls (v :: vs)) w1) as [[brs|e] w2]; cbn [snd] in *.
  2: { eapply runs_within_weaken; [| |exact H12]; lia. }
  pose proof (batch_call_runs_within (event_calls (v :: vs)) w2) as H3.
  eapply runs_within_weaken in H3;
    [|unfold event_calls; rewrite length_map; exact Hlen|reflexivity].
  pose proof (runs_within_trans _ _ _ _ _ _ H12 H3) as H123.
  destruct (batch_call (event_calls (v :: vs)) w2) as [[ers|e] w3]; exact H123.
Qed.

Lemma fetch_runs_within bns w :
  runs_within (length bns) 9 w (snd (fetch_block_and_events_batch bns w)).
Proof.
  rewrite retry_loop_unrolled. cbv zeta.
  set (attempt := _fetch_block_and_events_batch_impl bns).
  pose proof (impl_runs_within bns w) as H1. fold attempt in H1.
  set (w1 := snd (attempt w)) in *.
  set (w1' := record_event (Sleep (RETRY_DELAY * 1)) w1).
  pose proof (impl_runs_within bns w1') as H2. fold attempt in H2.
  set (w2 := snd (attempt w1')) in *.
  set (w2' := record_event (Sleep (RETRY_DELAY * 2)) w2).
  pose proof (impl_runs_within bns w2') as H3. fold attempt in H3.
  set (w3 := snd (attempt w2')) in *.
  assert (runs_within (length bns) 6 w w2) as H12.
  { apply (runs_within_trans _ 3 3 w w1' w2); [|exact H2].
    apply (runs_within_trans _ 3 0 w w1 w1'); [exact H1|].
    apply runs_within_sleep. now left. }
  assert (runs_within (length bns) 9 w w3) as H123.
  { apply (runs_within_trans _ 6 3 w w2' w3); [|exact H3].
    apply (runs_within_trans _ 6 0 w w2 w2'); [exact H12|].
    apply runs_within_sleep. now right. }
  destruct (complete bns (fst (attempt w))); cbn [snd].
  { eapply runs_within_weaken; [| |exact H1]; lia. }
  destruct (complete bns (fst (attempt w1'))); cbn [snd].
  { eapply runs_within_weaken; [| |exact H12]; lia. }
  exact H123.
Qed.

Lemma run_batches_runs_within order bns w :
  runs_within BATCH_SIZE (9 * length order) w
    (snd (run_batches order (batches_of bns) w)).
Proof.
  revert w. induction order as [|i order IH]; intros w; cbn [run_batches].
  - apply runs_within_refl.
  - destruct (batches_of bns !! i) as [batch|] eqn:Hi.
    + unfold bind at 1.
      pose proof (fetch_runs_within batch w) as H1.
      destruct (fetch_never_raises batch w) as [be Hbe].
      destruct (fetch_block_and_events_batch batch w) as [r w1].
      cbn [fst snd] in *. subst r. unfold bind at 1.
      specialize (IH w1).
      destruct (run_batches_never_raises order (batches_of bns) w1) as [rs Hrs].
      destruct (run_batches order (batches_of bns) w1) as [r w2].
      cbn [fst snd] in *. subst r. cbn [ret snd].
      apply batches_of_lookup in Hi as [-> _].
      apply (runs_within_weaken _ BATCH_SIZE 9 9) in H1;
        [|rewrite length_take; lia|lia].
      eapply runs_within_weaken; [| |eapply runs_within_trans; [exact H1|exact IH]].
      * lia.
      * cbn [length]. lia.
    + eapply runs_within_weaken; [| |apply IH]; cbn [length]; lia.
Qed.

(** X7: whatever the endpoint replies, one call of
    [fetch_block_and_events_batch] sends at most nine requests (three
    attempts of at most three), every one of them a batch request to the
    pinned endpoint with at least one call and no more calls than there are
    block numbers; besides the requests it only sleeps, for one or for two
    seconds.  It never changes the endpoint the client is pinned to. *)
Theorem fetch_requests_bounded (block_numbers : list Z) (w : world) :
  let w' := snd (fetch_block_and_events_batch block_numbers w) in
  endpoint w' = endpoint w /\
  exists added,
    trace w' = trace w ++ added /\
    (length (net_calls added) <= 9)%nat /\
    Forall (fetcher_event (endpoint w) (length block_numbers)) added.
Proof.
  cbv zeta.
  destruct (fetch_runs_within block_numbers w) as (He & _ & added & H).
  split; [assumption|]. now exists added.
Qed.

(** X8: whatever the endpoint replies and in whatever order the batches
    complete, [fetch_blocks_parallel] returns (no exception of a worker
    reaches it), no request it sends carries more than [BATCH_SIZE] calls,
    every request goes to the endpoint the client is pinned to, and there
    are at most nine requests for every batch that is run. *)
Theorem fetch_blocks_parallel_requests (completion_order : list nat)
    (block_numbers : list Z) (w : world) :
  let w' := snd (fetch_blocks_parallel completion_order block_numbers w) in
  (exists blocks events,
     fst (fetch_blocks_parallel completion_order block_numbers w)
       = Ok (blocks, events)) /\
  endpoint w' = endpoint w /\
  exists added,
    trace w' = trace w ++ added /\
    (length (net_calls added) <= 9 * length completion_order)%nat /\
    Forall (fetcher_event (endpoint w) BATCH_SIZE) added.
Proof.
  cbv zeta. unfold fetch_blocks_parallel, bind.
  pose proof (run_batches_runs_within completion_order block_numbers w) as H.
  destruct (run_batches_never_raises completion_order (batches_of block_numbers) w)
    as [rs Hrs].
  destruct (run_batches completion_order (batches_of block_numbers) w) as [r w1].
  cbn [fst snd] in *. subst r. cbn [ret fst snd].
  destruct H as (He & _ & added & H).
  split; [destruct (aggregate rs) as [blocks events]; eauto|].
  split; [assumption|]. now exists added.
Qed.

(** ** The order of the records and repeated block numbers *)

Lemma impl_record_order bns w blocks events w3 :
  _fetch_block_and_events_batch_impl bns w = (Ok (blocks, events), w3) ->
  BlockRecord.blockNumber <$> blocks `sublist_of` keys_in_order bns /\
  EventRecord.blockNumber <$> events `sublist_of` keys_in_order bns.
Proof.
  intros Hrun.
  destruct (impl_returned_steps _ _ _ _ _ Hrun)
    as (hash_map & w1 & brs & w2 & ers & Hh & Hb & He & Hwf).
  destruct (impl_returns _ _ _ _ _ _ _ _ Hh Hb He Hwf)
    as (blocks' & events' & Hrun' & Hblocks & Hevents).
  rewrite Hrun in Hrun'. injection Hrun' as <- <-.
  set (valid := valid_blocks_of hash_map) in *.
  set (rows := zip valid (zip brs ers)) in *.
  assert (length brs = length valid) as Lb.
  { rewrite (batch_call_length _ _ _ _ Hb). apply length_map. }
  assert (length ers = length valid) as Le.
  { rewrite (batch_call_length _ _ _ _ He). apply length_map. }
  assert ((fun row : (Z * json) * (json * json) => fst (fst row)) <$> rows
          = valid.*1) as Hrows.
  { change (fun row : (Z * json) * (json * json) => fst (fst row))
      with (fst ∘ (@fst (Z * json) (json * json))).
    rewrite list_fmap_compose. f_equal. apply fst_zip.
    rewrite length_zip_with. lia. }
  assert (valid.*1 `sublist_of` keys_in_order bns) as Hvalid.
  { rewrite <- (hash_map_of_fst (block_hash_cache w1) bns).
    rewrite <- (get_block_hashes_batch_returns _ _ _ _ Hh).
    apply fmap_sublist, sublist_filter. }
  split.
  - rewrite (block_rows_keys _ _ Hblocks). etransitivity; [|exact Hvalid].
    rewrite <- Hrows. apply fmap_sublist, sublist_filter.
  - rewrite Hevents, <- list_fmap_compose. etransitivity; [|exact Hvalid].
    rewrite <- Hrows. apply fmap_sublist, sublist_filter.
Qed.

Lemma keys_in_order_short bns :
  ~ NoDup bns -> (length (keys_in_order bns) < length bns)%nat.
Proof.
  intros Hdup. destruct (le_lt_dec (length bns) (length (keys_in_order bns)))
    as [Hle|Hlt]; [|assumption].
  exfalso. apply Hdup.
  assert (keys_in_order bns ⊆+ bns) as Hsub.
  { apply NoDup_submseteq; [apply keys_in_order_NoDup|].
    intros x. apply keys_in_order_elem. }
  rewrite <- (submseteq_length_Permutation _ _ Hsub Hle).
  apply keys_in_order_NoDup.
Qed.

Lemma fetch_returns_an_attempt bns w :
  (exists w0 w', _fetch_block_and_events_batch_impl bns w0
                 = (fst (fetch_block_and_events_batch bns w), w')) \/
  fst (fetch_block_and_events_batch bns w) = Ok ([], []).
Proof.
  rewrite retry_loop_unrolled. cbv zeta.
  set (attempt := _fetch_block_and_events_batch_impl bns).
  destruct (complete bns (fst (attempt w))).
  { left. exists w, (snd (attempt w)). now destruct (attempt w). }
  match goal with |- context [complete bns (fst (attempt ?w1))] =>
    destruct (complete bns (fst (attempt w1)));
      [left; exists w1, (snd (attempt w1)); now destruct (attempt w1)|] end.
  match goal with |- context [match fst (attempt ?w2) with _ => _ end] =>
    destruct (attempt w2) as [[be|e] w3] eqn:E; cbn [fst];
      [left; exists w2, w3; exact E | now right] end.
Qed.

(** X9: the block records and the event records that
    [fetch_block_and_events_batch] returns come in the order of the
    requested block numbers (the order of first occurrence) and hold no
    block number twice, whatever the order of the items in the replies. *)
Theorem fetched_records_in_request_order (block_numbers : list Z) (w : world) :
  exists blocks events,
    fst (fetch_block_and_events_batch block_numbers w) = Ok (blocks, events) /\
    BlockRecord.blockNumber <$> blocks `sublist_of` keys_in_order block_numbers /\
    EventRecord.blockNumber <$> events `sublist_of` keys_in_order block_numbers /\
    NoDup (BlockRecord.blockNumber <$> blocks) /\
    NoDup (EventRecord.blockNumber <$> events) /\
    (NoDup block_numbers -> keys_in_order block_numbers = block_numbers).
Proof.
  assert (forall blocks events,
    BlockRecord.blockNumber <$> blocks `sublist_of` keys_in_order block_numbers /\
    EventRecord.blockNumber <$> events `sublist_of` keys_in_order block_numbers ->
    BlockRecord.blockNumber <$> blocks `sublist_of` keys_in_order block_numbers /\
    EventRecord.blockNumber <$> events `sublist_of` keys_in_order block_numbers /\
    NoDup (BlockRecord.blockNumber <$> blocks) /\
    NoDup (EventRecord.blockNumber <$> events) /\
    (NoDup block_numbers -> keys_in_order block_numbers = block_numbers)) as Hall.
  { intros blocks events [Hb He].
    split; [assumption|]. split; [assumption|].
    split; [eapply sublist_NoDup; [apply keys_in_order_NoDup | exact Hb]|].
    split; [eapply sublist_NoDup; [apply keys_in_order_NoDup | exact He]|].
    apply keys_in_order_id. }
  destruct (fetch_returns_an_attempt block_numbers w) as [(w0 & w' & Hrun)|Hrun].
  - destruct (fetch_never_raises block_numbers w) as [[blocks events] Hbe].
    rewrite Hbe in Hrun. exists blocks, events. split; [assumption|].
    apply Hall. eapply impl_record_order, Hrun.
  - exists [], []. split; [assumption|]. apply Hall.
    split; apply sublist_nil_l.
Qed.

(** X10: when a block number is requested twice in one batch, no attempt
    can produce as many block records as there are requested numbers, so
    [fetch_block_and_events_batch] always runs its three attempts, sleeps
    for one and then for two seconds, and returns what the third attempt
    returns (two empty lists if it raises). *)
Theorem repeated_number_forces_all_attempts (block_numbers : list Z) (w : world) :
  ~ NoDup block_numbers ->
  let attempt := _fetch_block_and_events_batch_impl block_numbers in
  let w1' := record_event (Sleep 1) (snd (attempt w)) in
  let w2' := record_event (Sleep 2) (snd (attempt w1')) in
  fetch_block_and_events_batch block_numbers w =
    (match fst (attempt w2') with Ok be => Ok be | Raise _ => Ok ([], []) end,
     snd (attempt w2')) /\
  sleeps (trace (snd (fetch_block_and_events_batch block_numbers w)))
    = sleeps (trace w) ++ [1; 2].
Proof.
  intros Hdup attempt w1' w2'.
  assert (forall w0, complete block_numbers (fst (attempt w0)) = false) as Hinc.
  { intros w0. destruct (attempt w0) as [[[blocks events]|e] w0'] eqn:E;
      [|reflexivity].
    cbn [fst complete]. apply Nat.eqb_neq.
    apply impl_record_order in E as [Hb _]. apply sublist_length in Hb.
    rewrite length_fmap in Hb.
    pose proof (keys_in_order_short _ Hdup). lia. }
  assert (fetch_block_and_events_batch block_numbers w =
    (match fst (attempt w2') with Ok be => Ok be | Raise _ => Ok ([], []) end,
     snd (attempt w2'))) as Hrun.
  { rewrite retry_loop_unrolled. cbv zeta. fold attempt.
    rewrite Hinc. change (RETRY_DELAY * 1) with 1. fold w1'.
    rewrite Hinc. reflexivity. }
  split; [exact Hrun|]. rewrite Hrun. cbn [snd].
  assert (sleeps (trace (snd (attempt w))) = sleeps (trace w)) as S1
    by apply impl_sleeps.
  assert (sleeps (trace (snd (attempt w1'))) = sleeps (trace w) ++ [1]) as S2.
  { unfold attempt. rewrite impl_sleeps. unfold w1'. simpl.
    now rewrite sleeps_app, S1. }
  unfold attempt. rewrite impl_sleeps. unfold w2'. simpl.
  rewrite sleeps_app, S2, <- app_assoc. reflexivity.
Qed.

(** ** The whole fetch behind an endpoint that does not fail *)

Lemma batches_of_sublist (bns : list Z) b :
  b ∈ batches_of bns -> b `sublist_of` bns.
Proof.
  intros Hb. apply list_elem_of_lookup in Hb as [i Hi].
  apply batches_of_lookup in Hi as [-> _].
  etransitivity; [apply sublist_take | apply sublist_drop].
Qed.

Lemma run_batches_ideal answer order batches w :
  batches_answered (remote w) answer ->
  cache_agrees answer (block_hash_cache w) ->
  Forall (fun b => NoDup b /\ chain_well_formed answer b) batches ->
  exists w1,
    run_batches order batches w
    = (Ok ((fun b => (chain_blocks answer b, chain_events answer b))
             <$> omap (fun i => batches !! i) order), w1).
Proof.
  intros Hsrv Hc Hall. revert w Hsrv Hc.
  induction order as [|i order IH]; intros w Hsrv Hc; cbn [run_batches omap list_omap].
  - now exists w.
  - destruct (batches !! i) as [b|] eqn:Hi; [|now apply IH].
    rewrite Forall_lookup in Hall. destruct (Hall i b Hi) as [Hnd Hok].
    destruct (fetch_ideal answer b w Hsrv Hc Hnd Hok) as (w1 & Hrun & Hr & _ & Hc1).
    unfold bind at 1. rewrite Hrun. unfold bind at 1.
    destruct (IH w1) as [w2 Hrest]; [now rewrite Hr | assumption|].
    rewrite Hrest. now exists w2.
Qed.

Lemma omap_lookup_seq {A} (l : list A) :
  omap (fun i => l !! i) (seq 0 (length l)) = l.
Proof.
  assert (forall pre : list A,
    omap (fun i => (pre ++ l) !! i) (seq (length pre) (length l)) = l) as H.
  { induction l as [|x l IH]; intros pre; [reflexivity|].
    cbn [length seq omap list_omap].
    rewrite list_lookup_middle by reflexivity. f_equal.
    specialize (IH (pre ++ [x])). rewrite length_app, Nat.add_1_r in IH.
    rewrite <- app_assoc in IH. exact IH. }
  apply (H []).
Qed.

Lemma concat_chain_records answer (batches : list (list Z)) :
  concat (chain_blocks answer <$> batches) = chain_blocks answer (concat batches) /\
  concat (chain_events answer <$> batches) = chain_events answer (concat batches).
Proof.
  induction batches as [|b batches [IHb IHe]]; [now split|].
  cbn [fmap list_fmap concat].
  destruct (chain_records_app answer b (concat batches)) as [-> ->].
  now rewrite IHb, IHe.
Qed.

Lemma py_sorted_sorted {A} (key : A -> Z) (l : list A) :
  Sorted (key_le key) l -> py_sorted key l = l.
Proof.
  induction 1 as [|x l Hl IH Hx]; [reflexivity|].
  cbn [py_sorted foldr]. change (foldr (insert_by key) [] l) with (py_sorted key l).
  rewrite IH. destruct Hx as [|y l Hxy]; [reflexivity|].
  cbn [insert_by]. unfold key_le in Hxy.
  now rewrite (proj2 (Z.leb_le _ _) Hxy).
Qed.

Lemma sublist_ascending (l k : list Z) :
  l `sublist_of` k -> StronglySorted Z.lt k -> StronglySorted Z.lt l.
Proof.
  induction 1 as [|x l k Hsub IH|x l k Hsub IH]; intros Hk.
  - constructor.
  - apply StronglySorted_inv in Hk as [Hk Hx]. constructor; [now apply IH|].
    rewrite Forall_forall in Hx |- *. intros y Hy. apply Hx.
    eapply elem_of_sublist; eassumption.
  - apply StronglySorted_inv in Hk as [Hk _]. now apply IH.
Qed.

Lemma ascending_keys_sorted {A} (key : A -> Z) (l : list A) :
  StronglySorted Z.lt (key <$> l) -> Sorted (key_le key) l.
Proof.
  induction l as [|x l IH]; [constructor|].
  rewrite fmap_cons. intros H. apply StronglySorted_inv in H as [Hl Hx].
  constructor; [now apply IH|].
  destruct l as [|y l]; constructor. unfold key_le.
  rewrite fmap_cons in Hx. apply Forall_cons in Hx as [Hxy _]. lia.
Qed.

Lemma chain_record_numbers answer (numbers : list Z) :
  BlockRecord.blockNumber <$> chain_blocks answer numbers `sublist_of` numbers /\
  EventRecord.blockNumber <$> chain_events answer numbers `sublist_of` numbers.
Proof.
  unfold chain_blocks, chain_events, resolved.
  induction numbers as [|n numbers [IHb IHe]]; [split; constructor|].
  rewrite filter_cons. destruct (decide (py_truthy (hash_of answer n) = true)).
  - cbn [omap list_omap]. split.
    + destruct (py_truthy (block_of answer n)); [|now apply sublist_cons].
      destruct (make_block_record n (block_of answer n)) as [r|err] eqn:E;
        [|now apply sublist_cons].
      rewrite fmap_cons, (make_block_record_number _ _ _ E).
      now apply sublist_skip.
    + destruct (py_truthy (events_of answer n)); [|now apply sublist_cons].
      rewrite fmap_cons. now apply sublist_skip.
  - split; now apply sublist_cons.
Qed.

Lemma expand_test_blocks_sorted_set items out :
  expand_test_blocks items = Ok out -> StronglySorted Z.lt out /\ NoDup out.
Proof.
  rewrite expand_test_blocks_run.
  destruct (forallb well_formed_entry items); [|discriminate].
  intros [= <-]. split; [apply sorted_set_ascending | apply sorted_set_NoDup].
Qed.

Lemma written_records_ideal answer (numbers : list Z) (batches' : list (list Z)) :
  StronglySorted Z.lt numbers ->
  batches' ≡ₚ batches_of numbers ->
  blocks_jsonl (concat (chain_blocks answer <$> batches'))
    = chain_blocks answer numbers /\
  events_jsonl (concat (chain_events answer <$> batches'))
    = chain_events answer numbers.
Proof.
  intros Hasc Hperm.
  assert (concat (batches_of numbers) = numbers) as Hcat.
  { unfold batches_of. rewrite concat_batches. apply take_ge. unfold BATCH_SIZE.
    pose proof (Nat.div_mod_eq (length numbers + 4 - 1) 4).
    pose proof (Nat.mod_upper_bound (length numbers + 4 - 1) 4). lia. }
  destruct (concat_chain_records answer (batches_of numbers)) as [Hb He].
  rewrite Hcat in Hb, He.
  destruct (chain_record_numbers answer numbers) as [Sb Se].
  pose proof (sublist_ascending _ _ Sb Hasc) as Ab.
  pose proof (sublist_ascending _ _ Se Hasc) as Ae.
  assert (NoDup numbers) as Hnd.
  { clear -Hasc. induction Hasc as [|x l Hl IH Hx]; constructor; [|assumption].
    intros Hin. rewrite Forall_forall in Hx. specialize (Hx x Hin). lia. }
  unfold blocks_jsonl, events_jsonl. split.
  - rewrite <- (py_sorted_order_independent BlockRecord.blockNumber
                  (chain_blocks answer numbers)).
    + now apply py_sorted_sorted, ascending_keys_sorted.
    + eapply sublist_NoDup; eassumption.
    + rewrite <- Hb. apply concat_Permutation_proper. now rewrite Hperm.
  - rewrite <- (py_sorted_order_independent EventRecord.blockNumber
                  (chain_events answer numbers)).
    + now apply py_sorted_sorted, ascending_keys_sorted.
    + eapply sublist_NoDup; eassumption.
    + rewrite <- He. apply concat_Permutation_proper. now rewrite Hperm.
Qed.

(** X11: the whole fetch of [main] behind an endpoint that answers every
    batch in full.  For the block numbers of a manifest, with a cache that
    holds only hashes of the chain and block data that is well formed where
    there is any, the lines written to [blocks.jsonl] are exactly one block
    record for every manifest number that has a hash and block data, in
    ascending order of block number, and the lines of [events.jsonl] are
    one event record for every number that has a hash and event storage,
    in ascending order, in whatever order the batches complete. *)
Theorem fetch_and_write_on_answering_endpoint
    (answer : string -> list json -> json) (test_blocks : list test_block)
    (block_numbers : list Z) (completion_order : list nat) (w : world) :
  expand_test_blocks test_blocks = Ok block_numbers ->
  batches_answered (remote w) answer ->
  cache_agrees answer (block_hash_cache w) ->
  chain_well_formed answer block_numbers ->
  completion_order ≡ₚ seq 0 (length (batches_of block_numbers)) ->
  fst (main_fetch_and_write completion_order block_numbers w)
  = Ok (chain_blocks answer block_numbers, chain_events answer block_numbers).
Proof.
  intros Hexp Hsrv Hc Hok Horder.
  apply expand_test_blocks_sorted_set in Hexp as [Hasc Hnd].
  assert (Forall (fun b => NoDup b /\ chain_well_formed answer b)
            (batches_of block_numbers)) as Hall.
  { apply Forall_forall. intros b Hb. apply batches_of_sublist in Hb. split.
    - eapply sublist_NoDup; eassumption.
    - intros n Hn. apply Hok. eapply elem_of_sublist; eassumption. }
  destruct (run_batches_ideal answer completion_order _ w Hsrv Hc Hall)
    as [w1 Hrun].
  unfold main_fetch_and_write, fetch_blocks_parallel, bind. rewrite Hrun.
  cbn [ret fst snd]. rewrite aggregate_concat. cbn [fst snd].
  rewrite <- !list_fmap_compose.
  set (batches' := omap (fun i => batches_of block_numbers !! i) completion_order).
  assert (batches' ≡ₚ batches_of block_numbers) as Hperm.
  { unfold batches'.
    transitivity (omap (fun i => batches_of block_numbers !! i)
                    (seq 0 (length (batches_of block_numbers)))).
    - now apply omap_Permutation_proper.
    - now rewrite omap_lookup_seq. }
  destruct (written_records_ideal answer block_numbers batches' Hasc Hperm)
    as [Hb He].
  f_equal. f_equal; [exact Hb | exact He].
Qed.

(** ** Construction of the client *)

Lemma after_nil w : after [] w = w.
Proof. unfold after. rewrite app_nil_r. now destruct w. Qed.

Lemma after_cons e added w : after (e :: added) w = after added (record_event e w).
Proof. unfold after, record_event. cbn. now rewrite <- app_assoc. Qed.

Lemma probes_take_S endpoints i ep :
  endpoints !! i = Some ep ->
  probes (take (S i) endpoints) = probes (take i endpoints) ++ [NetCall ep probe_payload].
Proof.
  intros Hi. unfold probes. rewrite (take_S_r _ _ _ Hi). now rewrite fmap_app.
Qed.

Lemma after_app added added' w : after (added ++ added') w = after added' (after added w).
Proof. unfold after. cbn. now rewrite app_assoc. Qed.

(** The probe loop skips the endpoints that open and do not work. *)
Lemma probe_from_skip {E} (opens : string -> option E) rest i w k :
  (forall j epj, (j < k)%nat -> rest !! j = Some epj ->
     opens epj = None /\
     has_result (remote w (trace w ++ probes (take j rest)) epj probe_payload)
     = Ok false) ->
  probe_from opens i rest w
  = probe_from opens (i + k) (drop k rest) (after (probes (take k rest)) w).
Proof.
  revert rest i w. induction k as [|k IH]; intros rest i w Hbefore.
  - rewrite take_0, drop_0, Nat.add_0_r. cbn [probes fmap list_fmap].
    now rewrite after_nil.
  - destruct rest as [|ep0 rest].
    { cbn [take drop probes fmap list_fmap probe_from]. now rewrite after_nil. }
    destruct (Hbefore 0%nat ep0 ltac:(lia) eq_refl) as [Hopen H0].
    rewrite take_0 in H0. cbn [probes fmap list_fmap] in H0.
    rewrite app_nil_r in H0.
    cbn [probe_from]. rewrite Hopen.
    unfold bind at 1, _raw_call. unfold bind at 1, lift. rewrite H0.
    change (probes (take (S k) (ep0 :: rest)))
      with (NetCall ep0 probe_payload :: probes (take k rest)).
    rewrite after_cons. change (drop (S k) (ep0 :: rest)) with (drop k rest).
    replace (i + S k)%nat with (S i + k)%nat by lia.
    apply IH. intros j epj Hj Hepj.
    destruct (Hbefore (S j) epj ltac:(lia) Hepj) as [Ho Hr].
    split; [assumption|].
    change (probes (take (S j) (ep0 :: rest)))
      with (NetCall ep0 probe_payload :: probes (take j rest)) in Hr.
    cbn [record_event trace remote]. now rewrite <- app_assoc.
Qed.

(** The probe loop when it reaches endpoint number [k]. *)
Lemma probe_from_reaches {E} (opens : string -> option E) rest i w k ep :
  rest !! k = Some ep ->
  (forall j epj, (j < k)%nat -> rest !! j = Some epj ->
     opens epj = None /\
     has_result (remote w (trace w ++ probes (take j rest)) epj probe_payload)
     = Ok false) ->
  probe_from opens i rest w =
  match opens ep with
  | Some e => (Ok (ConnectRaised e), after (probes (take k rest)) w)
  | None =>
      match has_result (remote w (trace w ++ probes (take k rest)) ep probe_payload) with
      | Ok true => (Ok (Working (i + k)%nat), after (probes (take (S k) rest)) w)
      | Ok false =>
          probe_from opens (S (i + k)) (drop (S k) rest)
            (after (probes (take (S k) rest)) w)
      | Raise e => (Raise e, after (probes (take (S k) rest)) w)
      end
  end.
Proof.
  intros Hk Hbefore. rewrite (probe_from_skip opens rest i w k Hbefore).
  rewrite (drop_S _ _ _ Hk). cbn [probe_from].
  destruct (opens ep) as [e|]; [reflexivity|].
  unfold bind at 1, _raw_call. unfold bind at 1, lift.
  rewrite (probes_take_S _ _ _ Hk), after_app.
  change (after [NetCall ep probe_payload] ?w0)
    with (after [NetCall ep probe_payload] w0).
  rewrite (after_cons _ [] _), after_nil.
  cbn [after trace remote].
  destruct (has_result _) as [[|]|e]; reflexivity.
Qed.

Lemma has_result_raises result e :
  has_result result = Raise e ->
  e = TypeError /\ py_truthy result = true /\
  match result with JBool _ | JInt _ | JFloat _ => True | _ => False end.
Proof.
  unfold has_result. destruct (py_truthy result) eqn:Ht; [|discriminate].
  destruct result; cbn; try discriminate; intros [= <-]; auto.
Qed.

(** X12: the constructor pins the first endpoint that works.  Endpoints
    are probed with [system_chain] in the order of the list; an endpoint
    works when a connection to it is obtained and its reply is truthy and
    has a ["result"].  If endpoint number [i] is the first that works, and
    the endpoints before it gave a connection, the client is pinned to it,
    its hash cache is empty, and exactly the endpoints [0 .. i] were
    probed, once each and in order: no endpoint after the first working
    one is contacted. *)
Theorem init_pins_first_working_endpoint {E : Type}
    (opens : string -> option E) (endpoints : list string)
    (behaviour : list event -> string -> json -> json) (i : nat) (ep : string) :
  endpoints !! i = Some ep ->
  (forall j epj, (j < i)%nat -> endpoints !! j = Some epj ->
     opens epj = None /\
     probe_outcome behaviour endpoints j epj = Ok false) ->
  opens ep = None ->
  probe_outcome behaviour endpoints i ep = Ok true ->
  __init__ opens endpoints behaviour
  = Constructed (World ep ∅ (probes (take (S i) endpoints)) behaviour).
Proof.
  intros Hi Hbefore Hopen Hat. unfold __init__, _find_working_endpoint.
  cbv zeta. rewrite (probe_from_reaches opens endpoints 0 _ i ep Hi).
  - rewrite Hopen. cbn [trace remote app]. unfold probe_outcome in Hat.
    rewrite Hat. cbn [Nat.add]. rewrite Hi. reflexivity.
  - intros j epj Hj Hepj. apply (Hbefore j epj Hj Hepj).
Qed.

(** X13: when a connection is obtained to every endpoint and none works
    (every reply is falsy or has no ["result"]), the constructor raises
    [Exception("No working endpoint found")] after it has probed every
    endpoint once, in the order of the list; with an empty list it raises
    without sending anything. *)
Theorem init_without_working_endpoint {E : Type}
    (opens : string -> option E) (endpoints : list string)
    (behaviour : list event -> string -> json -> json) :
  (forall j epj, endpoints !! j = Some epj ->
     opens epj = None /\
     probe_outcome behaviour endpoints j epj = Ok false) ->
  __init__ opens endpoints behaviour = NoWorkingEndpoint (probes endpoints).
Proof.
  intros Hall. unfold __init__, _find_working_endpoint. cbv zeta.
  rewrite (probe_from_skip opens endpoints 0 _ (length endpoints)).
  - rewrite drop_all, firstn_all. reflexivity.
  - intros j ep _ Hj. apply (Hall j ep Hj).
Qed.

(** X14: one endpoint can make the constructor fail for good.  Let
    endpoint number [i] be reached: the endpoints before it gave a
    connection and did not work.  If the lines of [_raw_call] before its
    [try] raise for it (an address that does not parse), that exception
    leaves the constructor and nothing is sent to the endpoint.  If a
    connection is obtained and the test [result and "result" in result]
    raises on the reply, that exception leaves the constructor; it is
    always [TypeError], and it arises exactly from a reply that is a
    non-zero number or [true].  In both cases the endpoints after it are
    never tried. *)
Theorem init_probe_raises {E : Type}
    (opens : string -> option E) (endpoints : list string)
    (behaviour : list event -> string -> json -> json)
    (i : nat) (ep : string) :
  endpoints !! i = Some ep ->
  (forall j epj, (j < i)%nat -> endpoints !! j = Some epj ->
     opens epj = None /\
     probe_outcome behaviour endpoints j epj = Ok false) ->
  (forall e, opens ep = Some e ->
     __init__ opens endpoints behaviour
       = ConnectionRaised e (probes (take i endpoints))) /\
  (forall e, opens ep = None ->
     probe_outcome behaviour endpoints i ep = Raise e ->
     __init__ opens endpoints behaviour
       = ProbeRaised e (probes (take (S i) endpoints)) /\
     e = TypeError /\
     py_truthy (behaviour (probes (take i endpoints)) ep probe_payload) = true /\
     match behaviour (probes (take i endpoints)) ep probe_payload with
     | JBool _ | JInt _ | JFloat _ => True
     | _ => False
     end).
Proof.
  intros Hi Hbefore.
  assert (_find_working_endpoint opens endpoints
            (World (default "" (head endpoints)) ∅ [] behaviour)
          = match opens ep with
            | Some e => (Ok (ConnectRaised e),
                         after (probes (take i endpoints))
                           (World (default "" (head endpoints)) ∅ [] behaviour))
            | None =>
                match probe_outcome behaviour endpoints i ep with
                | Ok true => (Ok (Working i),
                              after (probes (take (S i) endpoints))
                                (World (default "" (head endpoints)) ∅ [] behaviour))
                | Ok false =>
                    probe_from opens (S i) (drop (S i) endpoints)
                      (after (probes (take (S i) endpoints))
                         (World (default "" (head endpoints)) ∅ [] behaviour))
                | Raise e => (Raise e,
                              after (probes (take (S i) endpoints))
                                (World (default "" (head endpoints)) ∅ [] behaviour))
                end
            end) as Hrun.
  { unfold _find_working_endpoint.
    rewrite (probe_from_reaches opens endpoints 0 _ i ep Hi); [reflexivity|].
    intros j epj Hj Hepj. apply (Hbefore j epj Hj Hepj). }
  split.
  - intros e He. unfold __init__. cbv zeta. rewrite Hrun, He. reflexivity.
  - intros e Hopen Hat. split; [|now apply has_result_raises].
    unfold __init__. cbv zeta. rewrite Hrun, Hopen, Hat. reflexivity.
Qed.

(** ** Single calls *)

Lemma extract_result_raises result e :
  extract_result result = Raise e ->
  e = TypeError /\ py_truthy result = true /\
  match result with
  | JObj _ => False
  | JArr items => JStr "result" ∈ items
  | JStr s => is_substring "result" s = true
  | _ => True
  end.
Proof.
  unfold extract_result. destruct (py_truthy result) eqn:Ht; [|discriminate].
  destruct result as [| | | |s|items|members]; cbn [py_contains obind];
    try (intros [= <-]; auto; fail).
  - destruct (is_substring "result" s) eqn:E; [|discriminate].
    cbn. intros [= <-]. auto.
  - destruct (existsb _ items) eqn:E; [|discriminate].
    cbn. intros [= <-]. split; [reflexivity|]. split; [reflexivity|].
    apply existsb_exists in E as (x & Hx & Hs). apply list_elem_of_In.
    destruct x; try discriminate. apply String.eqb_eq in Hs. now subst.
  - cbn [py_getitem]. destruct (dict_lookup members "result"); discriminate.
Qed.

Lemma extract_result_object members :
  extract_result (JObj members) = Ok (dict_get members "result" JNull).
Proof.
  unfold extract_result, dict_get. destruct members as [|m members]; [reflexivity|].
  cbn [py_truthy py_contains obind py_getitem].
  now destruct (dict_lookup (m :: members) "result").
Qed.

(** X15: what [call] makes of a reply.  It sends exactly one request, with
    id 1, to the pinned endpoint, and touches neither the cache nor the
    endpoint.  For a reply that is an object it returns the object's
    ["result"], and [None] when the object has none (an error response);
    for a falsy reply ([None] from a failed request, an empty reply) it
    returns [None].  It raises only [TypeError], exactly when the reply is
    truthy and is a number, [true], a list that holds the string
    ["result"] or a string that contains it. *)
Theorem call_result (method : string) (params : list json) (w : world) :
  let reply := remote w (trace w) (endpoint w) (request method params 1) in
  snd (call method params w)
    = record_event (NetCall (endpoint w) (request method params 1)) w /\
  (forall members, reply = JObj members ->
     fst (call method params w) = Ok (dict_get members "result" JNull)) /\
  (py_truthy reply = false -> fst (call method params w) = Ok JNull) /\
  (forall e, fst (call method params w) = Raise e <->
     e = TypeError /\ py_truthy reply = true /\
     match reply with
     | JObj _ => False
     | JArr items => JStr "result" ∈ items
     | JStr s => is_substring "result" s = true
     | _ => True
     end).
Proof.
  cbv zeta. rewrite call_run. cbn [fst snd].
  split; [reflexivity|]. split; [|split].
  - intros members ->. apply extract_result_object.
  - intros Hf. unfold extract_result. now rewrite Hf.
  - intros e. split; [apply extract_result_raises|].
    intros (-> & Ht & Hshape). unfold extract_result. rewrite Ht.
    destruct (remote w (trace w) (endpoint w) (request method params 1))
      as [| | | |s|items|members]; try reflexivity; try contradiction.
    + cbn [py_contains obind]. now rewrite Hshape.
    + cbn [py_contains obind].
      assert (existsb (fun x => match x with JStr s => String.eqb s "result"
                                           | _ => false end) items = true) as ->.
      { apply existsb_exists. exists (JStr "result").
        split; [now apply list_elem_of_In | apply String.eqb_refl]. }
      reflexivity.
Qed.

(** ** The metadata of the runtime upgrades *)

Lemma later_state_trans w w' w'' :
  later_state w w' -> later_state w' w'' -> later_state w w''.
Proof.
  intros H1 H2. induction H2 as [|w2 m _ IH|w2 bns _ IH|w2 w3 _ IH Heq].
  - assumption.
  - now apply later_get_block_hash.
  - now apply later_get_block_hashes_batch.
  - eapply later_other; eassumption.
Qed.

Lemma sends_within_refl methods n w : sends_within methods n w w.
Proof.
  split; [reflexivity|]. split; [reflexivity|]. split; [constructor|].
  exists []. rewrite app_nil_r. repeat split; [cbn; lia | constructor].
Qed.

Lemma sends_within_trans methods n1 n2 w w' w'' :
  sends_within methods n1 w w' -> sends_within methods n2 w' w'' ->
  sends_within methods (n1 + n2) w w''.
Proof.
  intros (He1 & Hr1 & Hl1 & a1 & Ht1 & Hn1 & Hf1)
         (He2 & Hr2 & Hl2 & a2 & Ht2 & Hn2 & Hf2).
  split; [congruence|]. split; [congruence|].
  split; [eapply later_state_trans; eassumption|].
  exists (a1 ++ a2). split; [now rewrite Ht2, Ht1, app_assoc|].
  split; [rewrite length_app; lia|].
  apply Forall_app. split; [assumption|]. now rewrite <- He1.
Qed.

Lemma sends_within_weaken methods methods' n n' w w' :
  (forall m, m ∈ methods -> m ∈ methods') -> (n <= n')%nat ->
  sends_within methods n w w' -> sends_within methods' n' w w'.
Proof.
  intros Hm Hn (He & Hr & Hl & a & Ht & Hlen & Hf).
  split; [assumption|]. split; [assumption|]. split; [assumption|].
  exists a. split; [assumption|]. split; [lia|].
  eapply Forall_impl; [exact Hf|].
  intros e (method & params & -> & Hin). exists method, params. auto.
Qed.

Lemma call_sends methods method params w :
  method ∈ methods ->
  sends_within methods 1 w (snd (call method params w)).
Proof.
  intros Hm. rewrite call_run. cbn [snd].
  split; [reflexivity|]. split; [reflexivity|].
  split; [apply later_other with (w' := w); [constructor | reflexivity]|].
  eexists [_]. split; [reflexivity|]. split; [cbn; lia|].
  constructor; [|constructor]. now exists method, params.
Qed.

Lemma get_block_hash_sends n w :
  sends_within ["chain_getBlockHash"] 1 w (snd (get_block_hash n w)) /\
  (is_Some (block_hash_cache w !! n) -> snd (get_block_hash n w) = w).
Proof.
  split.
  - destruct (block_hash_cache w !! n) as [h|] eqn:E.
    + rewrite (get_block_hash_cached _ _ _ E). apply sends_within_refl.
    + split; [|split; [|split; [apply later_get_block_hash; constructor|]]].
      * rewrite get_block_hash_uncached by assumption. cbv zeta.
        destruct (extract_result _) as [r|e]; [|reflexivity].
        now destruct (py_truthy r).
      * rewrite get_block_hash_uncached by assumption. cbv zeta.
        destruct (extract_result _) as [r|e]; [|reflexivity].
        now destruct (py_truthy r).
      * eexists [_]. rewrite get_block_hash_uncached by assumption. cbv zeta.
        split.
        { destruct (extract_result _) as [r|e]; [|reflexivity].
          destruct (py_truthy r); reflexivity. }
        split; [cbn; lia|]. constructor; [|constructor].
        exists "chain_getBlockHash", [JInt n]. split; [reflexivity|]. now left.
  - intros [h E]. now rewrite (get_block_hash_cached _ _ _ E).
Qed.

Lemma get_metadata_at_version_sends block_hash version w :
  sends_within metadata_methods 1 w
    (snd (get_metadata_at_version block_hash version w)).
Proof.
  unfold get_metadata_at_version, bind, lift.
  pose proof (call_sends metadata_methods "state_call"
                [JStr "Metadata_metadata_at_version";
                 JStr (version_param version); block_hash] w) as H.
  destruct (call "state_call" _ w) as [[r|e] w1]; cbn [snd] in *;
    apply H; unfold metadata_methods; set_solver.
Qed.

Lemma fetch_upgrade_run version acc u w :
  fetch_upgrade version acc u w =
  match get_block_hash (Upgrade.block_number u) w with
  | (Raise e, w1) => (Raise e, w1)
  | (Ok block_hash, w1) =>
      if negb (py_truthy block_hash) then (Ok acc, w1)
      else
        match (if version =? 14 then get_metadata block_hash
               else get_metadata_at_version block_hash version) w1 with
        | (Raise e, w2) => (Raise e, w2)
        | (Ok metadata, w2) =>
            match get_runtime_version block_hash w2 with
            | (Raise e, w3) => (Raise e, w3)
            | (Ok runtime, w3) =>
                if py_truthy metadata && py_truthy runtime then
                  match py_get runtime "specName" (JStr "") with
                  | Ok specName =>
                      (Ok (fst acc ++
                             [MetadataFile.Make specName (Upgrade.spec_version u)
                                (Upgrade.block_number u) block_hash metadata],
                           snd acc ++
                             [UpgradeEntry.Make (Upgrade.spec_version u)
                                (Upgrade.block_number u) block_hash version]),
                       w3)
                  | Raise e => (Raise e, w3)
                  end
                else (Ok acc, w3)
            end
        end
  end.
Proof.
  unfold fetch_upgrade. cbv zeta. unfold bind at 1.
  destruct (get_block_hash (Upgrade.block_number u) w) as [[h|e] w1];
    [|reflexivity].
  destruct (negb (py_truthy h)); [reflexivity|].
  unfold bind at 1.
  destruct ((if version =? 14 then get_metadata h
             else get_metadata_at_version h version) w1) as [[metadata|e] w2];
    [|reflexivity].
  unfold bind at 1.
  destruct (get_runtime_version h w2) as [[runtime|e] w3]; [|reflexivity].
  destruct (py_truthy metadata && py_truthy runtime); [|reflexivity].
  unfold bind, lift. now destruct (py_get runtime "specName" (JStr "")).
Qed.

Lemma metadata_step_sends version block_hash w :
  sends_within metadata_methods 1 w
    (snd ((if version =? 14 then get_metadata block_hash
           else get_metadata_at_version block_hash version) w)).
Proof.
  destruct (version =? 14).
  - apply call_sends. unfold metadata_methods. set_solver.
  - apply get_metadata_at_version_sends.
Qed.

Lemma runtime_step_sends block_hash w :
  sends_within metadata_methods 1 w (snd (get_runtime_version block_hash w)).
Proof. apply call_sends. unfold metadata_methods. set_solver. Qed.

(** The requests after the hash lookup of one upgrade. *)
Lemma fetch_upgrade_sends_after version acc u w :
  exists w1,
    w1 = snd (get_block_hash (Upgrade.block_number u) w) /\
    sends_within metadata_methods 2 w1 (snd (fetch_upgrade version acc u w)).
Proof.
  exists (snd (get_block_hash (Upgrade.block_number u) w)).
  split; [reflexivity|]. rewrite fetch_upgrade_run.
  destruct (get_block_hash (Upgrade.block_number u) w) as [[h|e] w1];
    cbn [snd]; [|apply sends_within_refl].
  destruct (negb (py_truthy h)); [apply sends_within_refl|].
  pose proof (metadata_step_sends version h w1) as H2.
  destruct ((if version =? 14 then get_metadata h
             else get_metadata_at_version h version) w1) as [[metadata|e] w2];
    cbn [snd] in *.
  2: { eapply sends_within_weaken; [| |exact H2]; [auto | lia]. }
  pose proof (runtime_step_sends h w2) as H3.
  pose proof (sends_within_trans _ _ _ _ _ _ H2 H3) as H23.
  destruct (get_runtime_version h w2) as [[runtime|e] w3]; cbn [snd] in *;
    [|exact H23].
  destruct (py_truthy metadata && py_truthy runtime); [|exact H23].
  now destruct (py_get runtime "specName" (JStr "")).
Qed.

Lemma fetch_upgrade_sends version acc u w :
  sends_within ("chain_getBlockHash" :: metadata_methods) 3 w
    (snd (fetch_upgrade version acc u w)) /\
  (is_Some (block_hash_cache w !! Upgrade.block_number u) ->
   sends_within metadata_methods 2 w (snd (fetch_upgrade version acc u w))).
Proof.
  destruct (fetch_upgrade_sends_after version acc u w) as (w1 & Hw1 & Hrest).
  destruct (get_block_hash_sends (Upgrade.block_number u) w) as [Hhash Hcached].
  rewrite <- Hw1 in Hhash, Hcached. split.
  - apply (sends_within_trans _ 1 2 w w1).
    + eapply sends_within_weaken; [| |exact Hhash]; [|lia].
      intros m Hm. apply list_elem_of_singleton in Hm as ->. now left.
    + eapply sends_within_weaken; [| |exact Hrest]; [|lia].
      intros m Hm. now right.
  - intros Hc. rewrite (Hcached Hc) in Hrest. exact Hrest.
Qed.

Lemma for_each_run {A B} (body : A -> B -> M A) acc x xs w :
  for_each body acc (x :: xs) w =
  match body acc x w with
  | (Ok acc', w1) => for_each body acc' xs w1
  | (Raise e, w1) => (Raise e, w1)
  end.
Proof. reflexivity. Qed.

Lemma main_fetch_metadata_sends version upgrades acc w :
  sends_within ("chain_getBlockHash" :: metadata_methods)
    (3 * length upgrades) w
    (snd (for_each (fetch_upgrade version) acc upgrades w)) /\
  (Forall (fun u => is_Some (block_hash_cache w !! Upgrade.block_number u))
     upgrades ->
   sends_within metadata_methods (2 * length upgrades) w
     (snd (for_each (fetch_upgrade version) acc upgrades w))).
Proof.
  revert acc w. induction upgrades as [|u upgrades IH]; intros acc w.
  - split; [|intros _]; apply sends_within_refl.
  - rewrite for_each_run.
    destruct (fetch_upgrade_sends version acc u w) as [H1 H1c].
    destruct (fetch_upgrade version acc u w) as [[acc'|e] w1]; cbn [snd] in *.
    + destruct (IH acc' w1) as [H2 H2c]. split.
      * eapply sends_within_weaken;
          [| |eapply sends_within_trans; [exact H1|exact H2]];
          [auto | cbn [length]; lia].
      * intros Hall. apply Forall_cons in Hall as [Hu Hall].
        specialize (H1c Hu).
        eapply sends_within_weaken;
          [| |eapply sends_within_trans; [exact H1c|apply H2c]];
          [auto | cbn [length]; lia|].
        destruct H1c as (_ & _ & Hlater & _).
        eapply Forall_impl; [exact Hall|]. intros u' [h Hh].
        exists h. eapply later_state_keeps; eassumption.
    + split.
      * eapply sends_within_weaken; [| |exact H1]; [auto | cbn [length]; lia].
      * intros Hall. apply Forall_cons in Hall as [Hu _].
        eapply sends_within_weaken; [| |exact (H1c Hu)];
          [auto | cbn [length]; lia].
Qed.

Lemma fetch_upgrade_records version acc u w acc' w' :
  fetch_upgrade version acc u w = (Ok acc', w') ->
  later_state w w' /\
  (acc' = acc \/
   exists f e,
     acc' = (fst acc ++ [f], snd acc ++ [e]) /\
     file_of_entry f e /\ entry_source e = upgrade_source u /\
     py_truthy (UpgradeEntry.block_hash e) = true /\
     UpgradeEntry.metadata_version e = version /\
     block_hash_cache w' !! UpgradeEntry.block_number e
       = Some (UpgradeEntry.block_hash e)).
Proof.
  intros Hrun.
  assert (later_state w w') as Hlater.
  { destruct (fetch_upgrade_sends version acc u w) as [(_ & _ & Hl & _) _].
    now rewrite Hrun in Hl. }
  split; [assumption|].
  destruct (fetch_upgrade_sends_after version acc u w)
    as (w1 & Hw1 & (_ & _ & Hl1 & _)).
  rewrite Hrun in Hl1. cbn [snd] in Hl1.
  rewrite fetch_upgrade_run in Hrun.
  destruct (get_block_hash (Upgrade.block_number u) w) as [[h|e] w1'] eqn:Hh;
    [|discriminate].
  cbn [snd] in Hw1. subst w1'.
  destruct (py_truthy h) eqn:Ht; cbn [negb] in Hrun;
    [|left; now injection Hrun as <- _].
  destruct ((if version =? 14 then get_metadata h
             else get_metadata_at_version h version) w1) as [[metadata|e] w2];
    [|discriminate].
  destruct (get_runtime_version h w2) as [[runtime|e] w3]; [|discriminate].
  destruct (py_truthy metadata) eqn:Hm; cbn [andb] in Hrun;
    [|left; now injection Hrun as <- _].
  destruct (py_truthy runtime) eqn:Hr; [|left; now injection Hrun as <- _].
  destruct (py_get runtime "specName" (JStr "")) as [specName|e]; [|discriminate].
  injection Hrun as <- <-. right. eexists _, _. split; [reflexivity|].
  split; [repeat split; assumption|]. split; [reflexivity|].
  split; [assumption|]. split; [reflexivity|]. cbn.
  eapply later_state_keeps; [|exact Hl1].
  eapply get_block_hash_stores; eassumption.
Qed.

Lemma for_each_fetch_upgrade version upgrades acc w files entries w' :
  for_each (fetch_upgrade version) acc upgrades w = (Ok (files, entries), w') ->
  later_state w w' /\
  exists files' entries',
    files = fst acc ++ files' /\ entries = snd acc ++ entries' /\
    Forall2 file_of_entry files' entries' /\
    Forall (fun e =>
              py_truthy (UpgradeEntry.block_hash e) = true /\
              UpgradeEntry.metadata_version e = version /\
              block_hash_cache w' !! UpgradeEntry.block_number e
                = Some (UpgradeEntry.block_hash e)) entries' /\
    entry_source <$> entries' `sublist_of` upgrade_source <$> upgrades.
Proof.
  revert acc w. induction upgrades as [|u upgrades IH]; intros acc w Hrun.
  - injection Hrun as -> <-. split; [constructor|]. exists [], [].
    cbn [fst snd]. rewrite !app_nil_r. repeat split; constructor.
  - rewrite for_each_run in Hrun.
    destruct (fetch_upgrade version acc u w) as [[acc1|e] w1] eqn:Hstep;
      [|discriminate].
    apply fetch_upgrade_records in Hstep as [Hl1 Hstep].
    apply IH in Hrun as (Hl2 & files' & entries' & -> & -> & Hfe & Hprops & Hsub).
    split; [eapply later_state_trans; eassumption|].
    destruct Hstep as [-> | (f & e & -> & Hf & Hsrc & Ht & Hv & Hc)].
    + exists files', entries'. repeat split; try assumption.
      rewrite fmap_cons. now apply sublist_cons.
    + exists (f :: files'), (e :: entries'). cbn [fst snd].
      rewrite <- !app_assoc. repeat split.
      * now constructor.
      * constructor; [|assumption]. repeat split; try assumption.
        eapply later_state_keeps; eassumption.
      * rewrite !fmap_cons, Hsrc. now apply sublist_skip.
Qed.

(** X16: the metadata files and the entries of the upgrades file.  When
    the loop over the runtime upgrades returns, it has written one metadata
    file for every entry of [runtime_upgrades_full] and the other way
    round, in the same order, with the same spec version, block number and
    block hash, and with a truthy metadata.  The entries are manifest
    upgrades, in manifest order, the others having been skipped.  Every
    entry carries the requested metadata version and a truthy block hash,
    and that hash is the one the hash cache holds for its block number
    afterwards and, if the number was cached before the loop, the one the
    cache held before. *)
Theorem metadata_files_match_upgrades (version : Z)
    (runtime_upgrades : list Upgrade.t) (w : world)
    (files : list MetadataFile.t) (entries : list UpgradeEntry.t) (w' : world) :
  main_fetch_metadata version runtime_upgrades w = (Ok (files, entries), w') ->
  Forall2 file_of_entry files entries /\
  entry_source <$> entries `sublist_of` upgrade_source <$> runtime_upgrades /\
  Forall (fun e =>
            py_truthy (UpgradeEntry.block_hash e) = true /\
            UpgradeEntry.metadata_version e = version /\
            block_hash_cache w' !! UpgradeEntry.block_number e
              = Some (UpgradeEntry.block_hash e) /\
            (forall h, block_hash_cache w !! UpgradeEntry.block_number e = Some h ->
                       UpgradeEntry.block_hash e = h)) entries.
Proof.
  intros Hrun. apply for_each_fetch_upgrade in Hrun
    as (Hlater & files' & entries' & -> & -> & Hfe & Hprops & Hsub).
  cbn [fst snd app]. split; [assumption|]. split; [assumption|].
  eapply Forall_impl; [exact Hprops|]. intros e (Ht & Hv & Hc).
  repeat split; try assumption.
  intros h Hh. pose proof (later_state_keeps _ _ _ _ Hh Hlater). congruence.
Qed.

(** X17: the requests of the metadata loop, whether it returns or raises.
    Every request is a single request to the pinned endpoint, for
    [chain_getBlockHash], [state_getMetadata], [state_call] or
    [state_getRuntimeVersion]; there are at most three for every runtime
    upgrade.  When the block numbers of all upgrades are in the hash cache
    already, no [chain_getBlockHash] is sent at all and there are at most
    two requests for every upgrade. *)
Theorem metadata_requests (version : Z) (runtime_upgrades : list Upgrade.t)
    (w : world) :
  let w' := snd (main_fetch_metadata version runtime_upgrades w) in
  endpoint w' = endpoint w /\
  (exists added,
     trace w' = trace w ++ added /\
     (length added <= 3 * length runtime_upgrades)%nat /\
     Forall (single_request (endpoint w) ("chain_getBlockHash" :: metadata_methods))
       added) /\
  (Forall (fun u => is_Some (block_hash_cache w !! Upgrade.block_number u))
     runtime_upgrades ->
   exists added,
     trace w' = trace w ++ added /\
     (length added <= 2 * length runtime_upgrades)%nat /\
     Forall (single_request (endpoint w) metadata_methods) added).
Proof.
  cbv zeta. unfold main_fetch_metadata.
  destruct (main_fetch_metadata_sends version runtime_upgrades ([], []) w)
    as [(He & _ & _ & H) Hc].
  split; [assumption|]. split; [assumption|].
  intros Hall. now destruct (Hc Hall) as (_ & _ & _ & H').
Qed.

(** ** SCALE encodings *)

Lemma hex_value_hex_char d :
  0 <= d < 16 -> hex_value (hex_char (Z.to_N d)) = Some d.
Proof.
  intros H.
  assert (d = 0 \/ d = 1 \/ d = 2 \/ d = 3 \/ d = 4 \/ d = 5 \/ d = 6 \/ d = 7 \/
          d = 8 \/ d = 9 \/ d = 10 \/ d = 11 \/ d = 12 \/ d = 13 \/ d = 14 \/
          d = 15) as Hd by lia.
  repeat destruct Hd as [->|Hd]; try reflexivity. now subst.
Qed.

Lemma py_int16_of_hex_byte b : 0 <= b < 256 -> py_int16 (hex_byte b) = Ok b.
Proof.
  intros Hb. unfold hex_byte.
  rewrite (py_int16_hex_byte _ _ (b / 16) (b mod 16)).
  - f_equal. pose proof (Z.div_mod b 16). lia.
  - apply hex_value_hex_char.
    pose proof (Z.div_lt_upper_bound b 16 16). pose proof (Z.div_pos b 16). lia.
  - apply hex_value_hex_char. apply Z.mod_pos_bound. lia.
Qed.


Lemma str_drop_app p s : str_drop (String.length p) (p ++ s) = s.
Proof. induction p as [|c p IH]; [reflexivity | exact IH]. Qed.

Lemma string_app_assoc (a b c : string) : ((a ++ b) ++ c = a ++ (b ++ c))%string.
Proof.
  induction a as [|x a IH]; [reflexivity|].
  change (String x ((a ++ b) ++ c) = String x (a ++ (b ++ c)))%string.
  now f_equal.
Qed.

Lemma string_app_length (a b : string) :
  String.length (a ++ b) = (String.length a + String.length b)%nat.
Proof.
  induction a as [|x a IH]; [reflexivity|].
  change (S (String.length (a ++ b)) = S (String.length a + String.length b)).
  now f_equal.
Qed.

Lemma le_hex_length k v : String.length (le_hex k v) = (2 * k)%nat.
Proof.
  revert v. induction k as [|k IH]; intros v; [reflexivity|].
  cbn [le_hex]. rewrite string_app_length, IH. cbn. lia.
Qed.

(** Decoding a tag byte followed by [rest] and the payload, when the tag
    announces an offset just behind [rest]. *)
Lemma decode_after_tag b rest payload :
  0 <= b < 256 ->
  data_start_of b = 2 + Z.of_nat (String.length rest) ->
  _decode_opaque_metadata ((hex_byte b ++ rest) ++ payload)
  = JStr ("0x" ++ payload).
Proof.
  intros Hb Hstart. rewrite decode_opaque_metadata_tag.
  change (String.eqb ((hex_byte b ++ rest) ++ payload) "") with false.
  change (str_take 2 ((hex_byte b ++ rest) ++ payload)) with (hex_byte b).
  rewrite py_int16_of_hex_byte by assumption. cbv iota.
  rewrite py_slice_from_nonneg by lia. rewrite Hstart.
  replace (Z.to_nat (2 + Z.of_nat (String.length rest)))
    with (String.length (hex_byte b ++ rest))
    by (rewrite string_app_length; cbn; lia).
  now rewrite str_drop_app.
Qed.

Lemma land_3 x : Z.land x 3 = x mod 4.
Proof. exact (Z.land_ones x 2 ltac:(lia)). Qed.

Lemma low_bits_of_byte x : Z.land (x mod 256) 3 = x mod 4.
Proof. rewrite land_3. apply Z.mod_mod_divide. now exists 64. Qed.

Lemma mod_4_tag n t : 0 <= t < 4 -> (4 * n + t) mod 4 = t.
Proof.
  intros Ht. rewrite Z.add_comm, Z.mul_comm, Z.mod_add by lia.
  now apply Z.mod_small.
Qed.

Lemma byte_length_bounds n :
  2 ^ 30 <= n < 2 ^ 536 -> (4 <= byte_length n <= 67)%nat.
Proof.
  intros [Hlo Hhi]. unfold byte_length.
  assert (30 <= Z.log2 n) by (apply Z.log2_le_pow2; lia).
  assert (Z.log2 n < 536) by (apply Z.log2_lt_pow2; lia).
  pose proof (Z.div_le_lower_bound (Z.log2 n) 8 3).
  pose proof (Z.div_lt_upper_bound (Z.log2 n) 8 67). lia.
Qed.

Lemma decode_compact_prefix n payload :
  0 <= n < 2 ^ 536 ->
  _decode_opaque_metadata (compact_hex n ++ payload) = JStr ("0x" ++ payload).
Proof.
  intros Hn. unfold compact_hex.
  destruct (Z.ltb_spec n (2 ^ 6)) as [H6|H6].
  { cbn [le_hex]. apply decode_after_tag.
    - apply Z.mod_pos_bound. lia.
    - unfold data_start_of. rewrite low_bits_of_byte.
      replace (4 * n) with (4 * n + 0) by lia. rewrite mod_4_tag by lia.
      reflexivity. }
  destruct (Z.ltb_spec n (2 ^ 14)) as [H14|H14].
  { cbn [le_hex]. set (v := 4 * n + 1).
    apply (decode_after_tag (v mod 256) (hex_byte (v / 256 mod 256) ++ "")).
    - apply Z.mod_pos_bound. lia.
    - unfold data_start_of. rewrite low_bits_of_byte. unfold v.
      rewrite mod_4_tag by lia. reflexivity. }
  destruct (Z.ltb_spec n (2 ^ 30)) as [H30|H30].
  { cbn [le_hex]. set (v := 4 * n + 2).
    apply (decode_after_tag (v mod 256)
             (hex_byte (v / 256 mod 256) ++
              hex_byte (v / 256 / 256 mod 256) ++
              hex_byte (v / 256 / 256 / 256 mod 256) ++ "")).
    - apply Z.mod_pos_bound. lia.
    - unfold data_start_of. rewrite low_bits_of_byte. unfold v.
      rewrite mod_4_tag by lia. reflexivity. }
  pose proof (byte_length_bounds n ltac:(lia)) as Hk.
  set (k := byte_length n) in *. clearbody k.
  apply decode_after_tag; [lia|].
  unfold data_start_of. rewrite land_3, mod_4_tag by lia.
  change (3 =? 0) with false. change (3 =? 1) with false.
  change (3 =? 2) with false. cbv iota. rewrite Z.shiftr_div_pow2 by lia.
  replace ((4 * (Z.of_nat k - 4) + 3) / 2 ^ 2) with (Z.of_nat k - 4).
  - rewrite le_hex_length. lia.
  - change (2 ^ 2) with 4. apply (Z.div_unique _ 4 _ 3); lia.
Qed.

Lemma compact_hex_nonempty n : exists c1 c2 rest, compact_hex n = String c1 (String c2 rest).
Proof.
  unfold compact_hex.
  destruct (n <? 2 ^ 6); [eexists _, _, _; reflexivity|].
  destruct (n <? 2 ^ 14); [eexists _, _, _; reflexivity|].
  destruct (n <? 2 ^ 30); eexists _, _, _; reflexivity.
Qed.

(** X18: the metadata decoding strips exactly a SCALE compact length.
    For every length [n] below [2^536] (all four modes of the compact
    encoding) and every payload, [_decode_opaque_metadata] applied to the
    compact encoding of [n] followed by the payload returns ["0x"] followed
    by the payload; and when the reply to the [state_call] of
    [get_metadata_at_version] is an object whose result is ["0x01"], the
    compact length and the payload, the function returns ["0x"] followed by
    the payload. *)
Theorem decode_strips_compact_length (n : Z) (payload : string)
    (block_hash : json) (version : Z) (w : world) (members : list (string * json)) :
  0 <= n < 2 ^ 536 ->
  remote w (trace w) (endpoint w)
    (request "state_call"
       [JStr "Metadata_metadata_at_version"; JStr (version_param version);
        block_hash] 1) = JObj members ->
  dict_lookup members "result" = Some (JStr ("0x01" ++ compact_hex n ++ payload)) ->
  _decode_opaque_metadata (compact_hex n ++ payload) = JStr ("0x" ++ payload) /\
  fst (get_metadata_at_version block_hash version w) = Ok (JStr ("0x" ++ payload)).
Proof.
  intros Hn Hreply Hresult.
  pose proof (decode_compact_prefix n payload Hn) as Hdecode.
  split; [exact Hdecode|].
  unfold get_metadata_at_version, bind, lift. rewrite call_run, Hreply.
  rewrite extract_result_object. unfold dict_get. rewrite Hresult.
  cbn [fst]. rewrite metadata_of_result_str.
  destruct (compact_hex_nonempty n) as (c1 & c2 & rest & Hc).
  set (s := (compact_hex n ++ payload)%string) in *.
  assert (exists rest', s = String c1 (String c2 rest')) as [rest' Hs].
  { unfold s. rewrite Hc. eexists. reflexivity. }
  change ("0x01" ++ s)%string
    with (String "0" (String "x" (String "0" (String "1" s)))).
  change (str_drop 4 (String "0" (String "x" (String "0" (String "1" s)))))
    with s.
  rewrite Hdecode. rewrite Hs. reflexivity.
Qed.

Lemma version_params_checked :
  forallb (fun v => String.eqb (version_param v) ("0x" ++ le_hex 4 v))
    (seqZ 0 256) = true.
Proof. vm_compute. reflexivity. Qed.

(** X19: for a version from 0 to 255 the parameter that
    [get_metadata_at_version] sends is the SCALE encoding of the version as
    a 32-bit integer: ["0x"] and four bytes, least significant first, ten
    characters in all. *)
Theorem version_param_is_le_u32 (version : Z) :
  0 <= version < 256 ->
  version_param version = ("0x" ++ le_hex 4 version)%string /\
  String.length (version_param version) = 10%nat.
Proof.
  intros Hv.
  assert (version_param version = ("0x" ++ le_hex 4 version)%string) as H.
  { apply String.eqb_eq.
    apply (proj1 (forallb_forall _ _) version_params_checked version).
    apply list_elem_of_In, elem_of_seqZ. lia. }
  split; [exact H|]. rewrite H.
  change (String.length ("0x" ++ le_hex 4 version))
    with (S (S (String.length (le_hex 4 version)))).
  now rewrite le_hex_length.
Qed.

(** ** The two hash lookups *)

(** X20: the two hash lookups agree.  After [get_block_hashes_batch] has
    returned a mapping, every entry of the mapping is either in the cache,
    and then [get_block_hash] for that number returns the same hash and
    sends nothing, or it is [None] for a number that is not in the cache. *)
Theorem batch_lookup_then_single_lookup (block_numbers : list Z) (w : world)
    (hash_map : list (Z * json)) (w1 : world) :
  get_block_hashes_batch block_numbers w = (Ok hash_map, w1) ->
  forall n v, (n, v) ∈ hash_map ->
    n ∈ block_numbers /\
    ((block_hash_cache w1 !! n = Some v /\ get_block_hash n w1 = (Ok v, w1)) \/
     (block_hash_cache w1 !! n = None /\ v = JNull)).
Proof.
  intros Hrun n v Hin.
  apply get_block_hashes_batch_returns in Hrun as ->.
  apply hash_map_of_elem in Hin as [Hn ->]. split; [assumption|].
  destruct (block_hash_cache w1 !! n) as [h|] eqn:E.
  - left. split; [reflexivity|]. now apply get_block_hash_cached.
  - now right.
Qed.

(** ** Block data without the expected shape *)

Lemma ofold_emit_records_raises rows acc row :
  row ∈ rows -> py_truthy (fst (snd row)) = true ->
  well_formed_block (fst (snd row)) = false ->
  exists e, ofold emit_records acc rows = Raise e.
Proof.
  intros Hin Ht Hwf. destruct (ofold emit_records acc rows) as [r|e] eqn:E.
  - pose proof (ofold_emit_records_inv _ _ _ E row Hin Ht). congruence.
  - now exists e.
Qed.

Lemma impl_ideal_raises answer bns w n :
  batches_answered (remote w) answer ->
  cache_agrees answer (block_hash_cache w) ->
  NoDup bns ->
  n ∈ bns ->
  py_truthy (hash_of answer n) = true ->
  py_truthy (block_of answer n) = true ->
  well_formed_block (block_of answer n) = false ->
  exists e w1,
    _fetch_block_and_events_batch_impl bns w = (Raise e, w1) /\
    remote w1 = remote w /\ cache_agrees answer (block_hash_cache w1).
Proof.
  intros Hsrv Hc Hnd Hn Hh Hb Hwf.
  destruct (get_block_hashes_batch_ideal answer bns w Hsrv Hc Hnd)
    as (hash_map & w1 & Hrun & Hvalid & Hr1 & He1 & Hc1 & _).
  rewrite impl_run, Hrun, Hvalid.
  set (valid := (fun n => (n, hash_of answer n)) <$> resolved answer bns).
  assert (n ∈ resolved answer bns) as Hres.
  { unfold resolved. now apply list_elem_of_filter. }
  assert (batches_answered (remote w1) answer) as Hsrv1 by now rewrite Hr1.
  pose proof (batch_call_answered answer (block_calls valid) w1 Hsrv1) as Hbc.
  set (w2 := match block_calls valid with
             | [] => w1
             | _ :: _ =>
                 record_event
                   (NetCall (endpoint w1) (batch_payload (block_calls valid))) w1
             end) in *.
  assert (remote w2 = remote w1 /\ block_hash_cache w2 = block_hash_cache w1)
    as (Hr2 & Hc2).
  { subst w2. now destruct (block_calls valid). }
  assert (batches_answered (remote w2) answer) as Hsrv2 by now rewrite Hr2.
  pose proof (batch_call_answered answer (event_calls valid) w2 Hsrv2) as Hec.
  set (w3 := match event_calls valid with
             | [] => w2
             | _ :: _ =>
                 record_event
                   (NetCall (endpoint w2) (batch_payload (event_calls valid))) w2
             end) in *.
  assert (remote w3 = remote w2 /\ block_hash_cache w3 = block_hash_cache w2)
    as (Hr3 & Hc3).
  { subst w3. now destruct (event_calls valid). }
  destruct (ofold_emit_records_raises
              (zip valid
                 (zip ((fun c => answer (fst c) (snd c)) <$> block_calls valid)
                    ((fun c => answer (fst c) (snd c)) <$> event_calls valid)))
              ([], [])
              ((n, hash_of answer n), (block_of answer n, events_of answer n)))
    as [e He]; try assumption.
  { unfold valid, block_calls, event_calls.
    change (map ?f ?l) with (f <$> l). rewrite <- !list_fmap_compose.
    rewrite (zip_fmap3 (fun n => (n, hash_of answer n))
               (fun n => block_of answer n) (fun n => events_of answer n)).
    apply list_elem_of_fmap. now exists n. }
  exists e, w3. split; [|split; [congruence | now rewrite Hc3, Hc2]].
  destruct valid as [|p ps] eqn:Ev.
  { unfold valid in Ev. apply fmap_nil_inv in Ev. rewrite Ev in Hres.
    now apply elem_of_nil in Hres. }
  now rewrite Hbc, Hec, He.
Qed.

(** X21: one block without the expected shape loses the whole batch.
    Behind an endpoint that answers every batch in full, if one requested
    number has a hash and truthy block data that is not a [block] dict
    with a [header] dict and [extrinsics], every attempt raises while it
    builds the records, and [fetch_block_and_events_batch] returns two
    empty lists after its three attempts: no record of any other number of
    the batch is returned either. *)
Theorem malformed_block_loses_the_batch
    (answer : string -> list json -> json) (block_numbers : list Z)
    (w : world) (n : Z) :
  batches_answered (remote w) answer ->
  cache_agrees answer (block_hash_cache w) ->
  NoDup block_numbers ->
  n ∈ block_numbers ->
  py_truthy (hash_of answer n) = true ->
  py_truthy (block_of answer n) = true ->
  well_formed_block (block_of answer n) = false ->
  fst (fetch_block_and_events_batch block_numbers w) = Ok ([], []) /\
  sleeps (trace (snd (fetch_block_and_events_batch block_numbers w)))
    = sleeps (trace w) ++ [1; 2].
Proof.
  intros Hsrv Hc Hnd Hn Hh Hb Hwf.
  destruct (impl_ideal_raises answer block_numbers w n Hsrv Hc Hnd Hn Hh Hb Hwf)
    as (e1 & w1 & Hrun1 & Hr1 & Hc1).
  set (w1' := record_event (Sleep (RETRY_DELAY * 1)) w1).
  assert (batches_answered (remote w1') answer) as Hsrv1 by (cbn; now rewrite Hr1).
  destruct (impl_ideal_raises answer block_numbers w1' n Hsrv1 Hc1 Hnd Hn Hh Hb Hwf)
    as (e2 & w2 & Hrun2 & Hr2 & Hc2).
  set (w2' := record_event (Sleep (RETRY_DELAY * 2)) w2).
  assert (batches_answered (remote w2') answer) as Hsrv2
    by (cbn; rewrite Hr2; exact Hsrv1).
  destruct (impl_ideal_raises answer block_numbers w2' n Hsrv2 Hc2 Hnd Hn Hh Hb Hwf)
    as (e3 & w3 & Hrun3 & Hr3 & Hc3).
  pose proof (impl_sleeps block_numbers w) as S1.
  pose proof (impl_sleeps block_numbers w1') as S2.
  pose proof (impl_sleeps block_numbers w2') as S3.
  rewrite retry_loop_unrolled. cbv zeta. fold w1'.
  rewrite Hrun1 in *. cbn [fst snd complete] in *. fold w1'.
  rewrite Hrun2 in *. cbn [fst snd complete] in *. fold w2'.
  rewrite Hrun3 in *. cbn [fst snd complete] in *.
  split; [reflexivity|].
  rewrite S3. unfold w2'. cbn [trace record_event]. rewrite sleeps_app, S2.
  unfold w1'. cbn [trace record_event]. rewrite sleeps_app, S1.
  now rewrite <- app_assoc.
Qed.

(** ** [batch_call] and the order of the reply *)

Lemma forallb_Permutation {A} (f : A -> bool) (l l' : list A) :
  l ≡ₚ l' -> forallb f l = forallb f l'.
Proof.
  induction 1 as [|x l l' _ IH|x y l|l l' l'' _ IH1 _ IH2]; cbn [forallb].
  - reflexivity.
  - now rewrite IH.
  - now destruct (f x), (f y).
  - congruence.
Qed.

Lemma slot_values_unfilled n items i :
  i ∉ filled_slots n items -> slot_values n items i = [].
Proof.
  unfold filled_slots, slot_values.
  induction items as [|item items IH]; intros Hi; [reflexivity|].
  cbn [omap list_omap] in *.
  destruct (item_slot n item) as [[j v]|]; cbn in *.
  - apply not_elem_of_cons in Hi as [Hne Hi].
    destruct (Nat.eqb_spec j i) as [->|_]; [contradiction|]. now apply IH.
  - now apply IH.
Qed.

Lemma slot_values_single n items i :
  NoDup (filled_slots n items) -> (length (slot_values n items i) <= 1)%nat.
Proof.
  induction items as [|item items IH]; intros Hnd; [cbn; lia|].
  unfold filled_slots, slot_values in *. cbn [omap list_omap] in *.
  destruct (item_slot n item) as [[j v]|]; cbn in *.
  - apply NoDup_cons in Hnd as [Hj Hnd].
    destruct (Nat.eqb_spec j i) as [->|_]; [|now apply IH].
    cbn. fold (slot_values n items i).
    rewrite (slot_values_unfilled n items i Hj). cbn. lia.
  - now apply IH.
Qed.

Lemma fill_slots_Permutation n items items' :
  items ≡ₚ items' -> NoDup (filled_slots n items) ->
  fill_slots n items = fill_slots n items'.
Proof.
  intros Hperm Hnd. apply list_eq. intros i.
  destruct (le_lt_dec n i) as [Hge|Hlt].
  - rewrite !lookup_ge_None_2; [reflexivity | |]; now rewrite fill_slots_length.
  - rewrite !fill_slots_lookup by assumption. do 2 f_equal.
    assert (slot_values n items i ≡ₚ slot_values n items' i) as Hv
      by (unfold slot_values; now apply omap_Permutation_proper).
    pose proof (slot_values_single n items i Hnd) as Hlen.
    destruct (slot_values n items i) as [|v [|v' vs]]; cbn in Hlen; [| |lia].
    + apply Permutation_nil_l in Hv. now rewrite Hv.
    + apply Permutation_singleton_l in Hv. now rewrite Hv.
Qed.

(** X22: the order of the items in the reply to a batch does not matter.
    When two replies to the same batch are arrays with the same items in
    different orders, and no two items carry the same id of the batch,
    [batch_call] returns the same list for both (or raises for both). *)
Theorem batch_call_order_independent (calls : list (string * list json))
    (items items' : list json) (w w' : world) :
  remote w (trace w) (endpoint w) (batch_payload calls) = JArr items ->
  remote w' (trace w') (endpoint w') (batch_payload calls) = JArr items' ->
  items ≡ₚ items' ->
  NoDup (filled_slots (length calls) items) ->
  fst (batch_call calls w) = fst (batch_call calls w').
Proof.
  intros Hr Hr' Hperm Hnd. destruct calls as [|c calls]; [reflexivity|].
  rewrite !batch_call_nonempty by discriminate. rewrite Hr, Hr'. cbn [fst].
  set (n := length (c :: calls)) in *.
  destruct (response_accepted n (JArr items)) eqn:Hacc.
  - assert (response_accepted n (JArr items') = true) as Hacc'.
    { cbn [response_accepted] in *. now rewrite <- (forallb_Permutation _ _ _ Hperm). }
    rewrite !collect_results_accepted by assumption. f_equal.
    unfold response_items. cbn [py_truthy].
    destruct items as [|item items].
    { apply Permutation_nil_l in Hperm. now subst. }
    destruct items' as [|item' items'].
    { now apply Permutation_nil_r in Hperm. }
    now apply fill_slots_Permutation.
  - assert (response_accepted n (JArr items') = false) as Hacc'.
    { cbn [response_accepted] in *. now rewrite <- (forallb_Permutation _ _ _ Hperm). }
    now rewrite !collect_results_rejected.
Qed.

(** ** The further properties at concrete inputs *)

Lemma expand_test_blocks_ascending_witness :
  StronglySorted Z.lt [3; 4; 5; 7] /\ NoDup [3; 4; 5; 7].
Proof.
  apply (expand_test_blocks_ascending sample_manifest). reflexivity.
Defined.

Lemma expand_test_blocks_covers_witness :
  5 ∈ [3; 4; 5; 7] <-> covered sample_manifest 5.
Proof.
  apply (expand_test_blocks_covers sample_manifest). reflexivity.
Defined.

Lemma expand_test_blocks_canonical_witness :
  expand_test_blocks sample_manifest' = Ok [3; 4; 5; 7] /\
  expand_test_blocks (Single <$> [3; 4; 5; 7]) = Ok [3; 4; 5; 7].
Proof.
  apply (expand_test_blocks_canonical sample_manifest sample_manifest').
  - reflexivity.
  - intros l Hl.
    repeat (apply elem_of_cons in Hl as [Hl|Hl];
            [try discriminate; now injection Hl as ->|]).
    now apply elem_of_nil in Hl.
  - intros n.
    rewrite <- (numbers_of_covered sample_manifest n eq_refl).
    rewrite <- (numbers_of_covered sample_manifest' n eq_refl).
    change (concat (numbers_of <$> sample_manifest)) with [7; 3; 4; 5; 4; 7].
    change (concat (numbers_of <$> sample_manifest')) with [3; 4; 5; 7; 4].
    rewrite !elem_of_cons, !elem_of_nil. tauto.
Defined.

Lemma repeated_number_forces_all_attempts_witness :
  sleeps (trace (snd (fetch_block_and_events_batch [5; 5] toy_client)))
  = sleeps (trace toy_client) ++ [1; 2].
Proof.
  destruct (repeated_number_forces_all_attempts [5; 5] toy_client) as [_ H].
  - intros Hnd. apply NoDup_cons in Hnd as [Hnot _]. apply Hnot. now left.
  - exact H.
Defined.

Lemma fetch_and_write_on_answering_endpoint_witness :
  fst (main_fetch_and_write [1; 0]%nat [1; 2; 3; 4; 5; 6] toy_client)
  = Ok (chain_blocks toy_chain [1; 2; 3; 4; 5; 6],
        chain_events toy_chain [1; 2; 3; 4; 5; 6]).
Proof.
  apply (fetch_and_write_on_answering_endpoint toy_chain six_blocks).
  - reflexivity.
  - apply serve_answers.
  - intros n h. unfold toy_client, fresh_client. cbn [block_hash_cache].
    rewrite lookup_empty. discriminate.
  - intros n Hn.
    repeat (apply elem_of_cons in Hn as [->|Hn]; [intros; reflexivity|]).
    now apply elem_of_nil in Hn.
  - apply Permutation_swap.
Defined.

Lemma init_pins_first_working_endpoint_witness :
  __init__ all_open two_endpoints second_answers
  = Constructed (World "https://b.example" ∅ (probes two_endpoints) second_answers).
Proof.
  apply (init_pins_first_working_endpoint all_open two_endpoints second_answers 1).
  - reflexivity.
  - intros j epj Hj Hepj. destruct j as [|j]; [|lia].
    injection Hepj as <-. split; reflexivity.
  - reflexivity.
  - reflexivity.
Defined.

Lemma init_without_working_endpoint_witness :
  __init__ all_open two_endpoints never_answers
  = NoWorkingEndpoint (probes two_endpoints).
Proof.
  apply (init_without_working_endpoint all_open two_endpoints never_answers).
  intros j epj _. split; reflexivity.
Defined.

Lemma init_probe_raises_witness :
  __init__ no_userinfo userinfo_endpoints second_answers
    = ConnectionRaised InvalidURL [] /\
  __init__ all_open two_endpoints answers_200
    = ProbeRaised TypeError [NetCall "https://a.example" probe_payload].
Proof.
  split.
  - destruct (init_probe_raises no_userinfo userinfo_endpoints second_answers 0
                "https://user:pw@a.example/") as [H _].
    + reflexivity.
    + intros j epj Hj. lia.
    + apply (H InvalidURL). reflexivity.
  - destruct (init_probe_raises all_open two_endpoints answers_200 0
                "https://a.example") as [_ H].
    + reflexivity.
    + intros j epj Hj. lia.
    + destruct (H TypeError) as [Hrun _]; [reflexivity | reflexivity|].
      exact Hrun.
Defined.

Lemma metadata_files_match_upgrades_witness :
  Forall2 file_of_entry (fst sample_metadata_result) (snd sample_metadata_result) /\
  entry_source <$> snd sample_metadata_result = [(JInt 9000, 7); (JInt 9030, 9)].
Proof.
  destruct (metadata_files_match_upgrades 15 sample_upgrades upgrade_client
              (fst sample_metadata_result) (snd sample_metadata_result)
              upgrade_client_after) as (H & _).
  - vm_compute. reflexivity.
  - split; [exact H | vm_compute; reflexivity].
Defined.

Lemma decode_strips_compact_length_witness :
  _decode_opaque_metadata "08abcd" = JStr "0xabcd" /\
  fst (get_metadata_at_version (JStr "0x07") 15 upgrade_client)
    = Ok (JStr "0xabcd").
Proof.
  apply (decode_strips_compact_length 2 "abcd" (JStr "0x07") 15 upgrade_client
           [("jsonrpc", JStr "2.0"); ("result", JStr "0x0108abcd");
            ("id", JInt 1)]).
  - split; [lia | reflexivity].
  - reflexivity.
  - reflexivity.
Defined.

Lemma version_param_is_le_u32_witness :
  version_param 15 = "0x0f000000" /\ String.length (version_param 15) = 10%nat.
Proof. apply (version_param_is_le_u32 15). lia. Defined.

Lemma batch_lookup_then_single_lookup_witness :
  get_block_hash 1 toy_w1 = (Ok (JStr "0x01"), toy_w1).
Proof.
  destruct (batch_lookup_then_single_lookup toy_numbers toy_client
              toy_hash_map toy_w1 eq_refl 1 (JStr "0x01"))
    as [_ [[_ H]|[H _]]].
  - vm_compute. left.
  - exact H.
  - vm_compute in H. discriminate.
Defined.

Lemma malformed_block_loses_the_batch_witness :
  fst (fetch_block_and_events_batch [1; 2; 3] headerless_client) = Ok ([], []).
Proof.
  destruct (malformed_block_loses_the_batch headerless_chain [1; 2; 3]
              headerless_client 2) as [H _].
  - apply serve_answers.
  - intros n h. unfold headerless_client, fresh_client. cbn [block_hash_cache].
    rewrite lookup_empty. discriminate.
  - apply (bool_decide_unpack _). vm_compute. reflexivity.
  - right. left.
  - reflexivity.
  - reflexivity.
  - reflexivity.
  - exact H.
Defined.

Lemma batch_call_order_independent_witness :
  fst (batch_call three_calls (fresh_client (fun _ _ _ => reversed_reply)))
  = fst (batch_call three_calls (fresh_client (fun _ _ _ => ordered_reply))).
Proof.
  apply (batch_call_order_independent three_calls
           [reply_item 2 (JStr "resultC"); reply_item 1 (JStr "resultB");
            reply_item 0 (JStr "resultA")]
           [reply_item 0 (JStr "resultA"); reply_item 1 (JStr "resultB");
            reply_item 2 (JStr "resultC")]).
  - reflexivity.
  - reflexivity.
  - apply (Permutation_trans (l' := [reply_item 1 (JStr "resultB");
                                     reply_item 2 (JStr "resultC");
                                     reply_item 0 (JStr "resultA")])).
    + apply Permutation_swap.
    + apply (Permutation_trans (l' := [reply_item 1 (JStr "resultB");
                                       reply_item 0 (JStr "resultA");
                                       reply_item 2 (JStr "resultC")])).
      * apply Permutation_skip, Permutation_swap.
      * apply Permutation_swap.
  - apply (bool_decide_unpack _). vm_compute. reflexivity.
Defined.
